(** * Keybind optimizer: a shallow embedding of the allocation engine

    The development follows the TypeScript sources of the repository:

    - [types.ts]: key layouts, fingers, configuration records, actions;
    - [geometry.ts]: key centres, Euclidean distance, sorting by centre x;
    - [Optimizer.ts]: distance lookup, radius sweep, key scorer, greedy
      allocator with displacement repair;
    - [CostFunction.ts]: the friction score of a layout;
    - [SAOptimizer.ts]: seeded generator, warm start, mutation, annealing loop.

    JavaScript numbers are modelled through the interface [JsNumber].  Its
    instance [float_number] is IEEE binary64 (the numbers the program really
    computes with, evaluated by the kernel's primitive floats); the instance
    [R_number] is exact real arithmetic and is used where a statement is
    about the algorithm up to rounding.  JavaScript [Map]s and [Set]s keep
    insertion order, so they are association lists and lists here. *)

From Stdlib Require Import ZArith QArith Reals Lra Lia.
From Stdlib Require Import List String Ascii Bool Permutation Sorted.
From Stdlib Require Import Floats.
Import ListNotations.

Set Implicit Arguments.

(* ================================================================= *)
(** ** JavaScript numbers *)

Declare Scope num_scope.
Delimit Scope num_scope with num.

(** The arithmetic the sources use on [number]s. [lit] is a decimal
    literal, [nmax]/[nmin] are [Math.max]/[Math.min] on two arguments. *)
Class JsNumber : Type := {
  num : Type;
  lit : Q -> num;
  nadd : num -> num -> num;
  nsub : num -> num -> num;
  nmul : num -> num -> num;
  ndiv : num -> num -> num;
  nsqrt : num -> num;
  nabs : num -> num;
  nmax : num -> num -> num;
  nmin : num -> num -> num;
  nltb : num -> num -> bool;
  nleb : num -> num -> bool;
  neqb : num -> num -> bool
}.

(** [Infinity], which only binary64 has. *)
Class JsInfinity (N : JsNumber) : Type := {
  infinity : num
}.

Notation "a + b" := (nadd a b) : num_scope.
Notation "a - b" := (nsub a b) : num_scope.
Notation "a * b" := (nmul a b) : num_scope.
Notation "a / b" := (ndiv a b) : num_scope.
Notation "a <? b" := (nltb a b) : num_scope.
Notation "a <=? b" := (nleb a b) : num_scope.
Notation "a >? b" := (nltb b a) (at level 70) : num_scope.
Notation "a >=? b" := (nleb b a) (at level 70) : num_scope.
Notation "a =? b" := (neqb a b) : num_scope.

(** *** binary64 *)

(** The double of an integer below 2^63 in magnitude (the literals,
    array lengths and generator states are far below). *)
Definition float_of_Z (z : Z) : float :=
  match z with
  | Z0 => 0%float
  | Zpos _ => PrimFloat.of_uint63 (Uint63.of_Z z)
  | Zneg p => PrimFloat.opp (PrimFloat.of_uint63 (Uint63.of_Z (Zpos p)))
  end.

(** A decimal literal denotes the double nearest to it; for the literals
    of the sources numerator and denominator are exact, and the correctly
    rounded quotient is that double. *)
Definition float_lit (q : Q) : float :=
  PrimFloat.div (float_of_Z (Qnum q)) (float_of_Z (Zpos (Qden q))).

(** [Math.max(a, b)]: NaN if either is NaN, and [+0] above [-0]. *)
Definition float_max (a b : float) : float :=
  if PrimFloat.ltb a b then b
  else if PrimFloat.ltb b a then a
  else if PrimFloat.eqb a b then (if get_sign a then b else a)
  else nan.

Definition float_min (a b : float) : float :=
  if PrimFloat.ltb a b then a
  else if PrimFloat.ltb b a then b
  else if PrimFloat.eqb a b then (if get_sign a then a else b)
  else nan.

#[export] Instance float_number : JsNumber := {|
  num := float;
  lit := float_lit;
  nadd := PrimFloat.add;
  nsub := PrimFloat.sub;
  nmul := PrimFloat.mul;
  ndiv := PrimFloat.div;
  nsqrt := PrimFloat.sqrt;
  nabs := PrimFloat.abs;
  nmax := float_max;
  nmin := float_min;
  nltb := PrimFloat.ltb;
  nleb := PrimFloat.leb;
  neqb := PrimFloat.eqb
|}.

#[export] Instance float_infinity : JsInfinity float_number := {|
  infinity := PrimFloat.infinity
|}.

(** *** Exact real arithmetic *)

Definition R_ltb (a b : R) : bool := if Rlt_dec a b then true else false.
Definition R_leb (a b : R) : bool := if Rle_dec a b then true else false.
Definition R_eqb (a b : R) : bool := if Req_dec_T a b then true else false.

Definition R_number : JsNumber := {|
  num := R;
  lit := Q2R;
  nadd := Rplus;
  nsub := Rminus;
  nmul := Rmult;
  ndiv := Rdiv;
  nsqrt := R_sqrt.sqrt;
  nabs := Rabs;
  nmax := Rmax;
  nmin := Rmin;
  nltb := R_ltb;
  nleb := R_leb;
  neqb := R_eqb
|}.

(** A number system computes exactly when its operations are those of the
    reals under an interpretation [toR]. binary64 does not (it rounds);
    [R_number] does. *)
Class ExactArithmetic (N : JsNumber) : Type := {
  toR : num -> R;
  toR_lit : forall q, toR (lit q) = Q2R q;
  toR_add : forall a b, toR (a + b)%num = (toR a + toR b)%R;
  toR_sub : forall a b, toR (a - b)%num = (toR a - toR b)%R;
  toR_mul : forall a b, toR (a * b)%num = (toR a * toR b)%R;
  toR_div : forall a b, toR b <> 0%R -> toR (a / b)%num = (toR a / toR b)%R;
  toR_sqrt : forall a, toR (nsqrt a) = R_sqrt.sqrt (toR a);
  toR_abs : forall a, toR (nabs a) = Rabs (toR a);
  toR_max : forall a b, toR (nmax a b) = Rmax (toR a) (toR b);
  toR_min : forall a b, toR (nmin a b) = Rmin (toR a) (toR b);
  toR_ltb : forall a b, (a <? b)%num = true <-> (toR a < toR b)%R;
  toR_leb : forall a b, (a <=? b)%num = true <-> (toR a <= toR b)%R;
  toR_eqb : forall a b, (a =? b)%num = true <-> toR a = toR b
}.

(* ================================================================= *)
(** ** Strings, arrays, maps and sets *)

Definition ascii_lower (c : ascii) : ascii :=
  let n := nat_of_ascii c in
  if ((65 <=? n)%nat && (n <=? 90)%nat)%bool then ascii_of_nat (n + 32) else c.

(** [String.prototype.toLowerCase] on ASCII names. *)
Fixpoint toLowerCase (s : string) : string :=
  match s with
  | EmptyString => EmptyString
  | String c s' => String (ascii_lower c) (toLowerCase s')
  end.

(** [String.prototype.includes]: [sub] occurs somewhere in [s]. *)
Fixpoint includes (s sub : string) : bool :=
  (String.prefix sub s ||
   match s with
   | EmptyString => false
   | String _ s' => includes s' sub
   end)%bool.

(** Keys of maps and elements of sets are compared with [===]. *)
Class KeyEq (K : Type) : Type := {
  keqb : K -> K -> bool;
  keqb_eq : forall a b, keqb a b = true <-> a = b
}.

#[export] Instance string_KeyEq : KeyEq string := {|
  keqb := String.eqb;
  keqb_eq := String.eqb_eq
|}.

(** [Array.prototype.includes]. *)
Definition Array_includes {K} `{KeyEq K} (arr : list K) (x : K) : bool :=
  existsb (keqb x) arr.

(** [Array.prototype.sort] with a comparator. The sort is stable; an
    insertion sort that leaves [x] in front of [y] unless [cmp x y > 0]
    computes the same array for every consistent comparator. *)
Section ArraySort.
Context {N : JsNumber} {A : Type}.
Variable cmp : A -> A -> num.

Fixpoint sort_insert (x : A) (l : list A) : list A :=
  match l with
  | [] => [x]
  | y :: l' =>
      if (cmp x y >? lit 0)%num then y :: sort_insert x l' else x :: l
  end.

Definition Array_sort (l : list A) : list A :=
  fold_right sort_insert [] l.
End ArraySort.

(** A JavaScript [Map]: entries in insertion order, one per key. *)
Module JsMap.
Section Ops.
Context {K V : Type} `{KeyEq K}.

Definition t : Type := list (K * V).

Definition empty : t := [].

Fixpoint get (m : t) (k : K) : option V :=
  match m with
  | [] => None
  | (k', v) :: m' => if keqb k' k then Some v else get m' k
  end.

Definition has (m : t) (k : K) : bool :=
  match get m k with Some _ => true | None => false end.

(** [set] overwrites in place, or appends a new entry. *)
Fixpoint set (m : t) (k : K) (v : V) : t :=
  match m with
  | [] => [(k, v)]
  | (k', v') :: m' =>
      if keqb k' k then (k', v) :: m' else (k', v') :: set m' k v
  end.

Definition keys (m : t) : list K := map fst m.
Definition values (m : t) : list V := map snd m.
Definition size (m : t) : nat := List.length m.

(** [new Map(entries)]. *)
Definition of_entries (l : list (K * V)) : t :=
  fold_left (fun m e => set m (fst e) (snd e)) l empty.
End Ops.
Arguments t : clear implicits.
End JsMap.

(** A JavaScript [Set]: elements in insertion order, each once. *)
Module JsSet.
Section Ops.
Context {K : Type} `{KeyEq K}.

Definition t : Type := list K.

Definition empty : t := [].

Definition has (s : t) (k : K) : bool := existsb (keqb k) s.

Definition add (s : t) (k : K) : t :=
  if has s k then s else s ++ [k].

Definition of_list (l : list K) : t := fold_left add l empty.
End Ops.
Arguments t : clear implicits.
End JsSet.

(* ================================================================= *)
(** ** [types.ts] *)

Inductive Finger : Type :=
| LeftPinky | LeftRing | LeftMiddle | LeftIndex | LeftThumb
| RightThumb | RightIndex | RightMiddle | RightRing | RightPinky.

Definition Finger_eqb (a b : Finger) : bool :=
  match a, b with
  | LeftPinky, LeftPinky | LeftRing, LeftRing | LeftMiddle, LeftMiddle
  | LeftIndex, LeftIndex | LeftThumb, LeftThumb | RightThumb, RightThumb
  | RightIndex, RightIndex | RightMiddle, RightMiddle
  | RightRing, RightRing | RightPinky, RightPinky => true
  | _, _ => false
  end.

Lemma Finger_eqb_eq (a b : Finger) : Finger_eqb a b = true <-> a = b.
Proof. destruct a, b; simpl; split; intros E; try reflexivity; discriminate. Qed.

#[export] Instance Finger_KeyEq : KeyEq Finger := {|
  keqb := Finger_eqb;
  keqb_eq := Finger_eqb_eq
|}.

Definition FINGER_LIST : list Finger :=
  [LeftPinky; LeftRing; LeftMiddle; LeftIndex; LeftThumb;
   RightThumb; RightIndex; RightMiddle; RightRing; RightPinky].

Inductive ActionType : Type :=
| DIRECTIONAL | MOVEMENT | COMBAT | UTILITY | MENU.

Definition ActionType_eqb (a b : ActionType) : bool :=
  match a, b with
  | DIRECTIONAL, DIRECTIONAL | MOVEMENT, MOVEMENT | COMBAT, COMBAT
  | UTILITY, UTILITY | MENU, MENU => true
  | _, _ => false
  end.

(** Physical key definition with position in 0.25u coordinate space. *)
Module KeyDef.
Record t {N : JsNumber} : Type := mk {
  code : string;
  x : num;
  y : num;
  width : num;
  height : option num
}.
Arguments mk {N}.
End KeyDef.

(** Configuration for a single finger. *)
Module FingerConfig.
Record t {N : JsNumber} : Type := mk {
  restingKey : string;
  reach : num;
  exclusiveKeys : option (list string);
  keyPenalties : option (JsMap.t string num)
}.
Arguments mk {N}.
End FingerConfig.

(** [Partial<Record<Finger, FingerConfig>>]: the configured fingers in the
    order [Object.entries] enumerates them. *)
Definition FingerConfigMap {N : JsNumber} : Type := JsMap.t Finger FingerConfig.t.

Definition LockedBinds : Type := JsMap.t string string.

Definition FingerLoad {N : JsNumber} : Type := JsMap.t Finger num.

Module AxisConfig.
Record t : Type := mk {
  positiveKey : string;
  negativeKey : string;
  fingers : list Finger;
  isExclusive : bool
}.
End AxisConfig.

Module MovementConfig.
Record t : Type := mk {
  verticalAxis : AxisConfig.t;
  horizontalAxis : AxisConfig.t
}.
End MovementConfig.

Module ScoredKey.
Record t {N : JsNumber} : Type := mk {
  code : string;
  totalScore : num;
  bestFinger : Finger;
  originKey : string;
  isRestingKey : bool;
  isMovement : bool
}.
Arguments mk {N}.
End ScoredKey.

Module Action.
Record t {N : JsNumber} : Type := mk {
  name : string;
  priority : num;
  type : ActionType;
  useFrequency : num;
  concurrentWith : option (list string)
}.
Arguments mk {N}.
End Action.

Module Binding.
Record t : Type := mk {
  action : string;
  key : string
}.
End Binding.

(** Complete layout: action name to key code. *)
Definition Layout : Type := JsMap.t string string.

Module PenaltyConfig.
Record t {N : JsNumber} : Type := mk {
  distanceWeight : num;
  frequencyWeight : num;
  concurrencyPenalty : num;
  exclusiveViolation : num;
  unreachablePenalty : num
}.
Arguments mk {N}.
End PenaltyConfig.

Module SAOptions.
Record t {N : JsNumber} : Type := mk {
  initialTemp : num;
  coolingRate : num;
  minTemp : num;
  seed : option num
}.
Arguments mk {N}.
End SAOptions.

Section Layouts.
Context {N : JsNumber}.

Definition key (c : string) (x y w : Z) : KeyDef.t :=
  KeyDef.mk c (lit (inject_Z x)) (lit (inject_Z y)) (lit (inject_Z w)) None.

Definition ANSI_LAYOUT : list KeyDef.t :=
  [ key "Backquote" 0 0 4; key "Digit1" 4 0 4; key "Digit2" 8 0 4;
    key "Digit3" 12 0 4; key "Digit4" 16 0 4; key "Digit5" 20 0 4;
    key "Digit6" 24 0 4; key "Digit7" 28 0 4; key "Digit8" 32 0 4;
    key "Digit9" 36 0 4; key "Digit0" 40 0 4; key "Minus" 44 0 4;
    key "Equal" 48 0 4; key "Backspace" 52 0 8;
    key "Tab" 0 4 6; key "KeyQ" 6 4 4; key "KeyW" 10 4 4;
    key "KeyE" 14 4 4; key "KeyR" 18 4 4; key "KeyT" 22 4 4;
    key "KeyY" 26 4 4; key "KeyU" 30 4 4; key "KeyI" 34 4 4;
    key "KeyO" 38 4 4; key "KeyP" 42 4 4; key "BracketLeft" 46 4 4;
    key "BracketRight" 50 4 4; key "Backslash" 54 4 6;
    key "CapsLock" 0 8 7; key "KeyA" 7 8 4; key "KeyS" 11 8 4;
    key "KeyD" 15 8 4; key "KeyF" 19 8 4; key "KeyG" 23 8 4;
    key "KeyH" 27 8 4; key "KeyJ" 31 8 4; key "KeyK" 35 8 4;
    key "KeyL" 39 8 4; key "Semicolon" 43 8 4; key "Quote" 47 8 4;
    key "Enter" 51 8 9;
    key "ShiftLeft" 0 12 9; key "KeyZ" 9 12 4; key "KeyX" 13 12 4;
    key "KeyC" 17 12 4; key "KeyV" 21 12 4; key "KeyB" 25 12 4;
    key "KeyN" 29 12 4; key "KeyM" 33 12 4; key "Comma" 37 12 4;
    key "Period" 41 12 4; key "Slash" 45 12 4; key "ShiftRight" 49 12 11;
    key "ControlLeft" 0 16 5; key "MetaLeft" 5 16 5; key "AltLeft" 10 16 5;
    key "Space" 15 16 4; key "SpaceRightSide" 19 16 21;
    key "AltRight" 40 16 5; key "MetaRight" 45 16 5;
    key "ContextMenu" 50 16 5; key "ControlRight" 55 16 5 ]%string.

Definition MOUSE_LAYOUT : list KeyDef.t :=
  [ key "MouseLeft" 70 4 4; key "MouseUp" 74 0 4; key "MouseRight" 78 4 4;
    key "Mouse4" 66 8 4; key "MouseMiddle" 74 4 4; key "Mouse5" 66 12 4;
    key "MouseDown" 74 8 4 ]%string.

Definition DEFAULT_PENALTIES : PenaltyConfig.t :=
  PenaltyConfig.mk (lit 1) (lit (1 # 10)) (lit 10000) (lit 100000) (lit 50000).

Definition DEFAULT_SA_OPTIONS : SAOptions.t :=
  SAOptions.mk (lit 1000) (lit (995 # 1000)) (lit (1 # 10)) None.
End Layouts.

(* ================================================================= *)
(** ** [geometry.ts] *)

Module Point.
Record t {N : JsNumber} : Type := mk { x : num; y : num }.
Arguments mk {N}.
End Point.

Section Geometry.
Context {N : JsNumber}.

Definition DEFAULT_KEY_HEIGHT : num := lit 4.

(** Returns the center point of a key in 0.25u coordinate space. *)
Definition getKeyCenter (k : KeyDef.t) : Point.t :=
  Point.mk
    (KeyDef.x k + KeyDef.width k / lit 2)%num
    (KeyDef.y k +
     match KeyDef.height k with
     | Some h => h
     | None => DEFAULT_KEY_HEIGHT
     end / lit 2)%num.

(** Calculates Euclidean distance between two points. *)
Definition euclidean (pointA pointB : Point.t) : num :=
  let deltaX := (Point.x pointA - Point.x pointB)%num in
  let deltaY := (Point.y pointA - Point.y pointB)%num in
  nsqrt (deltaX * deltaX + deltaY * deltaY)%num.

(** Center-to-center distance between two keys; 0 for the same key. *)
Definition keyDistance (keyA keyB : KeyDef.t) : num :=
  if String.eqb (KeyDef.code keyA) (KeyDef.code keyB) then lit 0
  else euclidean (getKeyCenter keyA) (getKeyCenter keyB).

(** Returns keys sorted by center X coordinate. *)
Definition sortKeysByX (keys : list KeyDef.t) : list KeyDef.t :=
  Array_sort
    (fun a b => (Point.x (getKeyCenter a) - Point.x (getKeyCenter b))%num)
    keys.

(** Creates a Map from key code to KeyDef. *)
Definition buildKeyMap (keys : list KeyDef.t) : JsMap.t string KeyDef.t :=
  JsMap.of_entries (map (fun k => (KeyDef.code k, k)) keys).
End Geometry.

(* ================================================================= *)
(** ** [Optimizer.ts]: distance lookup, radius sweep and key scorer *)

Module Neighbor.
Record t {N : JsNumber} : Type := mk { key : string; distance : num }.
Arguments mk {N}.
End Neighbor.

(** What [findClosestRestingFinger] returns. *)
Module Closest.
Record t {N : JsNumber} : Type := mk {
  finger : Finger;
  originKey : string;
  distance : num
}.
Arguments mk {N}.
End Closest.

Module Optimizer.
Record t {N : JsNumber} : Type := mk {
  keyMap : JsMap.t string KeyDef.t;
  sortedKeysX : list KeyDef.t
}.
Arguments mk {N}.
End Optimizer.

Section OptimizerGeometry.
Context {N : JsNumber}.

(** The constructor, for a list of physical keys. *)
Definition Optimizer_of (allKeys : list KeyDef.t) : Optimizer.t :=
  Optimizer.mk (buildKeyMap allKeys) (sortKeysByX allKeys).

(** [new Optimizer()]. *)
Definition Optimizer_new : Optimizer.t :=
  Optimizer_of (ANSI_LAYOUT ++ MOUSE_LAYOUT).

(** The sentinel [getDistance] returns for an unknown key. *)
Definition NOT_FOUND : num := lit (-1).

Definition getDistance (this : Optimizer.t) (key1Id key2Id : string) : num :=
  match JsMap.get (Optimizer.keyMap this) key1Id,
        JsMap.get (Optimizer.keyMap this) key2Id with
  | Some key1, Some key2 => keyDistance key1 key2
  | _, _ => NOT_FOUND
  end.

(** [keyDefinition.code === excludeCode], for an optional [excludeCode]. *)
Definition isExcluded (excludeCode : option string) (c : string) : bool :=
  match excludeCode with
  | Some e => String.eqb c e
  | None => false
  end.

(** The loop of [findKeysWithinRadius] over the keys still to visit:
    [continue] goes on with the rest, [break] drops it. *)
Fixpoint sweep (center : Point.t) (maxDistance : num)
    (excludeCode : option string) (keys : list KeyDef.t) : list Neighbor.t :=
  match keys with
  | [] => []
  | keyDefinition :: rest =>
      let keyCenter := getKeyCenter keyDefinition in
      if (Point.x keyCenter <? Point.x center - maxDistance)%num then
        sweep center maxDistance excludeCode rest
      else if (Point.x keyCenter >? Point.x center + maxDistance)%num then
        []
      else if (nabs (Point.y keyCenter - Point.y center) >? maxDistance)%num then
        sweep center maxDistance excludeCode rest
      else if isExcluded excludeCode (KeyDef.code keyDefinition) then
        sweep center maxDistance excludeCode rest
      else
        let distance := euclidean center keyCenter in
        if (distance >? maxDistance)%num then
          sweep center maxDistance excludeCode rest
        else
          Neighbor.mk (KeyDef.code keyDefinition) distance
            :: sweep center maxDistance excludeCode rest
  end.

Definition findKeysWithinRadius (this : Optimizer.t) (center : Point.t)
    (maxDistance : num) (excludeCode : option string) : list Neighbor.t :=
  sweep center maxDistance excludeCode (Optimizer.sortedKeysX this).

Definition getNearbyKeys (this : Optimizer.t) (targetKeyId : string)
    (maxDistance : num) : list Neighbor.t :=
  match JsMap.get (Optimizer.keyMap this) targetKeyId with
  | None => []
  | Some targetKey =>
      findKeysWithinRadius this (getKeyCenter targetKey) maxDistance
        (Some targetKeyId)
  end.


(** [config.keyPenalties?.[keyCode] ?? 0]. *)
Definition keyPenalty (config : FingerConfig.t) (keyCode : string) : num :=
  match FingerConfig.keyPenalties config with
  | Some penalties =>
      match JsMap.get penalties keyCode with
      | Some p => p
      | None => lit 0
      end
  | None => lit 0
  end.

(** [config.exclusiveKeys?.includes(keyCode)]. *)
Definition isExclusiveTo (config : FingerConfig.t) (keyCode : string) : bool :=
  match FingerConfig.exclusiveKeys config with
  | Some ks => Array_includes ks keyCode
  | None => false
  end.

(** [config.exclusiveKeys && config.exclusiveKeys.length > 0]. *)
Definition hasExclusiveKeys (config : FingerConfig.t) : bool :=
  match FingerConfig.exclusiveKeys config with
  | Some (_ :: _) => true
  | _ => false
  end.

(** First loop of [findClosestRestingFinger]: the fingers the key is
    exclusive to. [None] when the loop runs to its end. *)
Fixpoint exclusiveSearch (this : Optimizer.t) (keyCode : string)
    (entries : FingerConfigMap) : option Closest.t :=
  match entries with
  | [] => None
  | (finger, config) :: rest =>
      if negb (isExclusiveTo config keyCode) then
        exclusiveSearch this keyCode rest
      else
        let penalty := keyPenalty config keyCode in
        if String.eqb keyCode (FingerConfig.restingKey config) then
          Some (Closest.mk finger (FingerConfig.restingKey config) penalty)
        else
          let dist := getDistance this keyCode (FingerConfig.restingKey config) in
          if (dist =? NOT_FOUND)%num then exclusiveSearch this keyCode rest
          else
            Some (Closest.mk finger (FingerConfig.restingKey config)
                    (dist + penalty)%num)
  end.

(** Second loop: the fingers without exclusive keys, with the running
    [best]. *)
Fixpoint normalSearch (this : Optimizer.t) (keyCode : string)
    (entries : FingerConfigMap) (best : option Closest.t) : option Closest.t :=
  match entries with
  | [] => best
  | (finger, config) :: rest =>
      if hasExclusiveKeys config then normalSearch this keyCode rest best
      else
        let penalty := keyPenalty config keyCode in
        if String.eqb keyCode (FingerConfig.restingKey config) then
          Some (Closest.mk finger (FingerConfig.restingKey config) penalty)
        else
          let dist := getDistance this keyCode (FingerConfig.restingKey config) in
          if (dist =? NOT_FOUND)%num then normalSearch this keyCode rest best
          else
            let totalDist := (dist + penalty)%num in
            let better :=
              match best with
              | None => true
              | Some b => (totalDist <? Closest.distance b)%num
              end in
            if better then
              normalSearch this keyCode rest
                (Some (Closest.mk finger (FingerConfig.restingKey config) totalDist))
            else normalSearch this keyCode rest best
  end.

Definition findClosestRestingFinger (this : Optimizer.t) (keyCode : string)
    (fingerConfig : FingerConfigMap) : option Closest.t :=
  match exclusiveSearch this keyCode fingerConfig with
  | Some r => Some r
  | None => normalSearch this keyCode fingerConfig None
  end.

Definition scoreKey (this : Optimizer.t) (keyCode : string)
    (fingerConfig : FingerConfigMap) (movementKeys : JsSet.t string)
    : option ScoredKey.t :=
  match findClosestRestingFinger this keyCode fingerConfig with
  | None => None
  | Some result =>
      Some (ScoredKey.mk keyCode (Closest.distance result)
              (Closest.finger result) (Closest.originKey result)
              (Closest.distance result =? lit 0)%num
              (JsSet.has movementKeys keyCode))
  end.

(** Scores all keys based on distance from resting finger positions. *)
Definition scoreKeys (this : Optimizer.t) (fingerConfig : FingerConfigMap)
    (movementKeys : JsSet.t string) (allKeyCodes : list string)
    : list ScoredKey.t :=
  flat_map
    (fun c =>
       match scoreKey this c fingerConfig movementKeys with
       | Some s => [s]
       | None => []
       end)
    allKeyCodes.

(** Returns keys sorted by score (lowest = most accessible). *)
Definition getPrioritizedKeyList (scoredKeys : list ScoredKey.t)
    : list ScoredKey.t :=
  Array_sort
    (fun a b => (ScoredKey.totalScore a - ScoredKey.totalScore b)%num)
    scoredKeys.
End OptimizerGeometry.

(* ================================================================= *)
(** ** [Optimizer.ts]: the greedy allocator *)

(** What allocating one action returns: its binding and its fingers. *)
Module Allocation.
Record t : Type := mk {
  binding : Binding.t;
  fingers : list Finger
}.
End Allocation.

(** What [allocatePass] returns. *)
Module PassResult.
Record t : Type := mk {
  bindings : list Binding.t;
  actionFingerMap : JsMap.t string (list Finger)
}.
End PassResult.

(** The variables [allocatePass] updates while it visits the actions. *)
Module PassState.
Record t {N : JsNumber} : Type := mk {
  bindings : list Binding.t;
  boundKeys : JsSet.t string;
  fingerLoad : FingerLoad;
  actionFingerMap : JsMap.t string (list Finger)
}.
Arguments mk {N}.
End PassState.

Section Allocator.
Context {N : JsNumber} {NI : JsInfinity N}.

(** Returns actions sorted by frequency (higher = first pick). *)
Definition sortActionsByFrequency (actions : list Action.t) : list Action.t :=
  Array_sort
    (fun a b => (Action.useFrequency b - Action.useFrequency a)%num)
    actions.

Definition buildMovementKeySet (config : MovementConfig.t) : JsSet.t string :=
  JsSet.of_list
    [ AxisConfig.positiveKey (MovementConfig.verticalAxis config);
      AxisConfig.negativeKey (MovementConfig.verticalAxis config);
      AxisConfig.positiveKey (MovementConfig.horizontalAxis config);
      AxisConfig.negativeKey (MovementConfig.horizontalAxis config) ].

Definition buildExclusiveMovementFingers (config : MovementConfig.t)
    : JsSet.t Finger :=
  let fingers := JsSet.empty in
  let fingers :=
    if AxisConfig.isExclusive (MovementConfig.verticalAxis config)
    then fold_left JsSet.add
           (AxisConfig.fingers (MovementConfig.verticalAxis config)) fingers
    else fingers in
  if AxisConfig.isExclusive (MovementConfig.horizontalAxis config)
  then fold_left JsSet.add
         (AxisConfig.fingers (MovementConfig.horizontalAxis config)) fingers
  else fingers.

Definition addFingerLoad (fingerLoad : FingerLoad) (finger : Finger)
    (frequency : num) : FingerLoad :=
  let current :=
    match JsMap.get fingerLoad finger with
    | Some c => c
    | None => lit 0
    end in
  JsMap.set fingerLoad finger (current + frequency)%num.

(** The axis of an action is read off its name. *)
Definition findAxisForName (name : string) (config : MovementConfig.t)
    : option AxisConfig.t :=
  if (includes (toLowerCase name) "forward"
      || includes (toLowerCase name) "backward")%bool
  then Some (MovementConfig.verticalAxis config)
  else if (includes (toLowerCase name) "left"
           || includes (toLowerCase name) "right")%bool
  then Some (MovementConfig.horizontalAxis config)
  else None.

Definition findAxisForAction (action : Action.t) (config : MovementConfig.t)
    : option AxisConfig.t :=
  findAxisForName (Action.name action) config.

(** Returns the allocation and the finger load after it. The load of
    an axis without fingers would be booked under [undefined], an
    entry no lookup reads; the load map is left as it is then. *)
Definition allocateMovementAction (action : Action.t)
    (scoredKeys : list ScoredKey.t) (boundKeys : JsSet.t string)
    (movementConfig : MovementConfig.t) (fingerLoad : FingerLoad)
    : option Allocation.t * FingerLoad :=
  match findAxisForAction action movementConfig with
  | None => (None, fingerLoad)
  | Some axisConfig =>
      let targetKeys :=
        [AxisConfig.positiveKey axisConfig; AxisConfig.negativeKey axisConfig] in
      match
        find (fun k =>
                Array_includes targetKeys (ScoredKey.code k)
                && negb (JsSet.has boundKeys (ScoredKey.code k)))
             scoredKeys
      with
      | None => (None, fingerLoad)
      | Some bestKey =>
          let fingerLoad' :=
            match AxisConfig.fingers axisConfig with
            | primaryFinger :: _ =>
                addFingerLoad fingerLoad primaryFinger (Action.useFrequency action)
            | [] => fingerLoad
            end in
          (Some (Allocation.mk
                   (Binding.mk (Action.name action) (ScoredKey.code bestKey))
                   (AxisConfig.fingers axisConfig)),
           fingerLoad')
      end
  end.

(** [otherAction.concurrentWith?.includes(name)]. *)
Definition namesConcurrent (other : Action.t) (name : string) : bool :=
  match Action.concurrentWith other with
  | Some l => Array_includes l name
  | None => false
  end.

Definition addFingersOf (actionFingerMap : JsMap.t string (list Finger))
    (blocked : JsSet.t Finger) (name : string) : JsSet.t Finger :=
  match JsMap.get actionFingerMap name with
  | Some fingers => fold_left JsSet.add fingers blocked
  | None => blocked
  end.

Definition getBlockedFingersForConcurrency (action : Action.t)
    (actionFingerMap : JsMap.t string (list Finger))
    (allActions : list Action.t) : JsSet.t Finger :=
  let blocked := JsSet.empty in
  let blocked :=
    match Action.concurrentWith action with
    | Some names => fold_left (addFingersOf actionFingerMap) names blocked
    | None => blocked
    end in
  fold_left
    (fun blocked otherAction =>
       if namesConcurrent otherAction (Action.name action)
       then addFingersOf actionFingerMap blocked (Action.name otherAction)
       else blocked)
    allActions blocked.

(** The reach cap of an action on a finger. *)
Definition maxDistanceFor (action : Action.t) (config : FingerConfig.t) : num :=
  if (Action.priority action =? lit 0)%num then infinity
  else
    (lit 4 + (FingerConfig.reach config - lit 4)
             * ((lit 100 - Action.priority action) / lit 99))%num.

(** A scored key survives the [continue]s that do not look at its score. *)
Definition isCandidate (scoredKey : ScoredKey.t)
    (boundKeys lockedKeySet movementKeys : JsSet.t string)
    (movementFingers availableFingers blockedFingers : JsSet.t Finger) : bool :=
  negb (JsSet.has boundKeys (ScoredKey.code scoredKey))
  && negb (JsSet.has lockedKeySet (ScoredKey.code scoredKey))
  && negb (JsSet.has movementKeys (ScoredKey.code scoredKey))
  && negb (JsSet.has movementFingers (ScoredKey.bestFinger scoredKey))
  && JsSet.has availableFingers (ScoredKey.bestFinger scoredKey)
  && negb (JsSet.has blockedFingers (ScoredKey.bestFinger scoredKey)).

(** The loop of [allocateNonMovementAction] with its two variables. *)
Fixpoint bestKeyLoop (action : Action.t) (scoredKeys : list ScoredKey.t)
    (boundKeys lockedKeySet : JsSet.t string) (fingerLoad : FingerLoad)
    (fingerConfig : FingerConfigMap) (movementKeys : JsSet.t string)
    (movementFingers availableFingers blockedFingers : JsSet.t Finger)
    (bestKey : option ScoredKey.t) (minimumScore : num)
    : option ScoredKey.t :=
  match scoredKeys with
  | [] => bestKey
  | scoredKey :: rest =>
      let continue_ b m :=
        bestKeyLoop action rest boundKeys lockedKeySet fingerLoad fingerConfig
          movementKeys movementFingers availableFingers blockedFingers b m in
      if negb (isCandidate scoredKey boundKeys lockedKeySet movementKeys
                 movementFingers availableFingers blockedFingers)
      then continue_ bestKey minimumScore
      else
        match JsMap.get fingerConfig (ScoredKey.bestFinger scoredKey) with
        | None => continue_ bestKey minimumScore
        | Some config =>
            if (ScoredKey.totalScore scoredKey >? maxDistanceFor action config)%num
            then continue_ bestKey minimumScore
            else
              let currentLoad :=
                match JsMap.get fingerLoad (ScoredKey.bestFinger scoredKey) with
                | Some c => c
                | None => lit 0
                end in
              let frequencyBonus := (Action.useFrequency action * lit (1 # 10))%num in
              let loadPenalty := (currentLoad * lit (5 # 100))%num in
              let totalScore :=
                (ScoredKey.totalScore scoredKey - frequencyBonus + loadPenalty)%num in
              if (totalScore >=? minimumScore)%num
              then continue_ bestKey minimumScore
              else continue_ (Some scoredKey) totalScore
        end
  end.

Definition allocateNonMovementAction (action : Action.t)
    (scoredKeys : list ScoredKey.t) (boundKeys lockedKeySet : JsSet.t string)
    (fingerLoad : FingerLoad) (fingerConfig : FingerConfigMap)
    (movementKeys : JsSet.t string)
    (movementFingers availableFingers : JsSet.t Finger)
    (actionFingerMap : JsMap.t string (list Finger))
    (allActions : list Action.t) : option Allocation.t * FingerLoad :=
  let blockedFingers :=
    getBlockedFingersForConcurrency action actionFingerMap allActions in
  match
    bestKeyLoop action scoredKeys boundKeys lockedKeySet fingerLoad fingerConfig
      movementKeys movementFingers availableFingers blockedFingers None infinity
  with
  | None => (None, fingerLoad)
  | Some bestKey =>
      (Some (Allocation.mk
               (Binding.mk (Action.name action) (ScoredKey.code bestKey))
               [ScoredKey.bestFinger bestKey]),
       addFingerLoad fingerLoad (ScoredKey.bestFinger bestKey)
         (Action.useFrequency action))
  end.

(** [lockedBinds.get(name)] when it is truthy. *)
Definition lockedKeyOf (lockedBinds : LockedBinds) (name : string)
    : option string :=
  match JsMap.get lockedBinds name with
  | Some k => if String.eqb k EmptyString then None else Some k
  | None => None
  end.

Definition allocateActionWithLoad (action : Action.t)
    (scoredKeys : list ScoredKey.t) (boundKeys : JsSet.t string)
    (lockedBinds : LockedBinds) (lockedKeySet : JsSet.t string)
    (fingerLoad : FingerLoad) (fingerConfig : FingerConfigMap)
    (movementConfig : MovementConfig.t) (movementKeys : JsSet.t string)
    (movementFingers availableFingers : JsSet.t Finger)
    (actionFingerMap : JsMap.t string (list Finger))
    (allActions : list Action.t) : option Allocation.t * FingerLoad :=
  match lockedKeyOf lockedBinds (Action.name action) with
  | Some lockedKey =>
      let finger :=
        match find (fun k => String.eqb (ScoredKey.code k) lockedKey) scoredKeys with
        | Some keyScore => ScoredKey.bestFinger keyScore
        | None => RightIndex
        end in
      (Some (Allocation.mk (Binding.mk (Action.name action) lockedKey) [finger]),
       fingerLoad)
  | None =>
      if ActionType_eqb (Action.type action) DIRECTIONAL then
        allocateMovementAction action scoredKeys boundKeys movementConfig fingerLoad
      else
        allocateNonMovementAction action scoredKeys boundKeys lockedKeySet
          fingerLoad fingerConfig movementKeys movementFingers availableFingers
          actionFingerMap allActions
  end.

(** One turn of the loop of [allocatePass]. *)
Definition passStep (actions : list Action.t) (scoredKeys : list ScoredKey.t)
    (fingerConfig : FingerConfigMap) (movementConfig : MovementConfig.t)
    (availableFingers : JsSet.t Finger) (lockedBinds : LockedBinds)
    (st : PassState.t) (action : Action.t) : PassState.t :=
  let lockedKeySet := JsSet.of_list (JsMap.values lockedBinds) in
  let movementKeys := buildMovementKeySet movementConfig in
  let movementFingers := buildExclusiveMovementFingers movementConfig in
  match
    allocateActionWithLoad action scoredKeys (PassState.boundKeys st)
      lockedBinds lockedKeySet (PassState.fingerLoad st) fingerConfig
      movementConfig movementKeys movementFingers availableFingers
      (PassState.actionFingerMap st) actions
  with
  | (None, fingerLoad) =>
      PassState.mk (PassState.bindings st) (PassState.boundKeys st) fingerLoad
        (PassState.actionFingerMap st)
  | (Some result, fingerLoad) =>
      PassState.mk
        (PassState.bindings st ++ [Allocation.binding result])
        (JsSet.add (PassState.boundKeys st) (Binding.key (Allocation.binding result)))
        fingerLoad
        (JsMap.set (PassState.actionFingerMap st) (Action.name action)
           (Allocation.fingers result))
  end.

Definition passLoop (actions : list Action.t) (scoredKeys : list ScoredKey.t)
    (fingerConfig : FingerConfigMap) (movementConfig : MovementConfig.t)
    (availableFingers : JsSet.t Finger) (lockedBinds : LockedBinds)
    (todo : list Action.t) (st : PassState.t) : PassState.t :=
  fold_left
    (passStep actions scoredKeys fingerConfig movementConfig availableFingers
       lockedBinds)
    todo st.

Definition allocatePass (actions : list Action.t) (scoredKeys : list ScoredKey.t)
    (fingerConfig : FingerConfigMap) (movementConfig : MovementConfig.t)
    (availableFingers : JsSet.t Finger) (lockedBinds : LockedBinds)
    : PassResult.t :=
  let sortedActions := sortActionsByFrequency actions in
  let st :=
    passLoop actions scoredKeys fingerConfig movementConfig availableFingers
      lockedBinds sortedActions
      (PassState.mk [] JsSet.empty JsMap.empty JsMap.empty) in
  PassResult.mk (PassState.bindings st) (PassState.actionFingerMap st).

(** [actionMap.get(b.action)?.useFrequency ?? 0]. *)
Definition frequencyOf (actionMap : JsMap.t string Action.t) (name : string) : num :=
  match JsMap.get actionMap name with
  | Some a => Action.useFrequency a
  | None => lit 0
  end.

Definition findDisplacementVictim (concurrentAction : Action.t)
    (bindings : list Binding.t)
    (actionFingerMap : JsMap.t string (list Finger))
    (allActions : list Action.t) : option Binding.t :=
  let blockedFingers :=
    getBlockedFingersForConcurrency concurrentAction actionFingerMap allActions in
  let candidates :=
    filter
      (fun b =>
         match JsMap.get actionFingerMap (Binding.action b) with
         | None => false
         | Some fingers => existsb (fun f => negb (JsSet.has blockedFingers f)) fingers
         end)
      bindings in
  let concurrentNames :=
    JsSet.of_list
      match Action.concurrentWith concurrentAction with
      | Some l => l
      | None => []
      end in
  let evictable :=
    filter (fun b => negb (JsSet.has concurrentNames (Binding.action b)))
      candidates in
  match evictable with
  | [] => None
  | _ :: _ =>
      let actionMap :=
        JsMap.of_entries (map (fun a => (Action.name a, a)) allActions) in
      hd_error
        (Array_sort
           (fun a b =>
              (frequencyOf actionMap (Binding.action a)
               - frequencyOf actionMap (Binding.action b))%num)
           evictable)
  end.

(** [a.concurrentWith && a.concurrentWith.length > 0]. *)
Definition hasConcurrentWith (a : Action.t) : bool :=
  match Action.concurrentWith a with
  | Some (_ :: _) => true
  | _ => false
  end.

(** Allocates actions to keys: a first pass, and a second one when
    concurrent actions were left without a key. *)
Definition allocate (actions : list Action.t) (scoredKeys : list ScoredKey.t)
    (fingerConfig : FingerConfigMap) (movementConfig : MovementConfig.t)
    (availableFingers : JsSet.t Finger) (lockedBinds : LockedBinds)
    : list Binding.t :=
  let firstPassResult :=
    allocatePass actions scoredKeys fingerConfig movementConfig
      availableFingers lockedBinds in
  let assignedNames :=
    JsSet.of_list (map Binding.action (PassResult.bindings firstPassResult)) in
  let unassignedConcurrent :=
    filter
      (fun a => negb (JsSet.has assignedNames (Action.name a)) && hasConcurrentWith a)
      actions in
  match unassignedConcurrent with
  | [] => PassResult.bindings firstPassResult
  | _ :: _ =>
      let newLocks :=
        fold_left
          (fun newLocks action =>
             match
               findDisplacementVictim action
                 (PassResult.bindings firstPassResult)
                 (PassResult.actionFingerMap firstPassResult) actions
             with
             | Some victim => JsMap.set newLocks (Action.name action) (Binding.key victim)
             | None => newLocks
             end)
          unassignedConcurrent lockedBinds in
      PassResult.bindings
        (allocatePass actions scoredKeys fingerConfig movementConfig
           availableFingers newLocks)
  end.
End Allocator.

(* ================================================================= *)
(** ** [CostFunction.ts] *)

Module FrictionContext.
Record t {N : JsNumber} : Type := mk {
  actions : list Action.t;
  scoredKeys : list ScoredKey.t;
  fingerConfig : FingerConfigMap;
  movementConfig : MovementConfig.t;
  keyToFinger : JsMap.t string Finger;
  keyToDistance : JsMap.t string num;
  movementKeySet : JsSet.t string;
  movementActionToKey : JsMap.t string string;
  fingerExclusiveKeys : JsMap.t Finger (JsSet.t string)
}.
Arguments mk {N}.
End FrictionContext.

Section CostFunction.
Context {N : JsNumber}.

(** Map movement action names to their designated keys (the loop
    shared by [buildFrictionContext] and [buildMovementActionMap]). *)
Definition movementActionEntry (config : MovementConfig.t)
    (m : JsMap.t string string) (action : Action.t) : JsMap.t string string :=
  if negb (ActionType_eqb (Action.type action) DIRECTIONAL) then m
  else
    let name := toLowerCase (Action.name action) in
    if includes name "forward" then
      JsMap.set m (Action.name action)
        (AxisConfig.positiveKey (MovementConfig.verticalAxis config))
    else if includes name "backward" then
      JsMap.set m (Action.name action)
        (AxisConfig.negativeKey (MovementConfig.verticalAxis config))
    else if includes name "left" then
      JsMap.set m (Action.name action)
        (AxisConfig.negativeKey (MovementConfig.horizontalAxis config))
    else if includes name "right" then
      JsMap.set m (Action.name action)
        (AxisConfig.positiveKey (MovementConfig.horizontalAxis config))
    else m.

Definition buildMovementActionMap (actions : list Action.t)
    (config : MovementConfig.t) : JsMap.t string string :=
  fold_left (movementActionEntry config) actions JsMap.empty.

Definition buildExclusiveFingerSet (config : MovementConfig.t) : JsSet.t Finger :=
  let exclusive := JsSet.empty in
  let exclusive :=
    if AxisConfig.isExclusive (MovementConfig.verticalAxis config)
    then fold_left JsSet.add
           (AxisConfig.fingers (MovementConfig.verticalAxis config)) exclusive
    else exclusive in
  if AxisConfig.isExclusive (MovementConfig.horizontalAxis config)
  then fold_left JsSet.add
         (AxisConfig.fingers (MovementConfig.horizontalAxis config)) exclusive
  else exclusive.

(** Pre-compute lookups for fast friction calculation. *)
Definition buildFrictionContext (actions : list Action.t)
    (scoredKeys : list ScoredKey.t) (fingerConfig : FingerConfigMap)
    (movementConfig : MovementConfig.t) : FrictionContext.t :=
  let keyToFinger :=
    fold_left (fun m sk => JsMap.set m (ScoredKey.code sk) (ScoredKey.bestFinger sk))
      scoredKeys JsMap.empty in
  let keyToDistance :=
    fold_left (fun m sk => JsMap.set m (ScoredKey.code sk) (ScoredKey.totalScore sk))
      scoredKeys JsMap.empty in
  let movementKeySet :=
    JsSet.of_list
      [ AxisConfig.positiveKey (MovementConfig.verticalAxis movementConfig);
        AxisConfig.negativeKey (MovementConfig.verticalAxis movementConfig);
        AxisConfig.positiveKey (MovementConfig.horizontalAxis movementConfig);
        AxisConfig.negativeKey (MovementConfig.horizontalAxis movementConfig) ] in
  let movementActionToKey :=
    fold_left (movementActionEntry movementConfig) actions JsMap.empty in
  let fingerExclusiveKeys :=
    fold_left
      (fun m (e : Finger * FingerConfig.t) =>
         match FingerConfig.exclusiveKeys (snd e) with
         | Some (k :: ks) => JsMap.set m (fst e) (JsSet.of_list (k :: ks))
         | _ => m
         end)
      fingerConfig JsMap.empty in
  FrictionContext.mk actions scoredKeys fingerConfig movementConfig
    keyToFinger keyToDistance movementKeySet movementActionToKey
    fingerExclusiveKeys.

Definition buildActionMap (actions : list Action.t) : JsMap.t string Action.t :=
  JsMap.of_entries (map (fun a => (Action.name a, a)) actions).

(** [if (c) score += p]. *)
Definition addIf (c : bool) (p score : num) : num :=
  if c then (score + p)%num else score.

Definition isDirectional (action : Action.t) : bool :=
  ActionType_eqb (Action.type action) DIRECTIONAL.

(** Rule 1: a [DIRECTIONAL] action off its correct key. *)
Definition wrongMovementKey (ctx : FrictionContext.t) (action : Action.t)
    (actionName keyCode : string) : bool :=
  isDirectional action &&
  match JsMap.get (FrictionContext.movementActionToKey ctx) actionName with
  | Some correctKey =>
      negb (String.eqb correctKey EmptyString)
      && negb (String.eqb keyCode correctKey)
  | None => false
  end.

(** Rule 3, for a key that has a finger. *)
Definition exclusiveKeyTerms (ctx : FrictionContext.t) (finger : Finger)
    (keyCode : string) (score : num) : num :=
  let score :=
    match JsMap.get (FrictionContext.fingerExclusiveKeys ctx) finger with
    | Some fingerExclusive =>
        addIf (negb (JsSet.has fingerExclusive keyCode)) (lit 200000) score
    | None => score
    end in
  fold_left
    (fun score (e : Finger * JsSet.t string) =>
       addIf (negb (Finger_eqb (fst e) finger) && JsSet.has (snd e) keyCode)
         (lit 200000) score)
    (FrictionContext.fingerExclusiveKeys ctx) score.

(** Rule 7: one penalty per concurrent action on the same finger. *)
Definition concurrencyTerms (layout : Layout) (ctx : FrictionContext.t)
    (penalties : PenaltyConfig.t) (finger : option Finger)
    (names : list string) (score : num) : num :=
  fold_left
    (fun score otherName =>
       match JsMap.get layout otherName with
       | Some otherKey =>
           if String.eqb otherKey EmptyString then score
           else
             match finger, JsMap.get (FrictionContext.keyToFinger ctx) otherKey with
             | Some f, Some otherFinger =>
                 addIf (Finger_eqb f otherFinger)
                   (PenaltyConfig.concurrencyPenalty penalties) score
             | _, _ => score
             end
       | None => score
       end)
    names score.

(** The body of the loop over the layout, for one entry. *)
Definition frictionOfEntry (layout : Layout) (ctx : FrictionContext.t)
    (penalties : PenaltyConfig.t) (actionMap : JsMap.t string Action.t)
    (exclusiveFingers : JsSet.t Finger) (score : num)
    (entry : string * string) : num :=
  let '(actionName, keyCode) := entry in
  match JsMap.get actionMap actionName with
  | None => score
  | Some action =>
      let finger := JsMap.get (FrictionContext.keyToFinger ctx) keyCode in
      let distance :=
        match JsMap.get (FrictionContext.keyToDistance ctx) keyCode with
        | Some d => d
        | None => lit 100
        end in
      let score :=
        addIf (wrongMovementKey ctx action actionName keyCode) (lit 1000000) score in
      let score :=
        addIf (negb (isDirectional action)
               && JsSet.has (FrictionContext.movementKeySet ctx) keyCode)
          (lit 500000) score in
      let score :=
        match finger with
        | Some f => exclusiveKeyTerms ctx f keyCode score
        | None => score
        end in
      let score :=
        (score + distance * Action.useFrequency action
                 * PenaltyConfig.frequencyWeight penalties)%num in
      let score := (score + distance * PenaltyConfig.distanceWeight penalties)%num in
      let score :=
        match finger with
        | Some f =>
            addIf (JsSet.has exclusiveFingers f && negb (isDirectional action))
              (PenaltyConfig.exclusiveViolation penalties) score
        | None => score
        end in
      let score :=
        match finger with
        | Some f =>
            match JsMap.get (FrictionContext.fingerConfig ctx) f with
            | Some config =>
                addIf (distance >? FingerConfig.reach config)%num
                  (PenaltyConfig.unreachablePenalty penalties) score
            | None => score
            end
        | None => score
        end in
      match Action.concurrentWith action with
      | Some names => concurrencyTerms layout ctx penalties finger names score
      | None => score
      end
  end.

(** The loop shared by [calculateLoadImbalance] and [calculateFingerLoads]. *)
Definition fingerLoadsOf (layout : Layout) (ctx : FrictionContext.t)
    (actionMap : JsMap.t string Action.t) : JsMap.t Finger num :=
  fold_left
    (fun (loads : JsMap.t Finger num) (entry : string * string) =>
       match JsMap.get actionMap (fst entry),
             JsMap.get (FrictionContext.keyToFinger ctx) (snd entry) with
       | Some action, Some finger =>
           let current :=
             match JsMap.get loads finger with
             | Some c => c
             | None => lit 0
             end in
           JsMap.set loads finger (current + Action.useFrequency action)%num
       | _, _ => loads
       end)
    layout JsMap.empty.

(** Penalize uneven finger load distribution. With two loads or more,
    [Math.max(...loads)] is the fold of [nmax] from the first load on. *)
Definition calculateLoadImbalance (layout : Layout) (ctx : FrictionContext.t)
    (actionMap : JsMap.t string Action.t) : num :=
  match JsMap.values (fingerLoadsOf layout ctx actionMap) with
  | first :: second :: others =>
      let max := fold_left nmax (second :: others) first in
      let min := fold_left nmin (second :: others) first in
      ((max - min) * lit (5 # 10))%num
  | _ => lit 0
  end.

(** Calculate total friction score for a layout. Lower = better. *)
Definition calculateFriction (layout : Layout) (ctx : FrictionContext.t)
    (penalties : PenaltyConfig.t) : num :=
  let actionMap := buildActionMap (FrictionContext.actions ctx) in
  let exclusiveFingers := buildExclusiveFingerSet (FrictionContext.movementConfig ctx) in
  let score :=
    fold_left (frictionOfEntry layout ctx penalties actionMap exclusiveFingers)
      layout (lit 0) in
  (score + calculateLoadImbalance layout ctx actionMap)%num.

(** Calculate finger loads from a layout. *)
Definition calculateFingerLoads (layout : Layout) (ctx : FrictionContext.t)
    : JsMap.t Finger num :=
  fingerLoadsOf layout ctx (buildActionMap (FrictionContext.actions ctx)).
End CostFunction.

(* ================================================================= *)
(** ** [SAOptimizer.ts], on binary64 *)

(** The integer part of a finite double (what [ToInt32] starts from);
    [None] for NaN and the infinities. *)
Definition float_trunc (f : float) : option Z :=
  match Prim2SF f with
  | S754_zero _ => Some 0%Z
  | S754_finite s m e =>
      let magnitude :=
        if (0 <=? e)%Z then Z.shiftl (Zpos m) e else Z.shiftr (Zpos m) (- e) in
      Some (if s then (- magnitude)%Z else magnitude)
  | _ => None
  end.

(** [x & 0x7fffffff]: [ToInt32] wraps the integer part modulo 2^32 into
    the signed range, and the mask keeps its low 31 bits. *)
Definition ToInt32 (f : float) : Z :=
  match float_trunc f with
  | Some z =>
      let w := (z mod 2 ^ 32)%Z in
      if (w <? 2 ^ 31)%Z then w else (w - 2 ^ 32)%Z
  | None => 0%Z
  end.

Definition and_0x7fffffff (f : float) : float :=
  float_of_Z (Z.land (ToInt32 f) 0x7fffffff).

(** [Math.floor], as an index; [None] for NaN and the infinities. *)
Definition Math_floor (f : float) : option Z :=
  match Prim2SF f with
  | S754_zero _ => Some 0%Z
  | S754_finite s m e =>
      if (0 <=? e)%Z then
        let magnitude := Z.shiftl (Zpos m) e in
        Some (if s then (- magnitude)%Z else magnitude)
      else
        let magnitude := Z.shiftr (Zpos m) (- e) in
        let exact := (Z.shiftl magnitude (- e) =? Zpos m)%Z in
        Some (if s then (if exact then - magnitude else - magnitude - 1)%Z
              else magnitude)
  | _ => None
  end.

(** [arr[i]]: [undefined] out of range. *)
Definition Array_at {A : Type} (arr : list A) (i : option Z) : option A :=
  match i with
  | Some z => if (z <? 0)%Z then None else nth_error arr (Z.to_nat z)
  | None => None
  end.

Definition Array_length {A : Type} (arr : list A) : float :=
  float_of_Z (Z.of_nat (List.length arr)).

(** Seeded random number generator for reproducibility. *)
Module SeededRandom.
Record t : Type := mk { seed : float }.

(** Each method returns its value and the generator after the call. *)
Definition next (this : t) : float * t :=
  let seed' := and_0x7fffffff (seed this * 1103515245 + 12345)%float in
  ((seed' / 0x7fffffff)%float, mk seed').

Definition pick {A : Type} (this : t) (arr : list A) : option A * t :=
  let '(r, this) := next this in
  (Array_at arr (Math_floor (r * Array_length arr)%float), this).

Definition pickTwo {A : Type} (this : t) (arr : list A)
    : (option A * option A) * t :=
  let '(r1, this) := next this in
  let i := Math_floor (r1 * Array_length arr)%float in
  let '(r2, this) := next this in
  let j := Math_floor (r2 * (Array_length arr - 1))%float in
  let j :=
    match i, j with
    | Some iz, Some jz => if (jz >=? iz)%Z then Some (jz + 1)%Z else Some jz
    | _, _ => j
    end in
  ((Array_at arr i, Array_at arr j), this).
End SeededRandom.

Section SAOptimizer.
Local Existing Instance float_number.

(** [Math.exp], which the primitive floats do not provide. *)
Variable Math_exp : float -> float.

(** The three sets [generateInitialLayout] fills. *)
Record WarmStart : Type := mkWarmStart {
  ws_layout : Layout;
  ws_usedKeys : JsSet.t string;
  ws_usedActions : JsSet.t string
}.

Definition assign (ws : WarmStart) (actionName keyCode : string) : WarmStart :=
  mkWarmStart (JsMap.set (ws_layout ws) actionName keyCode)
    (JsSet.add (ws_usedKeys ws) keyCode)
    (JsSet.add (ws_usedActions ws) actionName).

(** Step 2, the inner loop over one finger's exclusive keys; [break]
    leaves the loop when no action is left. *)
Fixpoint assignExclusiveKeys (nonMovement : list Action.t)
    (exclusiveKeys : list string) (ws : WarmStart) : WarmStart :=
  match exclusiveKeys with
  | [] => ws
  | k :: rest =>
      if JsSet.has (ws_usedKeys ws) k then assignExclusiveKeys nonMovement rest ws
      else
        match
          find (fun a => negb (JsSet.has (ws_usedActions ws) (Action.name a)))
            nonMovement
        with
        | None => ws
        | Some action =>
            assignExclusiveKeys nonMovement rest (assign ws (Action.name action) k)
        end
  end.

(** Step 3, for one remaining action: the first free scored key. The
    action is not added to [usedActions]. *)
Definition assignFirstFree (scoredKeys : list ScoredKey.t) (ws : WarmStart)
    (action : Action.t) : WarmStart :=
  match
    find (fun sk => negb (JsSet.has (ws_usedKeys ws) (ScoredKey.code sk))) scoredKeys
  with
  | Some sk =>
      mkWarmStart (JsMap.set (ws_layout ws) (Action.name action) (ScoredKey.code sk))
        (JsSet.add (ws_usedKeys ws) (ScoredKey.code sk))
        (ws_usedActions ws)
  | None => ws
  end.

(** Generate initial layout with movement keys locked and exclusive
    fingers used. *)
Definition generateInitialLayout (actions : list Action.t)
    (scoredKeys : list ScoredKey.t) (movementConfig : MovementConfig.t)
    (fingerConfig : FingerConfigMap) : Layout :=
  let movementMap := buildMovementActionMap actions movementConfig in
  let ws :=
    fold_left (fun ws (e : string * string) => assign ws (fst e) (snd e))
      movementMap (mkWarmStart JsMap.empty JsSet.empty JsSet.empty) in
  let nonMovement :=
    Array_sort
      (fun a b => (Action.useFrequency b - Action.useFrequency a)%num)
      (filter (fun a => negb (JsSet.has (ws_usedActions ws) (Action.name a)))
         actions) in
  let ws :=
    fold_left
      (fun ws (e : Finger * FingerConfig.t) =>
         match FingerConfig.exclusiveKeys (snd e) with
         | Some (k :: ks) => assignExclusiveKeys nonMovement (k :: ks) ws
         | _ => ws
         end)
      fingerConfig ws in
  let remaining :=
    filter (fun a => negb (JsSet.has (ws_usedActions ws) (Action.name a)))
      nonMovement in
  ws_layout (fold_left (assignFirstFree scoredKeys) remaining ws).

(** Swap keys between two actions; either name may be [undefined]. *)
Definition swap (layout : Layout) (actionA actionB : option string) : Layout :=
  match actionA, actionB with
  | Some a, Some b =>
      match JsMap.get layout a, JsMap.get layout b with
      | Some keyA, Some keyB =>
          if (String.eqb keyA EmptyString || String.eqb keyB EmptyString)%bool
          then layout
          else JsMap.set (JsMap.set layout a keyB) b keyA
      | _, _ => layout
      end
  | _, _ => layout
  end.

(** [key && keyToFinger.get(key) === finger]. *)
Definition onFinger (layout : Layout) (keyToFinger : JsMap.t string Finger)
    (finger : Finger) (a : string) : bool :=
  match JsMap.get layout a with
  | Some k =>
      negb (String.eqb k EmptyString) &&
      match JsMap.get keyToFinger k with
      | Some f => Finger_eqb f finger
      | None => false
      end
  | None => false
  end.

(** The inner loop of the conflict search, over [concurrentWith]:
    [Some] is the [return] inside it. *)
Fixpoint conflictWith (layout : Layout) (keyToFinger : JsMap.t string Finger)
    (rng : SeededRandom.t) (actionNames : list string) (actionName : string)
    (finger : option Finger) (others : list string)
    : option (Layout * SeededRandom.t) :=
  match others with
  | [] => None
  | otherName :: rest =>
      let continue_ :=
        conflictWith layout keyToFinger rng actionNames actionName finger rest in
      match JsMap.get layout otherName with
      | None => continue_
      | Some otherKey =>
          if String.eqb otherKey EmptyString then continue_
          else
            match finger, JsMap.get keyToFinger otherKey with
            | Some f, Some otherFinger =>
                if Finger_eqb f otherFinger then
                  let nonConflict :=
                    filter
                      (fun a => negb (String.eqb a actionName)
                                && negb (String.eqb a otherName))
                      actionNames in
                  match nonConflict with
                  | [] => continue_
                  | _ :: _ =>
                      let '(p, rng') := SeededRandom.pick rng nonConflict in
                      Some (swap layout (Some otherName) p, rng')
                  end
                else continue_
            | _, _ => continue_
            end
      end
  end.

(** The outer loop of the conflict search, over the layout. *)
Fixpoint conflictSwap (layout : Layout) (actionMap : JsMap.t string Action.t)
    (keyToFinger : JsMap.t string Finger) (rng : SeededRandom.t)
    (actionNames : list string) (entries : list (string * string))
    : Layout * SeededRandom.t :=
  match entries with
  | [] => (layout, rng)
  | (actionName, k) :: rest =>
      let continue_ :=
        conflictSwap layout actionMap keyToFinger rng actionNames rest in
      match JsMap.get actionMap actionName with
      | None => continue_
      | Some action =>
          match Action.concurrentWith action with
          | None => continue_
          | Some others =>
              match
                conflictWith layout keyToFinger rng actionNames actionName
                  (JsMap.get keyToFinger k) others
              with
              | Some r => r
              | None => continue_
              end
          end
      end
  end.

(** Mutate layout using one of three strategies. *)
Definition mutate (layout : Layout) (fingerLoads : JsMap.t Finger num)
    (actions : list Action.t) (keyToFinger : JsMap.t string Finger)
    (rng : SeededRandom.t) : Layout * SeededRandom.t :=
  let actionNames := JsMap.keys layout in
  let '(roll, rng) := SeededRandom.next rng in
  let conflict rng :=
    conflictSwap layout (buildActionMap actions) keyToFinger rng actionNames layout in
  if (roll <? lit (7 # 10))%num then
    let '((a, b), rng) := SeededRandom.pickTwo rng actionNames in
    (swap layout a b, rng)
  else if (roll <? lit (9 # 10))%num then
    let sorted :=
      Array_sort (fun a b : Finger * num => (snd b - snd a)%num) fingerLoads in
    match sorted, rev sorted with
    | (highFinger, _) :: _ :: _, (lowFinger, _) :: _ =>
        let highActions := filter (onFinger layout keyToFinger highFinger) actionNames in
        let lowActions := filter (onFinger layout keyToFinger lowFinger) actionNames in
        match highActions, lowActions with
        | _ :: _, _ :: _ =>
            let '(h, rng) := SeededRandom.pick rng highActions in
            let '(l, rng) := SeededRandom.pick rng lowActions in
            (swap layout h l, rng)
        | _, _ => conflict rng
        end
    | _, _ => (layout, rng)
    end
  else conflict rng.

(** The variables of the annealing loop. *)
Record SAState : Type := mkSAState {
  sa_current : Layout;
  sa_currentScore : float;
  sa_best : Layout;
  sa_bestScore : float;
  sa_temp : float;
  sa_rng : SeededRandom.t
}.

(** One turn of the [while] loop. *)
Definition saStep (actions : list Action.t) (ctx : FrictionContext.t)
    (penalties : PenaltyConfig.t) (options : SAOptions.t) (st : SAState)
    : SAState :=
  let fingerLoads := calculateFingerLoads (sa_current st) ctx in
  let '(neighbor, rng) :=
    mutate (sa_current st) fingerLoads actions
      (FrictionContext.keyToFinger ctx) (sa_rng st) in
  let neighborScore := calculateFriction neighbor ctx penalties in
  let delta := (neighborScore - sa_currentScore st)%float in
  let '(accept, rng) :=
    if (delta <? 0)%float then (true, rng)
    else
      let '(r, rng) := SeededRandom.next rng in
      ((r <? Math_exp (- delta / sa_temp st))%float, rng) in
  let temp := (sa_temp st * SAOptions.coolingRate options)%float in
  if accept then
    if (neighborScore <? sa_bestScore st)%float
    then mkSAState neighbor neighborScore neighbor neighborScore temp rng
    else mkSAState neighbor neighborScore (sa_best st) (sa_bestScore st) temp rng
  else
    mkSAState (sa_current st) (sa_currentScore st) (sa_best st) (sa_bestScore st)
      temp rng.

(** The [while (temp > options.minTemp)] loop; [None] when [fuel] turns
    do not end it. *)
Fixpoint saLoop (fuel : nat) (actions : list Action.t) (ctx : FrictionContext.t)
    (penalties : PenaltyConfig.t) (options : SAOptions.t) (st : SAState)
    : option SAState :=
  if (sa_temp st >? SAOptions.minTemp options)%num then
    match fuel with
    | O => None
    | S fuel' =>
        saLoop fuel' actions ctx penalties options
          (saStep actions ctx penalties options st)
    end
  else Some st.

(** Simulated Annealing optimizer. [now] is what [Date.now()] returns,
    read when the options carry no seed. *)
Definition optimizeSA_run (now : float) (fuel : nat) (actions : list Action.t)
    (scoredKeys : list ScoredKey.t) (fingerConfig : FingerConfigMap)
    (movementConfig : MovementConfig.t) (penalties : PenaltyConfig.t)
    (options : SAOptions.t) : option SAState :=
  let ctx := buildFrictionContext actions scoredKeys fingerConfig movementConfig in
  let rng :=
    SeededRandom.mk
      match SAOptions.seed options with
      | Some s => s
      | None => now
      end in
  let current := generateInitialLayout actions scoredKeys movementConfig fingerConfig in
  let currentScore := calculateFriction current ctx penalties in
  saLoop fuel actions ctx penalties options
    (mkSAState current currentScore current currentScore
       (SAOptions.initialTemp options) rng).

Definition optimizeSA (now : float) (fuel : nat) (actions : list Action.t)
    (scoredKeys : list ScoredKey.t) (fingerConfig : FingerConfigMap)
    (movementConfig : MovementConfig.t) (penalties : PenaltyConfig.t)
    (options : SAOptions.t) : option Layout :=
  option_map sa_best
    (optimizeSA_run now fuel actions scoredKeys fingerConfig movementConfig
       penalties options).

(** Convert Layout to Binding array for output. *)
Definition layoutToBindings (layout : Layout) : list Binding.t :=
  map (fun e : string * string => Binding.mk (fst e) (snd e)) layout.
End SAOptimizer.

(* ================================================================= *)
(** * Properties *)

(** ** Arrays, sets and maps *)

Lemma keqb_refl {K} `{KeyEq K} (a : K) : keqb a a = true.
Proof. now apply keqb_eq. Qed.

Lemma Array_includes_In {K} `{KeyEq K} (arr : list K) (x : K) :
  Array_includes arr x = true <-> In x arr.
Proof.
  unfold Array_includes. rewrite existsb_exists. split.
  - intros [y [Hy E]]. apply keqb_eq in E. now subst.
  - intros Hx. exists x. split; [assumption | apply keqb_refl].
Qed.

Lemma ActionType_eqb_eq (a b : ActionType) : ActionType_eqb a b = true <-> a = b.
Proof. destruct a, b; simpl; split; intros E; try reflexivity; discriminate. Qed.

Section ArraySortFacts.
Context {N : JsNumber} {A : Type}.
Variable cmp : A -> A -> num.

Lemma sort_insert_perm (x : A) (l : list A) :
  Permutation (sort_insert cmp x l) (x :: l).
Proof.
  induction l as [|y l IH]; simpl.
  - apply Permutation_refl.
  - destruct (cmp x y >? lit 0)%num.
    + eapply perm_trans; [apply perm_skip, IH | apply perm_swap].
    + apply Permutation_refl.
Qed.

Lemma Array_sort_perm (l : list A) : Permutation (Array_sort cmp l) l.
Proof.
  induction l as [|x l IH]; simpl.
  - apply perm_nil.
  - eapply perm_trans; [apply sort_insert_perm | apply perm_skip, IH].
Qed.

Lemma Array_sort_In (l : list A) (x : A) : In x (Array_sort cmp l) <-> In x l.
Proof.
  split; apply Permutation_in;
    [apply Array_sort_perm | apply Permutation_sym, Array_sort_perm].
Qed.
End ArraySortFacts.

Section JsSetFacts.
Context {K : Type} `{KeyEq K}.

Lemma JsSet_has_In (s : JsSet.t K) (k : K) : JsSet.has s k = true <-> In k s.
Proof. apply Array_includes_In. Qed.

Lemma JsSet_has_false (s : JsSet.t K) (k : K) :
  JsSet.has s k = false <-> ~ In k s.
Proof.
  rewrite <- JsSet_has_In. destruct (JsSet.has s k); split; intros E;
    solve [congruence | reflexivity | exfalso; now apply E].
Qed.

Lemma JsSet_add_In (s : JsSet.t K) (k k' : K) :
  In k' (JsSet.add s k) <-> k' = k \/ In k' s.
Proof.
  unfold JsSet.add. destruct (JsSet.has s k) eqn:E.
  - apply JsSet_has_In in E. split; [tauto|]. intros [->|]; assumption.
  - rewrite in_app_iff. simpl. split; intros; intuition auto.
Qed.

Lemma JsSet_fold_add_In (l : list K) (s : JsSet.t K) (k : K) :
  In k (fold_left JsSet.add l s) <-> In k l \/ In k s.
Proof.
  revert s. induction l as [|x l IH]; intros s; simpl.
  - tauto.
  - rewrite IH, JsSet_add_In. split; intros; intuition auto.
Qed.

Lemma JsSet_of_list_In (l : list K) (k : K) : In k (JsSet.of_list l) <-> In k l.
Proof.
  unfold JsSet.of_list. rewrite JsSet_fold_add_In. simpl. tauto.
Qed.

End JsSetFacts.

Section JsMapFacts.
Context {K V : Type} `{KeyEq K}.

Lemma JsMap_get_In (m : JsMap.t K V) (k : K) (v : V) :
  JsMap.get m k = Some v -> In (k, v) m.
Proof.
  induction m as [|[k' v'] m IH]; simpl; [discriminate|].
  destruct (keqb k' k) eqn:E.
  - apply keqb_eq in E. intros [= ->]. subst. now left.
  - intros Hg. right. now apply IH.
Qed.


Lemma JsMap_get_set (m : JsMap.t K V) (k k' : K) (v : V) :
  JsMap.get (JsMap.set m k v) k' =
  if keqb k k' then Some v else JsMap.get m k'.
Proof.
  induction m as [|[k0 v0] m IH]; simpl.
  - reflexivity.
  - destruct (keqb k0 k) eqn:E0; simpl.
    + apply keqb_eq in E0. subst k0.
      destruct (keqb k k'); reflexivity.
    + destruct (keqb k0 k') eqn:E1.
      * destruct (keqb k k') eqn:E2; [|reflexivity].
        apply keqb_eq in E1, E2. subst. now rewrite keqb_refl in E0.
      * apply IH.
Qed.

Lemma JsMap_set_keys_has (m : JsMap.t K V) (k : K) (v : V) :
  JsMap.get m k <> None -> JsMap.keys (JsMap.set m k v) = JsMap.keys m.
Proof.
  induction m as [|[k0 v0] m IH]; simpl; [congruence|].
  destruct (keqb k0 k) eqn:E; simpl; [reflexivity|].
  intros Hg. f_equal. now apply IH.
Qed.

Lemma JsMap_set_same (m : JsMap.t K V) (k : K) (v : V) :
  JsMap.get m k = Some v -> JsMap.set m k v = m.
Proof.
  induction m as [|[k0 v0] m IH]; simpl; [discriminate|].
  destruct (keqb k0 k) eqn:E.
  - now intros [= ->].
  - intros Hg. f_equal. now apply IH.
Qed.

(** Overwriting the value of a present key exchanges one value. *)
Lemma JsMap_set_values_perm (m : JsMap.t K V) (k : K) (old new : V) :
  JsMap.get m k = Some old ->
  Permutation (old :: JsMap.values (JsMap.set m k new)) (new :: JsMap.values m).
Proof.
  induction m as [|[k0 v0] m IH]; simpl; [discriminate|].
  destruct (keqb k0 k) eqn:E; simpl.
  - intros [= ->]. apply perm_swap.
  - intros Hg. eapply perm_trans; [apply perm_swap|].
    eapply perm_trans; [apply perm_skip, IH, Hg|]. apply perm_swap.
Qed.

(** The values of a map after [set]: the new one, and old ones. *)
Lemma JsMap_set_values_In (m : JsMap.t K V) (k : K) (v x : V) :
  In x (JsMap.values (JsMap.set m k v)) -> x = v \/ In x (JsMap.values m).
Proof.
  induction m as [|[k0 v0] m IH]; simpl.
  - intros [<-|[]]. now left.
  - destruct (keqb k0 k); simpl.
    + intros [<-|Hx]; [now left | right; now right].
    + intros [<-|Hx]; [right; now left|].
      destruct (IH Hx); [now left | right; now right].
Qed.

Lemma JsMap_set_values_NoDup (m : JsMap.t K V) (k : K) (v : V) :
  NoDup (JsMap.values m) -> ~ In v (JsMap.values m) ->
  NoDup (JsMap.values (JsMap.set m k v)).
Proof.
  induction m as [|[k0 v0] m IH]; simpl; intros Hnd Hv.
  - repeat constructor. simpl. tauto.
  - inversion Hnd as [|? ? Hv0 Hm]; subst.
    destruct (keqb k0 k); simpl.
    + constructor; [tauto | assumption].
    + constructor.
      * intros Hin. apply JsMap_set_values_In in Hin. destruct Hin; [subst|]; tauto.
      * apply IH; tauto.
Qed.
End JsMapFacts.

(** The tests of [Optimizer.test.ts] on distances and scores, on binary64. *)
Example getDistance_KeyF_KeyG :
  getDistance (N := float_number) Optimizer_new "KeyF" "KeyG" = 4%float
  /\ getDistance (N := float_number) Optimizer_new "KeyF" "KeyF" = 0%float
  /\ getDistance (N := float_number) Optimizer_new "MouseLeft" "MouseRight" = 8%float
  /\ getDistance (N := float_number) Optimizer_new "KeyF" "Nope" = (-1)%float.
Proof. vm_compute. repeat split. Qed.

Example getNearbyKeys_KeyF :
  map Neighbor.key (getNearbyKeys (N := float_number) Optimizer_new "KeyF" 5%float)
  = ["KeyD"; "KeyC"; "KeyR"; "KeyV"; "KeyT"; "KeyG"]%string.
Proof. vm_compute. reflexivity. Qed.

(** ** The greedy allocator *)

Section AllocatorFacts.
Context {N : JsNumber} {NI : JsInfinity N}.
Variable actions : list Action.t.
Variable scoredKeys : list ScoredKey.t.
Variable fingerConfig : FingerConfigMap.
Variable movementConfig : MovementConfig.t.
Variable availableFingers : JsSet.t Finger.
Variable lockedBinds : LockedBinds.

(** The two configured keys of an axis. *)
Definition axisKeys (axis : AxisConfig.t) : list string :=
  [AxisConfig.positiveKey axis; AxisConfig.negativeKey axis].

(** How the pass arrives at the binding [b] of the action [a] when the
    keys [bound] are taken: through its lock, as a [DIRECTIONAL] action
    on a free key of its axis, or as any other action on a free key
    that is neither locked nor a movement key. *)
Definition producedBy (a : Action.t) (bound : JsSet.t string) (b : Binding.t)
    : Prop :=
  Binding.action b = Action.name a /\
  (lockedKeyOf lockedBinds (Action.name a) = Some (Binding.key b)
   \/ (lockedKeyOf lockedBinds (Action.name a) = None
       /\ Action.type a = DIRECTIONAL
       /\ (exists axis, findAxisForAction a movementConfig = Some axis
                        /\ In (Binding.key b) (axisKeys axis))
       /\ ~ In (Binding.key b) bound)
   \/ (lockedKeyOf lockedBinds (Action.name a) = None
       /\ Action.type a <> DIRECTIONAL
       /\ ~ In (Binding.key b) bound
       /\ ~ In (Binding.key b) (JsMap.values lockedBinds)
       /\ ~ In (Binding.key b) (buildMovementKeySet movementConfig))).

Lemma isCandidate_keys (k : ScoredKey.t) (boundKeys lockedKeySet movementKeys : JsSet.t string)
    (movementFingers available blocked : JsSet.t Finger) :
  isCandidate k boundKeys lockedKeySet movementKeys movementFingers available blocked = true ->
  ~ In (ScoredKey.code k) boundKeys
  /\ ~ In (ScoredKey.code k) lockedKeySet
  /\ ~ In (ScoredKey.code k) movementKeys.
Proof.
  unfold isCandidate. rewrite !andb_true_iff, !negb_true_iff.
  intros [[[[[Hb Hl] Hm] _] _] _].
  repeat split; now apply JsSet_has_false.
Qed.

Lemma bestKeyLoop_candidate (action : Action.t) (keys : list ScoredKey.t)
    (boundKeys lockedKeySet : JsSet.t string) (fingerLoad : FingerLoad)
    (movementKeys : JsSet.t string)
    (movementFingers blocked : JsSet.t Finger)
    (best : option ScoredKey.t) (minimumScore : num) (k : ScoredKey.t) :
  bestKeyLoop action keys boundKeys lockedKeySet fingerLoad fingerConfig
    movementKeys movementFingers availableFingers blocked best minimumScore
  = Some k ->
  best = Some k
  \/ isCandidate k boundKeys lockedKeySet movementKeys movementFingers
       availableFingers blocked = true.
Proof.
  revert best minimumScore.
  induction keys as [|sk keys IH]; intros best minimumScore; simpl.
  - intros ->. now left.
  - destruct (isCandidate sk boundKeys lockedKeySet movementKeys movementFingers
                availableFingers blocked) eqn:Hc; simpl; [|apply IH].
    destruct (JsMap.get fingerConfig (ScoredKey.bestFinger sk)); [|apply IH].
    destruct (_ >? _)%num; [apply IH|].
    destruct (_ >=? _)%num; [apply IH|].
    intros Hr. apply IH in Hr. destruct Hr as [[= <-]|Hr]; right; assumption.
Qed.

Lemma allocateMovementAction_some (a : Action.t) (boundKeys : JsSet.t string)
    (fingerLoad fingerLoad' : FingerLoad) (r : Allocation.t) :
  allocateMovementAction a scoredKeys boundKeys movementConfig fingerLoad
  = (Some r, fingerLoad') ->
  Binding.action (Allocation.binding r) = Action.name a
  /\ (exists axis, findAxisForAction a movementConfig = Some axis
                   /\ In (Binding.key (Allocation.binding r)) (axisKeys axis))
  /\ ~ In (Binding.key (Allocation.binding r)) boundKeys.
Proof.
  unfold allocateMovementAction.
  destruct (findAxisForAction a movementConfig) as [axis|]; [|discriminate].
  destruct (find _ scoredKeys) as [bestKey|] eqn:Hf; [|discriminate].
  intros [= <- _]. simpl.
  apply find_some in Hf. destruct Hf as [_ Hf].
  apply andb_true_iff in Hf. destruct Hf as [Ht Hb].
  apply Array_includes_In in Ht. apply negb_true_iff, JsSet_has_false in Hb.
  split; [reflexivity|]. split; [|assumption].
  exists axis. split; [reflexivity | exact Ht].
Qed.

Lemma allocateNonMovementAction_some (a : Action.t)
    (boundKeys lockedKeySet movementKeys : JsSet.t string)
    (fingerLoad fingerLoad' : FingerLoad) (movementFingers : JsSet.t Finger)
    (afm : JsMap.t string (list Finger)) (r : Allocation.t) :
  allocateNonMovementAction a scoredKeys boundKeys lockedKeySet fingerLoad
    fingerConfig movementKeys movementFingers availableFingers afm actions
  = (Some r, fingerLoad') ->
  Binding.action (Allocation.binding r) = Action.name a
  /\ ~ In (Binding.key (Allocation.binding r)) boundKeys
  /\ ~ In (Binding.key (Allocation.binding r)) lockedKeySet
  /\ ~ In (Binding.key (Allocation.binding r)) movementKeys.
Proof.
  unfold allocateNonMovementAction.
  destruct (bestKeyLoop _ _ _ _ _ _ _ _ _ _ _ _) as [bestKey|] eqn:Hl; [|discriminate].
  intros [= <- _]. simpl.
  apply bestKeyLoop_candidate in Hl. destruct Hl as [Hl|Hl]; [discriminate|].
  split; [reflexivity|]. now apply isCandidate_keys in Hl.
Qed.

Lemma allocateActionWithLoad_some (a : Action.t) (st : PassState.t)
    (fingerLoad' : FingerLoad) (r : Allocation.t) :
  allocateActionWithLoad a scoredKeys (PassState.boundKeys st) lockedBinds
    (JsSet.of_list (JsMap.values lockedBinds)) (PassState.fingerLoad st)
    fingerConfig movementConfig (buildMovementKeySet movementConfig)
    (buildExclusiveMovementFingers movementConfig) availableFingers
    (PassState.actionFingerMap st) actions
  = (Some r, fingerLoad') ->
  producedBy a (PassState.boundKeys st) (Allocation.binding r).
Proof.
  unfold allocateActionWithLoad, producedBy.
  destruct (lockedKeyOf lockedBinds (Action.name a)) as [lockedKey|] eqn:Hlock.
  - intros [= <- _]. simpl. split; [reflexivity|]. now left.
  - destruct (ActionType_eqb (Action.type a) DIRECTIONAL) eqn:Ht.
    + apply ActionType_eqb_eq in Ht. intros Hr.
      apply allocateMovementAction_some in Hr. destruct Hr as [Hn [Hax Hb]].
      split; [assumption|]. right; left. repeat split; assumption.
    + intros Hr. apply allocateNonMovementAction_some in Hr.
      destruct Hr as [Hn [Hb [Hl Hm]]].
      split; [assumption|]. right; right.
      split; [reflexivity|]. split.
      { intros E. apply ActionType_eqb_eq in E. congruence. }
      split; [assumption|]. split; [|assumption].
      intros Hin. apply Hl. now apply JsSet_of_list_In.
Qed.

(** A locked action is always allocated, on its locked key. *)
Lemma allocateActionWithLoad_locked (a : Action.t) (st : PassState.t)
    (lockedKey : string) :
  lockedKeyOf lockedBinds (Action.name a) = Some lockedKey ->
  exists fingers fingerLoad',
    allocateActionWithLoad a scoredKeys (PassState.boundKeys st) lockedBinds
      (JsSet.of_list (JsMap.values lockedBinds)) (PassState.fingerLoad st)
      fingerConfig movementConfig (buildMovementKeySet movementConfig)
      (buildExclusiveMovementFingers movementConfig) availableFingers
      (PassState.actionFingerMap st) actions
    = (Some (Allocation.mk (Binding.mk (Action.name a) lockedKey) fingers),
       fingerLoad').
Proof.
  intros Hlock. unfold allocateActionWithLoad. rewrite Hlock.
  eexists. eexists. reflexivity.
Qed.

#[warnings="-notation-for-abbreviation"]
Notation step :=
  (passStep actions scoredKeys fingerConfig movementConfig availableFingers
     lockedBinds).
#[warnings="-notation-for-abbreviation"]
Notation loop :=
  (passLoop actions scoredKeys fingerConfig movementConfig availableFingers
     lockedBinds).

(** A turn of the loop adds no binding, or the one binding produced
    for its action. *)
Lemma passStep_cases (st : PassState.t) (a : Action.t) :
  (PassState.bindings (step st a) = PassState.bindings st
   /\ PassState.boundKeys (step st a) = PassState.boundKeys st)
  \/ exists b,
       PassState.bindings (step st a) = PassState.bindings st ++ [b]
       /\ PassState.boundKeys (step st a)
          = JsSet.add (PassState.boundKeys st) (Binding.key b)
       /\ producedBy a (PassState.boundKeys st) b.
Proof.
  unfold passStep.
  destruct (allocateActionWithLoad _ _ _ _ _ _ _ _ _ _ _ _ _) as [[r|] fl] eqn:Hr; simpl.
  - right. exists (Allocation.binding r).
    split; [reflexivity|]. split; [reflexivity|].
    now apply allocateActionWithLoad_some in Hr.
  - left. split; reflexivity.
Qed.

Lemma passStep_locked (st : PassState.t) (a : Action.t) (lockedKey : string) :
  lockedKeyOf lockedBinds (Action.name a) = Some lockedKey ->
  PassState.bindings (step st a)
  = PassState.bindings st ++ [Binding.mk (Action.name a) lockedKey].
Proof.
  intros Hlock. unfold passStep.
  destruct (allocateActionWithLoad_locked a st Hlock) as [fs [fl ->]].
  reflexivity.
Qed.

Lemma passStep_bindings_incl (st : PassState.t) (a : Action.t) (b : Binding.t) :
  In b (PassState.bindings st) -> In b (PassState.bindings (step st a)).
Proof.
  intros Hb. destruct (passStep_cases st a) as [[-> _]|[b' [-> _]]];
    [assumption | apply in_or_app; now left].
Qed.

Lemma passLoop_bindings_incl (todo : list Action.t) (st : PassState.t)
    (b : Binding.t) :
  In b (PassState.bindings st) -> In b (PassState.bindings (loop todo st)).
Proof.
  revert st. induction todo as [|a todo IH]; intros st Hb; simpl.
  - assumption.
  - apply IH. now apply passStep_bindings_incl.
Qed.

(** Every binding of the pass was produced for one of the actions. *)
Lemma passLoop_origin (todo : list Action.t) (st : PassState.t) (b : Binding.t) :
  In b (PassState.bindings (loop todo st)) ->
  In b (PassState.bindings st)
  \/ exists a bound, In a todo /\ producedBy a bound b.
Proof.
  revert st. induction todo as [|a todo IH]; intros st; simpl.
  - now left.
  - intros Hb. apply IH in Hb. destruct Hb as [Hb|[a' [bound [Ha' Hp]]]].
    + destruct (passStep_cases st a) as [[E _]|[b' [E [_ Hp]]]]; rewrite E in Hb.
      * now left.
      * apply in_app_or in Hb. destruct Hb as [Hb|[<-|[]]]; [now left|].
        right. exists a, (PassState.boundKeys st). split; [now left | assumption].
    + right. exists a', bound. split; [now right | assumption].
Qed.






(** A locked action of the list is in the result, on its key. *)
Lemma passLoop_locked (todo : list Action.t) (st : PassState.t) (a : Action.t)
    (lockedKey : string) :
  In a todo ->
  lockedKeyOf lockedBinds (Action.name a) = Some lockedKey ->
  In (Binding.mk (Action.name a) lockedKey) (PassState.bindings (loop todo st)).
Proof.
  revert st. induction todo as [|a' todo IH]; intros st Ha Hlock; simpl.
  - contradiction.
  - destruct Ha as [->|Ha].
    + apply passLoop_bindings_incl. rewrite (passStep_locked st a Hlock).
      apply in_or_app. right. now left.
    + now apply IH.
Qed.
End AllocatorFacts.

Section AllocatePassClaims.
Context {N : JsNumber} {NI : JsInfinity N}.
Variable actions : list Action.t.
Variable scoredKeys : list ScoredKey.t.
Variable fingerConfig : FingerConfigMap.
Variable movementConfig : MovementConfig.t.
Variable availableFingers : JsSet.t Finger.

Lemma lockedKeyOf_get (lockedBinds : LockedBinds) (name k : string) :
  lockedKeyOf lockedBinds name = Some k
  <-> JsMap.get lockedBinds name = Some k /\ k <> EmptyString.
Proof.
  unfold lockedKeyOf. destruct (JsMap.get lockedBinds name) as [k'|].
  - destruct (String.eqb k' EmptyString) eqn:E.
    + apply String.eqb_eq in E. subst. split; [discriminate|].
      intros [[= <-] Hne]. contradiction.
    + apply String.eqb_neq in E. split.
      * intros [= <-]. now split.
      * now intros [[= <-] _].
  - split; [discriminate | now intros [? _]].
Qed.

Lemma allocatePass_bindings_origin (lockedBinds : LockedBinds) (b : Binding.t) :
  In b (PassResult.bindings
          (allocatePass actions scoredKeys fingerConfig movementConfig
             availableFingers lockedBinds)) ->
  exists a bound, In a actions /\ producedBy movementConfig lockedBinds a bound b.
Proof.
  unfold allocatePass. simpl. intros Hb.
  apply passLoop_origin in Hb. destruct Hb as [[]|[a [bound [Ha Hp]]]].
  exists a, bound. split; [|assumption].
  now apply Array_sort_In in Ha.
Qed.

Lemma allocatePass_locked_binding (lockedBinds : LockedBinds) (a : Action.t)
    (k : string) :
  In a actions ->
  lockedKeyOf lockedBinds (Action.name a) = Some k ->
  In (Binding.mk (Action.name a) k)
     (PassResult.bindings
        (allocatePass actions scoredKeys fingerConfig movementConfig
           availableFingers lockedBinds)).
Proof.
  intros Ha Hlock. unfold allocatePass. simpl.
  apply passLoop_locked; [|assumption]. now apply Array_sort_In.
Qed.

(** The locks of the second pass: a displaced action is pinned on its
    victim's key, every other name keeps its entry. *)
Lemma newLocks_get (first : PassResult.t) (unassigned : list Action.t)
    (lockedBinds : LockedBinds) (name : string) :
  (forall a, In a unassigned -> Action.name a <> name) ->
  JsMap.get
    (fold_left
       (fun newLocks action =>
          match
            findDisplacementVictim action (PassResult.bindings first)
              (PassResult.actionFingerMap first) actions
          with
          | Some victim => JsMap.set newLocks (Action.name action) (Binding.key victim)
          | None => newLocks
          end)
       unassigned lockedBinds)
    name
  = JsMap.get lockedBinds name.
Proof.
  revert lockedBinds. induction unassigned as [|a l IH]; intros lockedBinds Hne; simpl.
  - reflexivity.
  - rewrite IH by (intros a' Ha'; apply Hne; now right).
    destruct (findDisplacementVictim _ _ _ _); [|reflexivity].
    rewrite JsMap_get_set.
    destruct (keqb (Action.name a) name) eqn:E; [|reflexivity].
    apply keqb_eq in E. exfalso. apply (Hne a); [now left | assumption].
Qed.

End AllocatePassClaims.

(** The configuration of [Optimizer.test.ts], on binary64. *)
Module TestData.
Local Existing Instance float_number.
Local Open Scope string_scope.

Definition finger (restingKey : string) (reach : Z) : FingerConfig.t :=
  FingerConfig.mk restingKey (lit (inject_Z reach)) None None.

Definition DEFAULT_FINGER_CONFIG : FingerConfigMap :=
  [ (LeftMiddle, finger "KeyW" 12); (LeftIndex, finger "KeyD" 12);
    (RightIndex, finger "KeyF" 12); (RightMiddle, finger "KeyG" 12);
    (RightRing, finger "KeyH" 12); (RightPinky, finger "KeyJ" 12);
    (RightThumb, finger "Space" 8) ].

Definition DEFAULT_MOVEMENT_CONFIG : MovementConfig.t :=
  MovementConfig.mk
    (AxisConfig.mk "KeyW" "KeyS" [LeftMiddle] true)
    (AxisConfig.mk "KeyD" "KeyA" [LeftIndex] true).

Definition DEFAULT_AVAILABLE_FINGERS : JsSet.t Finger :=
  [RightIndex; RightMiddle; RightRing; RightPinky; RightThumb].

Definition action (name : string) (priority : Z) (type : ActionType)
    (useFrequency : Z) : Action.t :=
  Action.mk name (lit (inject_Z priority)) type (lit (inject_Z useFrequency)) None.

Definition scored (code : string) (totalScore : Z) (bestFinger : Finger)
    (originKey : string) (isRestingKey isMovement : bool) : ScoredKey.t :=
  ScoredKey.mk code (lit (inject_Z totalScore)) bestFinger originKey
    isRestingKey isMovement.

Definition keysFG : list ScoredKey.t :=
  [ scored "KeyF" 0 RightIndex "KeyF" true false;
    scored "KeyG" 4 RightMiddle "KeyG" false false ].

Definition jumpShoot : list Action.t :=
  [ action "Jump" 80 COMBAT 50; action "Shoot" 80 COMBAT 50 ].

(** The keys around WASD, scored as in the WASD preset. *)
Definition keysWASD : list ScoredKey.t :=
  [ scored "KeyW" 0 LeftMiddle "KeyW" true true;
    scored "KeyS" 4 LeftMiddle "KeyW" false true;
    scored "KeyA" 0 LeftRing "KeyA" true true;
    scored "KeyD" 0 LeftIndex "KeyD" true true;
    scored "KeyQ" 4 RightIndex "KeyF" false false;
    scored "KeyF" 0 RightIndex "KeyF" true false ].

Definition allocateTest (actions : list Action.t) (scoredKeys : list ScoredKey.t)
    (lockedBinds : LockedBinds) : list Binding.t :=
  allocate actions scoredKeys DEFAULT_FINGER_CONFIG DEFAULT_MOVEMENT_CONFIG
    DEFAULT_AVAILABLE_FINGERS lockedBinds.

End TestData.

(** ['allocates by frequency, higher frequency gets better keys']. *)
Example test_allocates_by_frequency :
  TestData.allocateTest
    [TestData.action "LowFreq" 100 COMBAT 10; TestData.action "HighFreq" 100 COMBAT 100]
    TestData.keysFG []
  = [Binding.mk "HighFreq" "KeyF"; Binding.mk "LowFreq" "KeyG"].
Proof. vm_compute. reflexivity. Qed.

(** ['respects locked binds']. *)
Example test_respects_locked_binds :
  TestData.allocateTest TestData.jumpShoot TestData.keysFG [("Jump", "KeyG")]%string
  = [Binding.mk "Jump" "KeyG"; Binding.mk "Shoot" "KeyF"].
Proof. vm_compute. reflexivity. Qed.

(** ['prevents double-assignment when key is locked']. *)
Example test_prevents_double_assignment :
  TestData.allocateTest TestData.jumpShoot TestData.keysFG
    [("OtherAction", "KeyF")]%string
  = [Binding.mk "Jump" "KeyG"].
Proof. vm_compute. reflexivity. Qed.







(** C3, as stated, fails: a pinned [DIRECTIONAL] action is bound to its
    locked key, here [KeyQ], which is no key of its axis. *)
Lemma allocate_directional_locked_counterexample :
  let forward := TestData.action "MoveForward" 0 DIRECTIONAL 100 in
  let bindings :=
    TestData.allocateTest [forward] TestData.keysWASD
      [("MoveForward", "KeyQ")]%string in
  bindings = [Binding.mk "MoveForward" "KeyQ"]
  /\ findAxisForAction forward TestData.DEFAULT_MOVEMENT_CONFIG
     = Some (MovementConfig.verticalAxis TestData.DEFAULT_MOVEMENT_CONFIG)
  /\ ~ In "KeyQ"%string
         (axisKeys (MovementConfig.verticalAxis TestData.DEFAULT_MOVEMENT_CONFIG)).
Proof.
  vm_compute. repeat split.
  intros [H|[H|[]]]; discriminate H.
Qed.

(** The axis of a name: the vertical one when the lower-cased name
    contains "forward" or "backward", otherwise the horizontal one when
    it contains "left" or "right". *)
Lemma findAxisForName_cases (name : string) (config : MovementConfig.t)
    (axis : AxisConfig.t) :
  findAxisForName name config = Some axis ->
  ((includes (toLowerCase name) "forward" = true
    \/ includes (toLowerCase name) "backward" = true)
   /\ axis = MovementConfig.verticalAxis config)
  \/ ((includes (toLowerCase name) "left" = true
       \/ includes (toLowerCase name) "right" = true)
      /\ axis = MovementConfig.horizontalAxis config).
Proof.
  unfold findAxisForName.
  destruct (includes (toLowerCase name) "forward" || includes (toLowerCase name) "backward")%bool eqn:Ev.
  - intros [= <-]. left. split; [|reflexivity]. now apply orb_true_iff.
  - destruct (includes (toLowerCase name) "left" || includes (toLowerCase name) "right")%bool eqn:Eh;
      [|discriminate].
    intros [= <-]. right. split; [|reflexivity]. now apply orb_true_iff.
Qed.

(** C3, amended: a binding that a pass produces for an unlocked action
    of type [DIRECTIONAL] uses one of the two configured keys of the
    axis its name selects (the vertical axis for forward/backward,
    otherwise the horizontal axis for left/right), and no other key. *)
Theorem allocatePass_directional_axis_key {N : JsNumber} {NI : JsInfinity N}
    (actions : list Action.t) (scoredKeys : list ScoredKey.t)
    (fingerConfig : FingerConfigMap) (movementConfig : MovementConfig.t)
    (availableFingers : JsSet.t Finger) (lockedBinds : LockedBinds)
    (b : Binding.t) :
  In b (PassResult.bindings
          (allocatePass actions scoredKeys fingerConfig movementConfig
             availableFingers lockedBinds)) ->
  lockedKeyOf lockedBinds (Binding.action b) = None ->
  (forall a, In a actions -> Action.name a = Binding.action b ->
             Action.type a = DIRECTIONAL) ->
  exists axis,
    findAxisForName (Binding.action b) movementConfig = Some axis
    /\ In (Binding.key b) (axisKeys axis)
    /\ (((includes (toLowerCase (Binding.action b)) "forward" = true
          \/ includes (toLowerCase (Binding.action b)) "backward" = true)
         /\ axis = MovementConfig.verticalAxis movementConfig)
        \/ ((includes (toLowerCase (Binding.action b)) "left" = true
             \/ includes (toLowerCase (Binding.action b)) "right" = true)
            /\ axis = MovementConfig.horizontalAxis movementConfig)).
Proof.
  intros Hb Hunlocked Hdir. apply allocatePass_bindings_origin in Hb.
  destruct Hb as [a [bound [Ha [Hname Hp]]]].
  destruct Hp as [Hp|[Hp|Hp]].
  - rewrite <- Hname in Hp. congruence.
  - destruct Hp as [_ [_ [[axis [Hax Hin]] _]]].
    unfold findAxisForAction in Hax. rewrite <- Hname in Hax.
    exists axis. split; [assumption|]. split; [assumption|].
    now apply findAxisForName_cases.
  - destruct Hp as [_ [Ht _]]. exfalso. apply Ht. apply Hdir; auto.
Qed.

Lemma allocatePass_directional_axis_key_witness :
  exists axis,
    findAxisForName "MoveForward" TestData.DEFAULT_MOVEMENT_CONFIG = Some axis
    /\ In "KeyW"%string (axisKeys axis).
Proof.
  pose (forward := TestData.action "MoveForward" 0 DIRECTIONAL 100).
  pose (jump := TestData.action "Jump" 0 MOVEMENT 60).
  destruct (allocatePass_directional_axis_key (N := float_number)
              [jump; forward] TestData.keysWASD TestData.DEFAULT_FINGER_CONFIG
              TestData.DEFAULT_MOVEMENT_CONFIG TestData.DEFAULT_AVAILABLE_FINGERS
              [("Jump", "KeyF")]%string (Binding.mk "MoveForward" "KeyW"))
    as [axis [Hax [Hin _]]].
  - vm_compute. now left.
  - reflexivity.
  - intros a [<-|[<-|[]]] Hname; [discriminate Hname | reflexivity].
  - exists axis. split; assumption.
Defined.

(** ** Distances and the "not found" sentinel, on binary64 *)

(** A double that is not below zero: NaN, a zero, or positive. *)
Definition SF_not_negative (f : spec_float) : Prop :=
match f with
| S754_finite true _ _ | S754_infinity true => False
| _ => True
end.

Lemma binary_round_aux_not_negative (mx ex : Z) (lx : location) :
  SF_not_negative (binary_round_aux prec emax false mx ex lx).
Proof.
  unfold binary_round_aux.
  destruct (shr_fexp prec emax mx ex lx) as [mrs' e'].
  destruct (shr_fexp prec emax _ e' loc_Exact) as [mrs'' e''].
  destruct (shr_m mrs''); simpl; try exact I.
  destruct (_ <=? _)%Z; exact I.
Qed.

Lemma SFsqrt_not_negative (x : spec_float) : SF_not_negative (SF64sqrt x).
Proof.
  unfold SF64sqrt, SFsqrt. destruct x as [s|s| |s m e]; try exact I.
  - destruct s; exact I.
  - destruct s; [exact I|].
    destruct (SFsqrt_core_binary prec emax (Z.pos m) e) as [[mz ez] lz].
    apply binary_round_aux_not_negative.
Qed.

Lemma float_sqrt_not_sentinel (x : float) :
  PrimFloat.eqb (PrimFloat.sqrt x) (-1)%float = false.
Proof.
  rewrite FloatAxioms.eqb_spec, sqrt_spec.
  pose proof (SFsqrt_not_negative (Prim2SF x)) as Hs.
  replace (Prim2SF (-1)%float) with (S754_finite true 4503599627370496 (-52))
    by (vm_compute; reflexivity).
  destruct (SF64sqrt (Prim2SF x)) as [s|s| |s m e]; try reflexivity.
  - destruct s; [contradiction | reflexivity].
  - destruct s; [contradiction | reflexivity].
Qed.

Lemma float_sqrt_not_below_zero (x : float) :
  PrimFloat.ltb (PrimFloat.sqrt x) 0%float = false.
Proof.
  rewrite ltb_spec, sqrt_spec.
  pose proof (SFsqrt_not_negative (Prim2SF x)) as Hs.
  replace (Prim2SF 0%float) with (S754_zero false) by (vm_compute; reflexivity).
  destruct (SF64sqrt (Prim2SF x)) as [s|s| |s m e]; try reflexivity.
  - destruct s; [contradiction | reflexivity].
  - destruct s; [contradiction | reflexivity].
Qed.

Lemma keyDistance_not_sentinel (keyA keyB : KeyDef.t (N := float_number)) :
  (keyDistance keyA keyB =? NOT_FOUND)%num = false
  /\ (keyDistance keyA keyB <? lit 0)%num = false.
Proof.
  unfold keyDistance. destruct (String.eqb _ _).
  - split; vm_compute; reflexivity.
  - unfold euclidean. split.
    + apply float_sqrt_not_sentinel.
    + apply float_sqrt_not_below_zero.
Qed.

Lemma getDistance_sentinel_iff (this : Optimizer.t (N := float_number))
    (key1Id key2Id : string) :
  (getDistance this key1Id key2Id =? NOT_FOUND)%num = true
  <-> JsMap.get (Optimizer.keyMap this) key1Id = None
      \/ JsMap.get (Optimizer.keyMap this) key2Id = None.
Proof.
  unfold getDistance.
  destruct (JsMap.get (Optimizer.keyMap this) key1Id) as [key1|].
  - destruct (JsMap.get (Optimizer.keyMap this) key2Id) as [key2|].
    + destruct (keyDistance_not_sentinel key1 key2) as [-> _].
      split; [discriminate | intros [H|H]; discriminate H].
    + split; [now right | intros _; vm_compute; reflexivity].
  - split; [now left | intros _; vm_compute; reflexivity].
Qed.

(** ** The key scorer *)

Section ScorerFacts.
Context {N : JsNumber}.
Variable this : Optimizer.t.
Variable keyCode : string.

(** The candidate [r] was measured for the finger configuration
    [config]: its cost is the penalty of the resting key itself, or a
    looked-up distance that is not the sentinel, plus the penalty. *)
Definition measuredFor (config : FingerConfig.t) (r : Closest.t) : Prop :=
Closest.originKey r = FingerConfig.restingKey config
/\ ((keyCode = FingerConfig.restingKey config
     /\ Closest.distance r = keyPenalty config keyCode)
    \/ (keyCode <> FingerConfig.restingKey config
        /\ (getDistance this keyCode (FingerConfig.restingKey config)
            =? NOT_FOUND)%num = false
        /\ Closest.distance r
           = (getDistance this keyCode (FingerConfig.restingKey config)
              + keyPenalty config keyCode)%num)).

Lemma exclusiveSearch_measured (entries : FingerConfigMap) (r : Closest.t) :
  exclusiveSearch this keyCode entries = Some r ->
  exists config, In (Closest.finger r, config) entries /\ measuredFor config r.
Proof.
  induction entries as [|[finger config] rest IH]; simpl; [discriminate|].
  destruct (isExclusiveTo config keyCode); simpl.
  - destruct (String.eqb keyCode (FingerConfig.restingKey config)) eqn:Er.
    + apply String.eqb_eq in Er. intros [= <-]. exists config. simpl.
      split; [now left|]. split; [reflexivity|]. left. now split.
    + apply String.eqb_neq in Er.
      destruct (_ =? NOT_FOUND)%num eqn:Ed.
      * intros Hr. destruct (IH Hr) as [c [Hin Hm]]. exists c. split; [now right | assumption].
      * intros [= <-]. exists config. simpl.
        split; [now left|]. split; [reflexivity|]. right. repeat split; assumption.
  - intros Hr. destruct (IH Hr) as [c [Hin Hm]]. exists c. split; [now right | assumption].
Qed.

Lemma normalSearch_measured (entries : FingerConfigMap) (best : option Closest.t)
    (r : Closest.t) :
  normalSearch this keyCode entries best = Some r ->
  best = Some r
  \/ exists config, In (Closest.finger r, config) entries /\ measuredFor config r.
Proof.
  revert best. induction entries as [|[finger config] rest IH]; intros best; simpl.
  - intros ->. now left.
  - assert (Hrest : forall b, normalSearch this keyCode rest b = Some r ->
              b = Some r \/ exists c, In (Closest.finger r, c) ((finger, config) :: rest)
                                      /\ measuredFor c r).
    { intros b Hb. destruct (IH b Hb) as [->|[c [Hin Hm]]]; [now left|].
      right. exists c. split; [now right | assumption]. }
    destruct (hasExclusiveKeys config); [apply Hrest|].
    destruct (String.eqb keyCode (FingerConfig.restingKey config)) eqn:Er.
    + apply String.eqb_eq in Er. intros [= <-]. right. exists config. simpl.
      split; [now left|]. split; [reflexivity|]. left. now split.
    + apply String.eqb_neq in Er.
      destruct (_ =? NOT_FOUND)%num eqn:Ed; [apply Hrest|].
      match goal with |- context [if ?c then _ else _] => destruct c end;
        [|apply Hrest].
      intros Hb. destruct (Hrest _ Hb) as [[= <-]|Hc]; [|now right].
      right. exists config. simpl.
      split; [now left|]. split; [reflexivity|]. right. repeat split; assumption.
Qed.

Lemma findClosestRestingFinger_measured (fingerConfig : FingerConfigMap)
    (r : Closest.t) :
  findClosestRestingFinger this keyCode fingerConfig = Some r ->
  exists config, In (Closest.finger r, config) fingerConfig /\ measuredFor config r.
Proof.
  unfold findClosestRestingFinger.
  destruct (exclusiveSearch this keyCode fingerConfig) as [e|] eqn:He.
  - intros [= <-]. now apply exclusiveSearch_measured.
  - intros Hn. apply normalSearch_measured in Hn.
    destruct Hn as [Hn|Hn]; [discriminate | assumption].
Qed.

(** The finger configuration lists the key as exclusive and can measure
    it: the key is the resting key, or the lookup of the distance does
    not return the sentinel. *)
Definition ownsExclusively (entry : Finger * FingerConfig.t) : bool :=
isExclusiveTo (snd entry) keyCode
&& (String.eqb keyCode (FingerConfig.restingKey (snd entry))
    || negb (getDistance this keyCode (FingerConfig.restingKey (snd entry))
             =? NOT_FOUND)%num).

(** The cost the scorer gives a key on a finger. *)
Definition costOn (config : FingerConfig.t) : num :=
if String.eqb keyCode (FingerConfig.restingKey config)
then keyPenalty config keyCode
else (getDistance this keyCode (FingerConfig.restingKey config)
      + keyPenalty config keyCode)%num.

Lemma exclusiveSearch_first_owner (entries : FingerConfigMap) (finger : Finger)
    (config : FingerConfig.t) :
  find ownsExclusively entries = Some (finger, config) ->
  exclusiveSearch this keyCode entries
  = Some (Closest.mk finger (FingerConfig.restingKey config) (costOn config)).
Proof.
  induction entries as [|[f c] rest IH]; simpl; [discriminate|].
  unfold ownsExclusively at 1. simpl. unfold costOn.
  destruct (isExclusiveTo c keyCode); simpl; [|exact IH].
  destruct (String.eqb keyCode (FingerConfig.restingKey c)) eqn:Er; simpl.
  - intros [= <- <-]. now rewrite Er.
  - destruct (_ =? NOT_FOUND)%num; simpl; [exact IH|].
    intros [= <- <-]. now rewrite Er.
Qed.
End ScorerFacts.

(** C9: on binary64, [getDistance] returns the sentinel [-1] exactly
    when one of the two ids is not in the key map; the distance of two
    known keys is never the sentinel and never below zero; and a
    candidate of the key scorer is the resting key itself or was
    measured between two known keys, so no sentinel enters the minimum. *)
Theorem getDistance_not_found_sentinel
    (this : Optimizer.t (N := float_number)) (key1Id key2Id : string)
    (keyA keyB : KeyDef.t (N := float_number)) (keyCode : string)
    (fingerConfig : FingerConfigMap (N := float_number)) :
  ((getDistance this key1Id key2Id =? NOT_FOUND)%num = true
   <-> JsMap.get (Optimizer.keyMap this) key1Id = None
       \/ JsMap.get (Optimizer.keyMap this) key2Id = None)
  /\ ((keyDistance keyA keyB =? NOT_FOUND)%num = false
      /\ (keyDistance keyA keyB <? lit 0)%num = false)
  /\ forall r,
       findClosestRestingFinger this keyCode fingerConfig = Some r ->
       exists config,
         In (Closest.finger r, config) fingerConfig
         /\ Closest.originKey r = FingerConfig.restingKey config
         /\ ((keyCode = FingerConfig.restingKey config
              /\ Closest.distance r = keyPenalty config keyCode)
             \/ exists key restingKey,
                  JsMap.get (Optimizer.keyMap this) keyCode = Some key
                  /\ JsMap.get (Optimizer.keyMap this)
                       (FingerConfig.restingKey config) = Some restingKey
                  /\ Closest.distance r
                     = (keyDistance key restingKey + keyPenalty config keyCode)%num).
Proof.
  split; [apply getDistance_sentinel_iff|].
  split; [apply keyDistance_not_sentinel|].
  intros r Hr. apply findClosestRestingFinger_measured in Hr.
  destruct Hr as [config [Hin [Ho Hm]]]. exists config.
  split; [assumption|]. split; [assumption|].
  destruct Hm as [Hm|[_ [Hd Hm]]]; [now left|]. right.
  assert (Hknown : ~ (JsMap.get (Optimizer.keyMap this) keyCode = None
                      \/ JsMap.get (Optimizer.keyMap this)
                           (FingerConfig.restingKey config) = None)).
  { intros Hu. apply getDistance_sentinel_iff in Hu. congruence. }
  unfold getDistance in Hm.
  destruct (JsMap.get (Optimizer.keyMap this) keyCode) as [key|];
    [|exfalso; apply Hknown; now left].
  destruct (JsMap.get (Optimizer.keyMap this) (FingerConfig.restingKey config))
    as [restingKey|]; [|exfalso; apply Hknown; now right].
  exists key, restingKey. repeat split. exact Hm.
Qed.

(** The finger configuration of the WASD preset. *)
Definition WASD_FINGER_CONFIG : FingerConfigMap (N := float_number) :=
[ (LeftMiddle, TestData.finger "KeyW" 10);
  (LeftRing, TestData.finger "KeyA" 12);
  (LeftIndex, TestData.finger "KeyD" 12);
  (LeftPinky, TestData.finger "ShiftLeft" 8);
  (LeftThumb, TestData.finger "Space" 12);
  (RightIndex,
   FingerConfig.mk "MouseLeft" (lit 4)
     (Some ["MouseLeft"; "MouseMiddle"; "MouseUp"; "MouseDown"]) None);
  (RightMiddle, FingerConfig.mk "MouseRight" (lit 4) (Some ["MouseRight"]) None);
  (RightThumb,
   FingerConfig.mk "Mouse4" (lit 4) (Some ["Mouse4"; "Mouse5"])
     (Some [("Mouse4", lit 0); ("Mouse5", lit (-4))])) ]%string.

(** A finger whose resting key is no physical key, and one without
    exclusive keys. *)
Definition strayRestingKey : FingerConfigMap (N := float_number) :=
[ (LeftRing, FingerConfig.mk "Nowhere" (lit 4) (Some ["Mouse5"]) None);
  (LeftIndex, FingerConfig.mk "MouseLeft" (lit 4) None None) ]%string.

(** C7, as stated, fails: [Mouse5] is exclusive to the left ring finger,
    whose resting key is unknown; the scorer skips that finger and
    returns the left index finger, from the normal search. *)
Lemma findClosestRestingFinger_exclusive_counterexample :
  (exists config,
     In (LeftRing, config) strayRestingKey
     /\ isExclusiveTo config "Mouse5" = true)
  /\ option_map Closest.finger
       (findClosestRestingFinger Optimizer_new "Mouse5" strayRestingKey)
     = Some LeftIndex.
Proof.
  split.
  - eexists. split; [left; reflexivity | reflexivity].
  - vm_compute. reflexivity.
Qed.

Lemma find_pointwise {A : Type} (f g : A -> bool) (l : list A) :
  (forall x, f x = g x) -> find f l = find g l.
Proof.
  intros Hfg. induction l as [|x l IH]; simpl; [reflexivity|].
  rewrite Hfg, IH. reflexivity.
Qed.

(** The key is the finger's resting key, or both are physical keys. *)
Definition canMeasure (this : Optimizer.t (N := float_number)) (keyCode : string)
    (config : FingerConfig.t (N := float_number)) : bool :=
String.eqb keyCode (FingerConfig.restingKey config)
|| (JsMap.has (Optimizer.keyMap this) keyCode
    && JsMap.has (Optimizer.keyMap this) (FingerConfig.restingKey config)).

Lemma canMeasure_sentinel (this : Optimizer.t (N := float_number))
    (keyCode : string) (c : FingerConfig.t (N := float_number)) :
  canMeasure this keyCode c
  = (String.eqb keyCode (FingerConfig.restingKey c)
     || negb (getDistance this keyCode (FingerConfig.restingKey c) =? NOT_FOUND)%num)%bool.
Proof.
  unfold canMeasure, JsMap.has. f_equal.
  destruct (getDistance this keyCode (FingerConfig.restingKey c) =? NOT_FOUND)%num eqn:Ed.
  - apply getDistance_sentinel_iff in Ed. destruct Ed as [->| ->]; simpl.
    + reflexivity.
    + now rewrite andb_false_r.
  - destruct (JsMap.get (Optimizer.keyMap this) keyCode) eqn:E1.
    + destruct (JsMap.get (Optimizer.keyMap this) (FingerConfig.restingKey c)) eqn:E2;
        [reflexivity|].
      exfalso. assert (H : (getDistance this keyCode (FingerConfig.restingKey c)
                            =? NOT_FOUND)%num = true)
        by (apply getDistance_sentinel_iff; now right). congruence.
    + exfalso. assert (H : (getDistance this keyCode (FingerConfig.restingKey c)
                            =? NOT_FOUND)%num = true)
        by (apply getDistance_sentinel_iff; now left). congruence.
Qed.

(** C7, amended: the first configured finger (in configuration order)
    whose exclusive keys contain [k] and for which [k] is the resting key
    or both [k] and the resting key are known keys is returned as the
    sole candidate, with cost the per-key penalty (default 0) when [k]
    is the resting key and the distance to the resting key plus that
    penalty otherwise; no other finger is considered. *)
Theorem findClosestRestingFinger_exclusive
    (this : Optimizer.t (N := float_number)) (keyCode : string)
    (fingerConfig : FingerConfigMap (N := float_number))
    (finger : Finger) (config : FingerConfig.t (N := float_number)) :
  find (fun entry => isExclusiveTo (snd entry) keyCode
                     && canMeasure this keyCode (snd entry))
       fingerConfig
  = Some (finger, config) ->
  findClosestRestingFinger this keyCode fingerConfig
  = Some (Closest.mk finger (FingerConfig.restingKey config)
            (if String.eqb keyCode (FingerConfig.restingKey config)
             then keyPenalty config keyCode
             else (getDistance this keyCode (FingerConfig.restingKey config)
                   + keyPenalty config keyCode)%num)).
Proof.
  intros Hfind. unfold findClosestRestingFinger.
  rewrite (@exclusiveSearch_first_owner float_number this keyCode fingerConfig finger config);
    [reflexivity|].
  rewrite <- Hfind. apply find_pointwise. intros [f c].
  unfold ownsExclusively. now rewrite canMeasure_sentinel.
Qed.

Lemma findClosestRestingFinger_exclusive_witness :
  findClosestRestingFinger Optimizer_new "Mouse5" WASD_FINGER_CONFIG
  = Some (Closest.mk RightThumb "Mouse4" 0%float).
Proof.
  apply (@findClosestRestingFinger_exclusive Optimizer_new "Mouse5"
           WASD_FINGER_CONFIG RightThumb
           (FingerConfig.mk "Mouse4" (lit 4) (Some ["Mouse4"; "Mouse5"]%string)
              (Some [("Mouse4", lit 0); ("Mouse5", lit (-4))]%string))).
  vm_compute. reflexivity.
Defined.

(** ** The radius sweep, under exact arithmetic *)

Lemma R_exact_laws_ltb (a b : R) : R_ltb a b = true <-> (a < b)%R.
Proof. unfold R_ltb. destruct (Rlt_dec a b); split; intros; congruence || assumption || reflexivity. Qed.

Lemma R_exact_laws_leb (a b : R) : R_leb a b = true <-> (a <= b)%R.
Proof. unfold R_leb. destruct (Rle_dec a b); split; intros; congruence || assumption || reflexivity. Qed.

Lemma R_exact_laws_eqb (a b : R) : R_eqb a b = true <-> a = b.
Proof. unfold R_eqb. destruct (Req_dec_T a b); split; intros; congruence || assumption || reflexivity. Qed.

(** The reals compute exactly. *)
Definition R_exact : ExactArithmetic R_number :=
{| toR := fun x : @num R_number => (x : R);
   toR_lit := fun q => eq_refl;
   toR_add := fun a b => eq_refl;
   toR_sub := fun a b => eq_refl;
   toR_mul := fun a b => eq_refl;
   toR_div := fun a b _ => eq_refl;
   toR_sqrt := fun a => eq_refl;
   toR_abs := fun a => eq_refl;
   toR_max := fun a b => eq_refl;
   toR_min := fun a b => eq_refl;
   toR_ltb := R_exact_laws_ltb;
   toR_leb := R_exact_laws_leb;
   toR_eqb := R_exact_laws_eqb |}.

Section ExactGeometry.
Context {N : JsNumber} {E : ExactArithmetic N}.

Lemma toR_zero : toR (lit 0) = 0%R.
Proof. rewrite toR_lit. unfold Q2R. simpl. lra. Qed.

Lemma toR_ltb_false (a b : num) : (a <? b)%num = false <-> (toR b <= toR a)%R.
Proof.
  pose proof (toR_ltb a b) as H. destruct (a <? b)%num.
  - split; [discriminate|]. intros Hle. assert (toR a < toR b)%R by now apply H. lra.
  - split; [|reflexivity]. intros _.
    destruct (Rle_lt_dec (toR b) (toR a)) as [Hle|Hlt]; [assumption|].
    apply H in Hlt. discriminate.
Qed.






Variable center : Point.t.
Variable maxDistance : num.
Variable excludeCode : option string.







End ExactGeometry.




(** ** The friction score *)

(** Some [DIRECTIONAL] action of the layout is off its correct key
    (rule 1 of [calculateFriction] fires). *)
Definition violatesDirectional {N : JsNumber} (ctx : FrictionContext.t)
    (layout : Layout) : bool :=
existsb
  (fun entry : string * string =>
     match JsMap.get (buildActionMap (FrictionContext.actions ctx)) (fst entry) with
     | Some action => wrongMovementKey ctx action (fst entry) (snd entry)
     | None => false
     end)
  layout.

Lemma JsMap_fold_set_get {K V A : Type} `{KeyEq K} (f : A -> K) (g : A -> V)
    (l : list A) (m : JsMap.t K V) (k : K) (v : V) :
  JsMap.get (fold_left (fun m x => JsMap.set m (f x) (g x)) l m) k = Some v ->
  JsMap.get m k = Some v \/ exists x, In x l /\ f x = k /\ g x = v.
Proof.
  revert m. induction l as [|x l IH]; intros m; simpl.
  - now left.
  - intros Hg. apply IH in Hg. destruct Hg as [Hg|[y [Hy Hfg]]].
    + rewrite JsMap_get_set in Hg. destruct (keqb (f x) k) eqn:Ek.
      * apply keqb_eq in Ek. injection Hg as <-. right. exists x. auto.
      * now left.
    + right. exists y. split; [now right | assumption].
Qed.

Lemma buildActionMap_get {N : JsNumber} (actions : list Action.t) (name : string)
    (a : Action.t) :
  JsMap.get (buildActionMap actions) name = Some a -> In a actions.
Proof.
  unfold buildActionMap, JsMap.of_entries. intros Hg.
  apply (JsMap_fold_set_get fst snd) in Hg.
  destruct Hg as [Hg|[x [Hx [_ Hv]]]]; [discriminate|].
  apply in_map_iff in Hx. destruct Hx as [a' [<- Ha']]. simpl in Hv. now subst.
Qed.

Section ExactFriction.
Context {N : JsNumber} {E : ExactArithmetic N}.

Lemma toR_lit_Z (z : Z) : toR (lit (inject_Z z)) = IZR z.
Proof. rewrite toR_lit. unfold Q2R, inject_Z. simpl. lra. Qed.

Lemma toR_addIf (c : bool) (p score : num) :
  (0 <= toR p)%R ->
  (toR score <= toR (addIf c p score))%R
  /\ (c = true -> toR (addIf c p score) = toR score + toR p)%R.
Proof.
  intros Hp. unfold addIf. destruct c.
  - rewrite toR_add. split; [lra | reflexivity].
  - split; [lra | discriminate].
Qed.

Lemma toR_fold_addIf {A : Type} (c : A -> bool) (p : num) (l : list A) (score : num) :
  (0 <= toR p)%R ->
  (toR score <= toR (fold_left (fun s x => addIf (c x) p s) l score))%R.
Proof.
  intros Hp. revert score. induction l as [|x l IH]; intros score; simpl; [lra|].
  eapply Rle_trans; [|apply IH]. now apply toR_addIf.
Qed.

Variable ctx : FrictionContext.t.
Variable penalties : PenaltyConfig.t.

(** The weights and penalties of the configuration are not negative. *)
Definition nonNegativePenalties : Prop :=
(0 <= toR (PenaltyConfig.distanceWeight penalties))%R
/\ (0 <= toR (PenaltyConfig.frequencyWeight penalties))%R
/\ (0 <= toR (PenaltyConfig.concurrencyPenalty penalties))%R
/\ (0 <= toR (PenaltyConfig.exclusiveViolation penalties))%R
/\ (0 <= toR (PenaltyConfig.unreachablePenalty penalties))%R.

(** The scores of the keys and the frequencies of the actions are not
    negative. *)
Definition nonNegativeContext : Prop :=
(forall k d, JsMap.get (FrictionContext.keyToDistance ctx) k = Some d ->
             (0 <= toR d)%R)
/\ (forall a, In a (FrictionContext.actions ctx) ->
              (0 <= toR (Action.useFrequency a))%R).

Hypothesis Hpenalties : nonNegativePenalties.
Hypothesis Hcontext : nonNegativeContext.

Lemma toR_exclusiveKeyTerms (finger : Finger) (keyCode : string) (score : num) :
  (toR score <= toR (exclusiveKeyTerms ctx finger keyCode score))%R.
Proof.
  unfold exclusiveKeyTerms.
  assert (Hp : (0 <= toR (lit 200000))%R).
  { change (lit 200000) with (lit (inject_Z 200000)). rewrite toR_lit_Z. lra. }
  eapply Rle_trans; [|apply (toR_fold_addIf
     (fun e : Finger * JsSet.t string =>
        negb (Finger_eqb (fst e) finger) && JsSet.has (snd e) keyCode)); exact Hp].
  destruct (JsMap.get (FrictionContext.fingerExclusiveKeys ctx) finger); [|lra].
  now apply toR_addIf.
Qed.

Lemma toR_concurrencyTerms (layout : Layout) (finger : option Finger)
    (names : list string) (score : num) :
  (toR score <= toR (concurrencyTerms layout ctx penalties finger names score))%R.
Proof.
  destruct Hpenalties as [_ [_ [Hc _]]].
  unfold concurrencyTerms. revert score.
  induction names as [|n names IH]; intros score; simpl; [lra|].
  eapply Rle_trans; [|apply IH].
  destruct (JsMap.get layout n) as [otherKey|]; [|lra].
  destruct (String.eqb otherKey EmptyString); [lra|].
  destruct finger as [f|]; [|lra].
  destruct (JsMap.get (FrictionContext.keyToFinger ctx) otherKey); [|lra].
  now apply toR_addIf.
Qed.

(** One entry of the layout never lowers the score, and raises it by
    1,000,000 at least when its action is off its movement key. *)
Lemma toR_frictionOfEntry (layout : Layout) (exclusiveFingers : JsSet.t Finger)
    (score : num) (entry : string * string) :
  (toR score
   <= toR (frictionOfEntry layout ctx penalties
             (buildActionMap (FrictionContext.actions ctx)) exclusiveFingers
             score entry))%R
  /\ (match JsMap.get (buildActionMap (FrictionContext.actions ctx)) (fst entry) with
      | Some action => wrongMovementKey ctx action (fst entry) (snd entry)
      | None => false
      end = true ->
      (toR score + 1000000
       <= toR (frictionOfEntry layout ctx penalties
                 (buildActionMap (FrictionContext.actions ctx)) exclusiveFingers
                 score entry))%R).
Proof.
  destruct Hpenalties as [Hdw [Hfw [Hcp [Hev Hup]]]].
  destruct Hcontext as [Hdist Hfreq].
  destruct entry as [actionName keyCode]. unfold frictionOfEntry. cbn [fst snd].
  destruct (JsMap.get (buildActionMap (FrictionContext.actions ctx)) actionName)
    as [action|] eqn:Ha; [|split; [lra | discriminate]].
  apply buildActionMap_get in Ha. specialize (Hfreq action Ha).
  set (distance := match JsMap.get (FrictionContext.keyToDistance ctx) keyCode with
                   | Some d => d
                   | None => lit 100
                   end).
  assert (Hd : (0 <= toR distance)%R).
  { unfold distance.
    destruct (JsMap.get (FrictionContext.keyToDistance ctx) keyCode) eqn:Hk.
    - eapply Hdist, Hk.
    - change (lit 100) with (lit (inject_Z 100)). rewrite toR_lit_Z. lra. }
  assert (H1 : (0 <= toR (lit 1000000))%R /\ toR (lit 1000000) = 1000000%R).
  { change (lit 1000000) with (lit (inject_Z 1000000)). rewrite toR_lit_Z. lra. }
  assert (H5 : (0 <= toR (lit 500000))%R).
  { change (lit 500000) with (lit (inject_Z 500000)). rewrite toR_lit_Z. lra. }
  set (s1 := addIf (wrongMovementKey ctx action actionName keyCode) (lit 1000000) score).
  set (s2 := addIf (negb (isDirectional action)
                    && JsSet.has (FrictionContext.movementKeySet ctx) keyCode)
               (lit 500000) s1).
  set (s3 := match JsMap.get (FrictionContext.keyToFinger ctx) keyCode with
             | Some f => exclusiveKeyTerms ctx f keyCode s2
             | None => s2
             end).
  set (s4 := (s3 + distance * Action.useFrequency action
                   * PenaltyConfig.frequencyWeight penalties)%num).
  set (s5 := (s4 + distance * PenaltyConfig.distanceWeight penalties)%num).
  set (s6 := match JsMap.get (FrictionContext.keyToFinger ctx) keyCode with
             | Some f =>
                 addIf (JsSet.has exclusiveFingers f && negb (isDirectional action))
                   (PenaltyConfig.exclusiveViolation penalties) s5
             | None => s5
             end).
  set (s7 := match JsMap.get (FrictionContext.keyToFinger ctx) keyCode with
             | Some f =>
                 match JsMap.get (FrictionContext.fingerConfig ctx) f with
                 | Some config =>
                     addIf (distance >? FingerConfig.reach config)%num
                       (PenaltyConfig.unreachablePenalty penalties) s6
                 | None => s6
                 end
             | None => s6
             end).
  assert (L1 : (toR score <= toR s1)%R
               /\ (wrongMovementKey ctx action actionName keyCode = true ->
                   toR s1 = toR score + 1000000)%R).
  { destruct (toR_addIf (wrongMovementKey ctx action actionName keyCode)
                (lit 1000000) score (proj1 H1)) as [Hle Heq].
    split; [exact Hle|]. intros Hw. unfold s1. rewrite (Heq Hw), (proj2 H1). reflexivity. }
  assert (L2 : (toR s1 <= toR s2)%R) by (apply toR_addIf; exact H5).
  assert (L3 : (toR s2 <= toR s3)%R).
  { unfold s3. destruct (JsMap.get (FrictionContext.keyToFinger ctx) keyCode); [|lra].
    apply toR_exclusiveKeyTerms. }
  assert (L4 : (toR s3 <= toR s4)%R).
  { unfold s4. rewrite toR_add, !toR_mul.
    assert (0 <= toR distance * toR (Action.useFrequency action))%R
      by (apply Rmult_le_pos; assumption).
    assert (0 <= toR distance * toR (Action.useFrequency action)
                 * toR (PenaltyConfig.frequencyWeight penalties))%R
      by (apply Rmult_le_pos; assumption).
    lra. }
  assert (L5 : (toR s4 <= toR s5)%R).
  { unfold s5. rewrite toR_add, toR_mul.
    assert (0 <= toR distance * toR (PenaltyConfig.distanceWeight penalties))%R
      by (apply Rmult_le_pos; assumption).
    lra. }
  assert (L6 : (toR s5 <= toR s6)%R).
  { unfold s6. destruct (JsMap.get (FrictionContext.keyToFinger ctx) keyCode); [|lra].
    now apply toR_addIf. }
  assert (L7 : (toR s6 <= toR s7)%R).
  { unfold s7. destruct (JsMap.get (FrictionContext.keyToFinger ctx) keyCode); [|lra].
    destruct (JsMap.get (FrictionContext.fingerConfig ctx) f); [|lra].
    now apply toR_addIf. }
  assert (L8 : (toR s7
                <= toR match Action.concurrentWith action with
                       | Some names =>
                           concurrencyTerms layout ctx penalties
                             (JsMap.get (FrictionContext.keyToFinger ctx) keyCode)
                             names s7
                       | None => s7
                       end)%R).
  { destruct (Action.concurrentWith action); [|lra]. apply toR_concurrencyTerms. }
  destruct L1 as [L1 L1'].
  split; [lra|]. intros Hw. specialize (L1' Hw). lra.
Qed.

Lemma toR_friction_fold (layout : Layout) (exclusiveFingers : JsSet.t Finger)
    (entries : list (string * string)) (score : num) :
  (toR score
   <= toR (fold_left
             (frictionOfEntry layout ctx penalties
                (buildActionMap (FrictionContext.actions ctx)) exclusiveFingers)
             entries score))%R.
Proof.
  revert score. induction entries as [|entry entries IH]; intros score;
    cbn [fold_left]; [lra|].
  eapply Rle_trans; [|apply IH]. apply toR_frictionOfEntry.
Qed.

Lemma toR_friction_fold_violation (layout : Layout)
    (exclusiveFingers : JsSet.t Finger) (entries : list (string * string))
    (score : num) :
  existsb
    (fun entry : string * string =>
       match JsMap.get (buildActionMap (FrictionContext.actions ctx)) (fst entry) with
       | Some action => wrongMovementKey ctx action (fst entry) (snd entry)
       | None => false
       end)
    entries = true ->
  (toR score + 1000000
   <= toR (fold_left
             (frictionOfEntry layout ctx penalties
                (buildActionMap (FrictionContext.actions ctx)) exclusiveFingers)
             entries score))%R.
Proof.
  revert score. induction entries as [|entry entries IH]; intros score;
    cbn [fold_left existsb]; [discriminate|].
  intros Hv. apply orb_true_iff in Hv.
  destruct (toR_frictionOfEntry layout exclusiveFingers score entry) as [Hle Hviol].
  destruct Hv as [Hv|Hv].
  - eapply Rle_trans; [exact (Hviol Hv) | apply toR_friction_fold].
  - eapply Rle_trans; [|apply (IH _ Hv)]. lra.
Qed.

Lemma toR_fold_nmax (l : list num) (a : num) :
  (toR a <= toR (fold_left nmax l a))%R.
Proof.
  revert a. induction l as [|x l IH]; intros a; cbn [fold_left]; [lra|].
  eapply Rle_trans; [|apply IH]. rewrite toR_max. apply Rmax_l.
Qed.

Lemma toR_fold_nmin (l : list num) (a : num) :
  (toR (fold_left nmin l a) <= toR a)%R.
Proof.
  revert a. induction l as [|x l IH]; intros a; cbn [fold_left]; [lra|].
  eapply Rle_trans; [apply IH|]. rewrite toR_min. apply Rmin_l.
Qed.

Lemma toR_calculateLoadImbalance (layout : Layout)
    (actionMap : JsMap.t string Action.t) :
  (0 <= toR (calculateLoadImbalance layout ctx actionMap))%R.
Proof.
  unfold calculateLoadImbalance.
  destruct (JsMap.values (fingerLoadsOf layout ctx actionMap)) as [|first [|second others]];
    try (rewrite toR_zero; lra).
  rewrite toR_mul, toR_sub, toR_lit.
  pose proof (toR_fold_nmax (second :: others) first).
  pose proof (toR_fold_nmin (second :: others) first).
  assert (0 <= Q2R (5 # 10))%R by (unfold Q2R; simpl; lra).
  apply Rmult_le_pos; lra.
Qed.

(** A layout with a [DIRECTIONAL] action off its key costs 1,000,000 at
    least. *)
Lemma toR_calculateFriction_violation (layout : Layout) :
  violatesDirectional ctx layout = true ->
  (1000000 <= toR (calculateFriction layout ctx penalties))%R.
Proof.
  intros Hv. unfold calculateFriction. rewrite toR_add.
  pose proof (toR_calculateLoadImbalance layout
                (buildActionMap (FrictionContext.actions ctx))).
  pose proof (toR_friction_fold_violation layout
                (buildExclusiveFingerSet (FrictionContext.movementConfig ctx))
                layout (lit 0) Hv) as Hf.
  rewrite toR_zero in Hf. lra.
Qed.
End ExactFriction.

Lemma buildFrictionContext_nonNegative {N : JsNumber} {E : ExactArithmetic N}
    (actions : list Action.t) (scoredKeys : list ScoredKey.t)
    (fingerConfig : FingerConfigMap) (movementConfig : MovementConfig.t) :
  (forall sk, In sk scoredKeys -> (0 <= toR (ScoredKey.totalScore sk))%R) ->
  (forall a, In a actions -> (0 <= toR (Action.useFrequency a))%R) ->
  nonNegativeContext
    (buildFrictionContext actions scoredKeys fingerConfig movementConfig).
Proof.
  intros Hs Ha. split; [|exact Ha].
  intros k d Hg. simpl in Hg.
  apply (JsMap_fold_set_get (fun sk => ScoredKey.code sk)
           (fun sk => ScoredKey.totalScore sk)) in Hg.
  destruct Hg as [Hg|[sk [Hsk [_ <-]]]]; [discriminate | now apply Hs].
Qed.

(** Layouts over four actions, on binary64, with the default penalties. *)
Module FrictionExample.
Local Existing Instance float_number.
Local Open Scope string_scope.

Definition actions : list Action.t :=
[ TestData.action "MoveForward" 0 DIRECTIONAL 100;
  TestData.action "Jump" 0 MOVEMENT 60;
  TestData.action "Dash" 0 MOVEMENT 70 ].

Definition scoredKeys : list ScoredKey.t :=
TestData.keysWASD ++ [TestData.scored "KeyG" 4 RightMiddle "KeyG" false false].

Definition ctx : FrictionContext.t :=
buildFrictionContext actions scoredKeys TestData.DEFAULT_FINGER_CONFIG
  TestData.DEFAULT_MOVEMENT_CONFIG.

(** [MoveForward] is off its key; nothing else is wrong. *)
Definition misplaced : Layout :=
[("MoveForward", "KeyQ"); ("Jump", "KeyF"); ("Dash", "KeyG")].

(** [MoveForward] is on its key; the two other actions sit on movement
    keys of fingers reserved for movement. *)
Definition crowded : Layout :=
[("MoveForward", "KeyW"); ("Jump", "KeyS"); ("Dash", "KeyD")].
End FrictionExample.

(** C5, as stated, fails with the default penalties: the layout that
    misplaces [MoveForward] costs less than one that places it right and
    puts two other actions on movement keys. *)
Lemma calculateFriction_dominance_counterexample :
  violatesDirectional FrictionExample.ctx FrictionExample.misplaced = true
  /\ violatesDirectional FrictionExample.ctx FrictionExample.crowded = false
  /\ (calculateFriction FrictionExample.misplaced FrictionExample.ctx DEFAULT_PENALTIES
      >? calculateFriction FrictionExample.crowded FrictionExample.ctx DEFAULT_PENALTIES)%num
     = false.
Proof. vm_compute. repeat split. Qed.

(** C5, amended: with exact arithmetic and penalty weights, key scores
    and use frequencies that are not negative, a layout that places some
    [DIRECTIONAL] action off its correct axis key has a friction of
    1,000,000 at least, and so scores strictly higher than every layout
    whose friction is below 1,000,000. *)
Theorem calculateFriction_directional_violation {N : JsNumber}
    {E : ExactArithmetic N} (layout1 layout2 : Layout) (ctx : FrictionContext.t)
    (penalties : PenaltyConfig.t) :
  nonNegativePenalties penalties ->
  nonNegativeContext ctx ->
  violatesDirectional ctx layout1 = true ->
  (calculateFriction layout2 ctx penalties <? lit 1000000)%num = true ->
  (lit 1000000 <=? calculateFriction layout1 ctx penalties)%num = true
  /\ (calculateFriction layout1 ctx penalties
      >? calculateFriction layout2 ctx penalties)%num = true.
Proof.
  intros Hp Hc Hv H2.
  pose proof (toR_calculateFriction_violation Hp Hc layout1 Hv) as H1.
  apply toR_ltb in H2.
  assert (Hm : toR (lit 1000000) = 1000000%R).
  { change (lit 1000000) with (lit (inject_Z 1000000)). apply toR_lit_Z. }
  rewrite Hm in H2. split.
  - apply toR_leb. rewrite Hm. exact H1.
  - apply toR_ltb. lra.
Qed.

(** One [DIRECTIONAL] action and two keys, in exact arithmetic. *)
Module ExactExample.
Local Open Scope string_scope.

Definition forward : Action.t (N := R_number) :=
Action.mk (N := R_number) "MoveForward" 0%R DIRECTIONAL 100%R None.

Definition scoredKeys : list (ScoredKey.t (N := R_number)) :=
[ ScoredKey.mk (N := R_number) "KeyW" 0%R LeftMiddle "KeyW" true true;
  ScoredKey.mk (N := R_number) "KeyQ" 4%R LeftRing "KeyA" false false ].

Definition ctx : FrictionContext.t (N := R_number) :=
buildFrictionContext (N := R_number) [forward] scoredKeys []
  TestData.DEFAULT_MOVEMENT_CONFIG.
End ExactExample.

Lemma calculateFriction_directional_violation_witness :
  (calculateFriction (N := R_number) [("MoveForward", "KeyQ")]%string
     ExactExample.ctx DEFAULT_PENALTIES
   >? calculateFriction (N := R_number) [("MoveForward", "KeyW")]%string
        ExactExample.ctx DEFAULT_PENALTIES)%num = true.
Proof.
  apply (calculateFriction_directional_violation (N := R_number) (E := R_exact)).
  - unfold nonNegativePenalties. simpl. unfold Q2R. simpl. repeat split; lra.
  - apply buildFrictionContext_nonNegative.
    + intros sk [<-|[<-|[]]]; simpl; lra.
    + intros a [<-|[]]; simpl; lra.
  - reflexivity.
  - apply R_exact_laws_ltb.
    cbv -[Rplus Rmult Rminus Rdiv Rlt Rle IZR Rinv Rlt_dec Rle_dec Q2R R_ltb].
    unfold Q2R. simpl. lra.
Defined.

(** ** The annealing loop *)

(** [layout'] binds the same actions as [layout], in the same order, to
    the same keys up to their order. *)
Definition Rearranged (layout layout' : Layout) : Prop :=
JsMap.keys layout' = JsMap.keys layout
/\ Permutation (JsMap.values layout') (JsMap.values layout).

Lemma Rearranged_refl (layout : Layout) : Rearranged layout layout.
Proof. split; [reflexivity | apply Permutation_refl]. Qed.

Lemma Rearranged_trans (l1 l2 l3 : Layout) :
  Rearranged l1 l2 -> Rearranged l2 l3 -> Rearranged l1 l3.
Proof.
  intros [K12 P12] [K23 P23]. split; [congruence|].
  eapply perm_trans; eassumption.
Qed.

Lemma JsMap_swap_values (layout : Layout) (a b keyA keyB : string) :
  JsMap.get layout a = Some keyA ->
  JsMap.get layout b = Some keyB ->
  Permutation (JsMap.values (JsMap.set (JsMap.set layout a keyB) b keyA))
    (JsMap.values layout).
Proof.
  intros Ha Hb.
  destruct (String.eqb a b) eqn:Eab.
  - apply String.eqb_eq in Eab. subst b.
    assert (keyA = keyB) by congruence. subst keyB.
    rewrite (JsMap_set_same layout a Ha), (JsMap_set_same layout a Ha).
    apply Permutation_refl.
  - assert (Hb' : JsMap.get (JsMap.set layout a keyB) b = Some keyB).
    { rewrite JsMap_get_set. simpl. now rewrite Eab. }
    pose proof (JsMap_set_values_perm (JsMap.set layout a keyB) b keyA Hb') as P2.
    pose proof (JsMap_set_values_perm layout a keyB Ha) as P1.
    apply (Permutation_cons_inv (a := keyB)).
    eapply perm_trans; [exact P2 | exact P1].
Qed.

Lemma swap_Rearranged (layout : Layout) (actionA actionB : option string) :
  Rearranged layout (swap layout actionA actionB).
Proof.
  unfold swap.
  destruct actionA as [a|]; [|apply Rearranged_refl].
  destruct actionB as [b|]; [|apply Rearranged_refl].
  destruct (JsMap.get layout a) as [keyA|] eqn:Ha; [|apply Rearranged_refl].
  destruct (JsMap.get layout b) as [keyB|] eqn:Hb; [|apply Rearranged_refl].
  destruct (_ || _)%bool; [apply Rearranged_refl|].
  split.
  - rewrite JsMap_set_keys_has.
    + apply JsMap_set_keys_has. congruence.
    + rewrite JsMap_get_set. destruct (keqb a b); congruence.
  - now apply JsMap_swap_values.
Qed.

Lemma conflictWith_Rearranged (layout : Layout)
    (keyToFinger : JsMap.t string Finger) (rng : SeededRandom.t)
    (actionNames : list string) (actionName : string) (finger : option Finger)
    (others : list string) (r : Layout * SeededRandom.t) :
  conflictWith layout keyToFinger rng actionNames actionName finger others = Some r ->
  Rearranged layout (fst r).
Proof.
  revert r. induction others as [|otherName rest IH]; intros r;
    cbn [conflictWith]; [discriminate|].
  destruct (JsMap.get layout otherName) as [otherKey|]; [|apply IH].
  destruct (String.eqb otherKey EmptyString); [apply IH|].
  destruct finger as [f|]; [|apply IH].
  destruct (JsMap.get keyToFinger otherKey) as [otherFinger|]; [|apply IH].
  destruct (Finger_eqb f otherFinger); [|apply IH].
  destruct (filter _ actionNames) as [|n ns]; [apply IH|].
  destruct (SeededRandom.pick rng (n :: ns)) as [p rng'].
  intros [= <-]. exact (swap_Rearranged layout (Some otherName) p).
Qed.

Lemma conflictSwap_Rearranged (layout : Layout)
    (actionMap : JsMap.t string (Action.t (N := float_number)))
    (keyToFinger : JsMap.t string Finger) (rng : SeededRandom.t)
    (actionNames : list string) (entries : list (string * string)) :
  Rearranged layout
    (fst (conflictSwap layout actionMap keyToFinger rng actionNames entries)).
Proof.
  induction entries as [|[actionName k] rest IH]; cbn [conflictSwap];
    [apply Rearranged_refl|].
  destruct (JsMap.get actionMap actionName) as [action|]; [|exact IH].
  destruct (Action.concurrentWith action) as [others|]; [|exact IH].
  destruct (conflictWith _ _ _ _ _ _ _) as [r|] eqn:Hc; [|exact IH].
  eapply conflictWith_Rearranged, Hc.
Qed.

(** A mutation only exchanges the keys of two actions. *)
Lemma mutate_Rearranged (layout : Layout)
    (fingerLoads : JsMap.t Finger (num (JsNumber := float_number)))
    (actions : list (Action.t (N := float_number)))
    (keyToFinger : JsMap.t string Finger) (rng : SeededRandom.t) :
  Rearranged layout (fst (mutate layout fingerLoads actions keyToFinger rng)).
Proof.
  unfold mutate.
  repeat
    match goal with
    | |- Rearranged _ (fst (swap _ _ _, _)) => apply swap_Rearranged
    | |- Rearranged _ (fst (conflictSwap _ _ _ _ _ _)) =>
        apply conflictSwap_Rearranged
    | |- Rearranged ?l (fst (?l, _)) => apply Rearranged_refl
    | |- context [match ?x with _ => _ end] => destruct x
    end.
Qed.

Section AnnealingFacts.
Variable Math_exp : float -> float.
Variable actions : list (Action.t (N := float_number)).
Variable ctx : FrictionContext.t (N := float_number).
Variable penalties : PenaltyConfig.t (N := float_number).
Variable options : SAOptions.t (N := float_number).

Lemma saStep_Rearranged (initial : Layout) (st : SAState) :
  Rearranged initial (sa_current st) ->
  Rearranged initial (sa_best st) ->
  Rearranged initial (sa_current (saStep Math_exp actions ctx penalties options st))
  /\ Rearranged initial (sa_best (saStep Math_exp actions ctx penalties options st)).
Proof.
  intros Hc Hb. unfold saStep.
  pose proof (mutate_Rearranged (sa_current st)
                (calculateFingerLoads (sa_current st) ctx) actions
                (FrictionContext.keyToFinger ctx) (sa_rng st)) as Hm.
  destruct (mutate _ _ _ _ _) as [neighbor rng]. simpl in Hm.
  assert (Hn : Rearranged initial neighbor) by exact (Rearranged_trans Hc Hm).
  destruct (_ <? 0)%float.
  - destruct (_ <? sa_bestScore st)%float; simpl; split; assumption.
  - destruct (SeededRandom.next rng) as [r rng'].
    destruct (r <? _)%float.
    + destruct (_ <? sa_bestScore st)%float; simpl; split; assumption.
    + simpl. split; assumption.
Qed.

Lemma saStep_temp (st : SAState) :
  sa_temp (saStep Math_exp actions ctx penalties options st)
  = (sa_temp st * SAOptions.coolingRate options)%float.
Proof.
  unfold saStep.
  destruct (mutate _ _ _ _ _) as [neighbor rng].
  destruct (_ <? 0)%float.
  - destruct (_ <? sa_bestScore st)%float; reflexivity.
  - destruct (SeededRandom.next rng) as [r rng'].
    destruct (r <? _)%float; [destruct (_ <? sa_bestScore st)%float|]; reflexivity.
Qed.

Lemma saLoop_Rearranged (initial : Layout) (fuel : nat) (st st' : SAState) :
  Rearranged initial (sa_current st) ->
  Rearranged initial (sa_best st) ->
  saLoop Math_exp fuel actions ctx penalties options st = Some st' ->
  Rearranged initial (sa_best st').
Proof.
  revert st. induction fuel as [|fuel IH]; intros st Hc Hb; cbn [saLoop].
  - destruct (nltb _ _); [discriminate|]. now intros [= <-].
  - destruct (nltb _ _); [|now intros [= <-]].
    destruct (saStep_Rearranged st Hc Hb) as [Hc' Hb']. now apply IH.
Qed.

(** The temperatures of the loop, which nothing else influences:
    [Some] is the temperature the loop ends at. *)
Fixpoint cooling (fuel : nat) (temp : float) : option float :=
if (temp >? SAOptions.minTemp options)%num then
  match fuel with
  | O => None
  | S fuel' => cooling fuel' (temp * SAOptions.coolingRate options)%float
  end
else Some temp.

(** The loop ends when its temperatures do. *)
Lemma saLoop_terminates (fuel : nat) (st : SAState) (temp : float) :
  cooling fuel (sa_temp st) = Some temp ->
  exists st', saLoop Math_exp fuel actions ctx penalties options st = Some st'.
Proof.
  revert st. induction fuel as [|fuel IH]; intros st; cbn [saLoop cooling].
  - destruct (nltb _ _); [discriminate|]. intros _. now exists st.
  - destruct (nltb _ _); [|intros _; now exists st].
    intros Hc. apply IH. now rewrite saStep_temp.
Qed.
Lemma saLoop_returns (fuel : nat) (st : SAState) :
  cooling fuel (sa_temp st) <> None ->
  saLoop Math_exp fuel actions ctx penalties options st <> None.
Proof.
  intros Hc. destruct (cooling fuel (sa_temp st)) as [temp|] eqn:Ht; [|congruence].
  destruct (saLoop_terminates fuel st Ht) as [st' ->]. discriminate.
Qed.
End AnnealingFacts.

(** What [optimizeSA] returns rearranges the warm start. *)
Lemma optimizeSA_Rearranged (Math_exp : float -> float) (now : float) (fuel : nat)
    (actions : list (Action.t (N := float_number)))
    (scoredKeys : list (ScoredKey.t (N := float_number)))
    (fingerConfig : FingerConfigMap (N := float_number))
    (movementConfig : MovementConfig.t)
    (penalties : PenaltyConfig.t (N := float_number))
    (options : SAOptions.t (N := float_number)) (layout : Layout) :
  optimizeSA Math_exp now fuel actions scoredKeys fingerConfig movementConfig
    penalties options = Some layout ->
  Rearranged (generateInitialLayout actions scoredKeys movementConfig fingerConfig)
    layout.
Proof.
  unfold optimizeSA, optimizeSA_run.
  destruct (saLoop _ _ _ _ _ _ _) as [st'|] eqn:Hl; [|discriminate].
  intros [= <-].
  eapply saLoop_Rearranged; [| |exact Hl]; apply Rearranged_refl.
Qed.

(** Two [DIRECTIONAL] actions whose names both contain "forward". *)
Module SharedForward.
Local Existing Instance float_number.
Local Open Scope string_scope.

Definition actions : list Action.t :=
[ TestData.action "MoveForward" 0 DIRECTIONAL 100;
  TestData.action "SprintForward" 0 DIRECTIONAL 80 ].

Definition layout : Layout :=
[("MoveForward", "KeyW"); ("SprintForward", "KeyW")].
End SharedForward.

(** The warm start binds both actions to the positive key of the
    vertical axis. *)
Example generateInitialLayout_shared_key :
  generateInitialLayout SharedForward.actions TestData.keysWASD
    TestData.DEFAULT_MOVEMENT_CONFIG TestData.DEFAULT_FINGER_CONFIG
  = SharedForward.layout.
Proof. vm_compute. reflexivity. Qed.

(** The default options end the loop after 1838 turns. *)
Example cooling_default :
  cooling DEFAULT_SA_OPTIONS 1838 (SAOptions.initialTemp DEFAULT_SA_OPTIONS)
  <> None
  /\ cooling DEFAULT_SA_OPTIONS 1837 (SAOptions.initialTemp DEFAULT_SA_OPTIONS)
     = None.
Proof. vm_compute. split; [discriminate | reflexivity]. Qed.

(** C4, on the failing input: for two [DIRECTIONAL] actions that both
    name "forward", [optimizeSA] with the default penalties and options
    returns, whatever the clock and [Math.exp] are, a layout in which
    both actions have the key [KeyW]: two actions, one distinct key. *)
Theorem optimizeSA_shared_movement_key (Math_exp : float -> float) (now : float) :
  optimizeSA Math_exp now 1838 SharedForward.actions TestData.keysWASD
    TestData.DEFAULT_FINGER_CONFIG TestData.DEFAULT_MOVEMENT_CONFIG
    DEFAULT_PENALTIES DEFAULT_SA_OPTIONS
  = Some SharedForward.layout
  /\ ~ NoDup (JsMap.values SharedForward.layout).
Proof.
  split.
  - destruct (optimizeSA Math_exp now 1838 SharedForward.actions TestData.keysWASD
                TestData.DEFAULT_FINGER_CONFIG TestData.DEFAULT_MOVEMENT_CONFIG
                DEFAULT_PENALTIES DEFAULT_SA_OPTIONS) as [layout|] eqn:Hr.
    + apply optimizeSA_Rearranged in Hr.
      rewrite generateInitialLayout_shared_key in Hr.
      destruct Hr as [Hk Hv]. f_equal.
      destruct layout as [|[a1 k1] [|[a2 k2] [|e layout]]]; try discriminate Hk.
      injection Hk as -> ->.
      assert (H1 : In k1 (JsMap.values SharedForward.layout)).
      { eapply Permutation_in; [exact Hv | now left]. }
      assert (H2 : In k2 (JsMap.values SharedForward.layout)).
      { eapply Permutation_in; [exact Hv | right; now left]. }
      simpl in H1, H2.
      destruct H1 as [<-|[<-|[]]]; destruct H2 as [<-|[<-|[]]]; reflexivity.
    + exfalso. unfold optimizeSA, optimizeSA_run in Hr.
      destruct (saLoop _ _ _ _ _ _ _) as [st'|] eqn:Hs; [discriminate Hr|].
      revert Hs. apply saLoop_returns. vm_compute. discriminate.
  - simpl. intros Hnd. inversion Hnd as [|? ? Hin _]; subst. apply Hin. now left.
Qed.

(** The layouts [optimizeSA] returns have a repeated key only when
    the warm start has one. *)
Lemma optimizeSA_injective (Math_exp : float -> float) (now : float) (fuel : nat)
    (actions : list (Action.t (N := float_number)))
    (scoredKeys : list (ScoredKey.t (N := float_number)))
    (fingerConfig : FingerConfigMap (N := float_number))
    (movementConfig : MovementConfig.t)
    (penalties : PenaltyConfig.t (N := float_number))
    (options : SAOptions.t (N := float_number)) (layout : Layout) :
  optimizeSA Math_exp now fuel actions scoredKeys fingerConfig movementConfig
    penalties options = Some layout ->
  (NoDup (JsMap.values layout)
   <-> NoDup (JsMap.values
                (generateInitialLayout actions scoredKeys movementConfig
                   fingerConfig))).
Proof.
  intros Hr. apply optimizeSA_Rearranged in Hr. destruct Hr as [_ Hp].
  split; apply Permutation_NoDup; [exact Hp | apply Permutation_sym, Hp].
Qed.

(** A stand-in for [Math.exp], to run the loop on examples:
    [(1 + x/1024)^1024]. *)
Definition Math_exp_approx (x : float) : float :=
let y := (1 + x / 1024)%float in
let y := (y * y)%float in let y := (y * y)%float in
let y := (y * y)%float in let y := (y * y)%float in
let y := (y * y)%float in let y := (y * y)%float in
let y := (y * y)%float in let y := (y * y)%float in
let y := (y * y)%float in (y * y)%float.

(** Four actions and the keys around WASD and FGHJ. *)
Module AnnealingExample.
Local Existing Instance float_number.
Local Open Scope string_scope.

Definition actions : list Action.t :=
[ TestData.action "MoveForward" 0 DIRECTIONAL 100;
  TestData.action "Jump" 0 MOVEMENT 60;
  TestData.action "Dash" 0 MOVEMENT 70;
  TestData.action "Fire" 0 COMBAT 100 ].

Definition scoredKeys : list ScoredKey.t :=
FrictionExample.scoredKeys
++ [ TestData.scored "KeyH" 4 RightRing "KeyH" false false;
     TestData.scored "KeyJ" 0 RightPinky "KeyJ" true false ].

(** The default options with a seed. *)
Definition seeded (seed : float) : SAOptions.t :=
SAOptions.mk (lit 1000) (lit (995 # 1000)) (lit (1 # 10)) (Some seed).

Definition run (now : float) (options : SAOptions.t) : option Layout :=
optimizeSA Math_exp_approx now 1838 actions scoredKeys
  TestData.DEFAULT_FINGER_CONFIG TestData.DEFAULT_MOVEMENT_CONFIG
  DEFAULT_PENALTIES options.
End AnnealingExample.

(** A run with a seed. *)
Example optimizeSA_seeded_run :
  AnnealingExample.run 0%float (AnnealingExample.seeded 42%float)
  = Some [("MoveForward", "KeyW"); ("Fire", "KeyA"); ("Dash", "KeyD");
          ("Jump", "KeyS")]%string.
Proof. vm_compute. reflexivity. Qed.

(** Without a seed the clock decides: two runs that differ in nothing
    but [Date.now()] return different layouts. *)
Example optimizeSA_unseeded_runs_differ :
  AnnealingExample.run 5%float DEFAULT_SA_OPTIONS
  <> AnnealingExample.run 7%float DEFAULT_SA_OPTIONS.
Proof. vm_compute. discriminate. Qed.

(** C6: two runs of [optimizeSA] with the same seed, actions, scored
    keys, finger and movement configuration, penalties and options go
    through the same states and return the same layout, whatever the
    clock shows at either run. *)
Theorem optimizeSA_deterministic (Math_exp : float -> float) (now1 now2 : float)
    (fuel : nat) (actions : list (Action.t (N := float_number)))
    (scoredKeys : list (ScoredKey.t (N := float_number)))
    (fingerConfig : FingerConfigMap (N := float_number))
    (movementConfig : MovementConfig.t)
    (penalties : PenaltyConfig.t (N := float_number))
    (options : SAOptions.t (N := float_number)) (seed : float) :
  SAOptions.seed options = Some seed ->
  optimizeSA_run Math_exp now1 fuel actions scoredKeys fingerConfig
    movementConfig penalties options
  = optimizeSA_run Math_exp now2 fuel actions scoredKeys fingerConfig
      movementConfig penalties options
  /\ optimizeSA Math_exp now1 fuel actions scoredKeys fingerConfig
       movementConfig penalties options
     = optimizeSA Math_exp now2 fuel actions scoredKeys fingerConfig
         movementConfig penalties options.
Proof.
  intros Hseed.
  assert (Hrun : optimizeSA_run Math_exp now1 fuel actions scoredKeys fingerConfig
                   movementConfig penalties options
                 = optimizeSA_run Math_exp now2 fuel actions scoredKeys fingerConfig
                     movementConfig penalties options).
  { unfold optimizeSA_run. rewrite Hseed. reflexivity. }
  split; [exact Hrun|]. unfold optimizeSA. now rewrite Hrun.
Qed.

Lemma optimizeSA_deterministic_witness :
  AnnealingExample.run 5%float (AnnealingExample.seeded 42%float)
  = AnnealingExample.run 7%float (AnnealingExample.seeded 42%float).
Proof.
  apply (@optimizeSA_deterministic Math_exp_approx 5%float 7%float 1838
           AnnealingExample.actions AnnealingExample.scoredKeys
           TestData.DEFAULT_FINGER_CONFIG TestData.DEFAULT_MOVEMENT_CONFIG
           DEFAULT_PENALTIES (AnnealingExample.seeded 42%float) 42%float).
  reflexivity.
Defined.

(** ** The seeded generator *)

(** After [next()] the state is an integer of 31 bits, and the value is
    that integer divided by [0x7fffffff]: it is 1 on the state
    [0x7fffffff] itself. *)
Lemma SeededRandom_next_state (this : SeededRandom.t) :
  exists z : Z,
    (0 <= z <= 2147483647)%Z
    /\ SeededRandom.next this
       = ((float_of_Z z / 0x7fffffff)%float, SeededRandom.mk (float_of_Z z)).
Proof.
  unfold SeededRandom.next, and_0x7fffffff.
  exists (Z.land (ToInt32 (SeededRandom.seed this * 1103515245 + 12345)%float)
            0x7fffffff).
  split; [|reflexivity].
  set (x := ToInt32 (SeededRandom.seed this * 1103515245 + 12345)%float).
  assert (Hland : Z.land x 0x7fffffff = (x mod 2147483648)%Z).
  { change 0x7fffffff%Z with (Z.ones 31). now rewrite Z.land_ones by lia. }
  rewrite Hland.
  pose proof (Z.mod_pos_bound x 2147483648 eq_refl) as Hb. lia.
Qed.

(** The seed [2147471302 / 1103515245], about 1.946. *)
Definition seedReachingOne : float := (2147471302 / 1103515245)%float.

(** C10, on the failing input: from the seed [2147471302 / 1103515245]
    the state becomes [0x7fffffff] and [next()] returns 1, which is not
    in [0, 1); [pick] then reads the array at its length and returns
    [undefined], and so does the first component of [pickTwo]. *)
Theorem SeededRandom_next_returns_one :
  SeededRandom.next (SeededRandom.mk seedReachingOne)
  = (1%float, SeededRandom.mk 2147483647%float)
  /\ fst (SeededRandom.pick (SeededRandom.mk seedReachingOne)
            ["a"; "b"; "c"]%string) = None
  /\ fst (SeededRandom.pickTwo (SeededRandom.mk seedReachingOne)
            ["a"; "b"; "c"]%string) = (None, Some "a"%string).
Proof. vm_compute. repeat split. Qed.

(** From an integer seed such as 42 the generator stays in range. *)
Example SeededRandom_pickTwo_42 :
  fst (SeededRandom.pickTwo (SeededRandom.mk 42%float) ["a"; "b"; "c"]%string)
  = (Some "b"%string, Some "c"%string).
Proof. vm_compute. reflexivity. Qed.

(** ** The warm start *)

Section WarmStartFacts.
Local Existing Instance float_number.

(** No key occurs twice in the layout, and its keys are marked used. *)
Definition injectiveSoFar (ws : WarmStart) : Prop :=
NoDup (JsMap.values (ws_layout ws))
/\ forall k, In k (JsMap.values (ws_layout ws)) -> In k (ws_usedKeys ws).

Lemma bind_injectiveSoFar (ws : WarmStart) (actionName keyCode : string)
    (usedActions : JsSet.t string) :
  injectiveSoFar ws -> ~ In keyCode (ws_usedKeys ws) ->
  injectiveSoFar
    (mkWarmStart (JsMap.set (ws_layout ws) actionName keyCode)
       (JsSet.add (ws_usedKeys ws) keyCode) usedActions).
Proof.
  intros [Hnd Hused] Hfree. split; simpl.
  - apply JsMap_set_values_NoDup; [assumption|]. intros Hin. apply Hfree, Hused, Hin.
  - intros k Hk. apply JsSet_add_In. apply JsMap_set_values_In in Hk.
    destruct Hk as [->|Hk]; [now left | right; now apply Hused].
Qed.

Lemma assign_injectiveSoFar (ws : WarmStart) (actionName keyCode : string) :
  injectiveSoFar ws -> ~ In keyCode (ws_usedKeys ws) ->
  injectiveSoFar (assign ws actionName keyCode).
Proof. apply bind_injectiveSoFar. Qed.

Lemma assignExclusiveKeys_injectiveSoFar (nonMovement : list Action.t)
    (exclusiveKeys : list string) (ws : WarmStart) :
  injectiveSoFar ws ->
  injectiveSoFar (assignExclusiveKeys nonMovement exclusiveKeys ws).
Proof.
  revert ws. induction exclusiveKeys as [|k rest IH]; intros ws Hws;
    cbn [assignExclusiveKeys]; [assumption|].
  destruct (JsSet.has (ws_usedKeys ws) k) eqn:Hk; [now apply IH|].
  destruct (find _ nonMovement) as [action|]; [|assumption].
  apply IH, assign_injectiveSoFar; [assumption|]. now apply JsSet_has_false.
Qed.

Lemma assignFirstFree_injectiveSoFar (scoredKeys : list ScoredKey.t)
    (ws : WarmStart) (action : Action.t) :
  injectiveSoFar ws -> injectiveSoFar (assignFirstFree scoredKeys ws action).
Proof.
  intros Hws. unfold assignFirstFree.
  destruct (find _ scoredKeys) as [sk|] eqn:Hf; [|assumption].
  apply find_some in Hf. destruct Hf as [_ Hf].
  apply negb_true_iff, JsSet_has_false in Hf.
  now apply bind_injectiveSoFar.
Qed.

Lemma movementMap_injectiveSoFar (entries : list (string * string))
    (ws : WarmStart) :
  injectiveSoFar ws ->
  NoDup (map snd entries) ->
  (forall e, In e entries -> ~ In (snd e) (ws_usedKeys ws)) ->
  injectiveSoFar
    (fold_left (fun ws (e : string * string) => assign ws (fst e) (snd e))
       entries ws).
Proof.
  revert ws. induction entries as [|e entries IH]; intros ws Hws Hnd Hfree;
    cbn [fold_left]; [assumption|].
  inversion Hnd as [|? ? Hne Hnd']; subst.
  apply IH; [|assumption|].
  - apply assign_injectiveSoFar; [assumption|]. apply Hfree. now left.
  - intros e' He' Hin. simpl in Hin. apply JsSet_add_In in Hin.
    destruct Hin as [Heq|Hin].
    + apply Hne. rewrite <- Heq. now apply in_map.
    + revert Hin. apply Hfree. now right.
Qed.

Lemma exclusiveFingers_injectiveSoFar (nonMovement : list Action.t)
    (fingerConfig : FingerConfigMap) (ws : WarmStart) :
  injectiveSoFar ws ->
  injectiveSoFar
    (fold_left
       (fun ws (e : Finger * FingerConfig.t) =>
          match FingerConfig.exclusiveKeys (snd e) with
          | Some (k :: ks) => assignExclusiveKeys nonMovement (k :: ks) ws
          | _ => ws
          end)
       fingerConfig ws).
Proof.
  revert ws. induction fingerConfig as [|[f c] rest IH]; intros ws Hws;
    cbn [fold_left]; [assumption|].
  apply IH. cbn [snd].
  destruct (FingerConfig.exclusiveKeys c) as [[|k ks]|]; try assumption.
  now apply assignExclusiveKeys_injectiveSoFar.
Qed.

Lemma remaining_injectiveSoFar (scoredKeys : list ScoredKey.t)
    (remaining : list Action.t) (ws : WarmStart) :
  injectiveSoFar ws ->
  injectiveSoFar (fold_left (assignFirstFree scoredKeys) remaining ws).
Proof.
  revert ws. induction remaining as [|a rest IH]; intros ws Hws; cbn [fold_left];
    [assumption|].
  apply IH. now apply assignFirstFree_injectiveSoFar.
Qed.

(** When the movement actions have distinct keys, so have all actions
    of the warm start. *)
Lemma generateInitialLayout_injective (actions : list Action.t)
    (scoredKeys : list ScoredKey.t) (movementConfig : MovementConfig.t)
    (fingerConfig : FingerConfigMap) :
  NoDup (JsMap.values (buildMovementActionMap actions movementConfig)) ->
  NoDup (JsMap.values
           (generateInitialLayout actions scoredKeys movementConfig fingerConfig)).
Proof.
  intros Hnd. unfold generateInitialLayout.
  apply remaining_injectiveSoFar, exclusiveFingers_injectiveSoFar.
  apply movementMap_injectiveSoFar; [|exact Hnd|].
  - split; [constructor | intros k []].
  - intros e _ [].
Qed.
End WarmStartFacts.

(** When distinct [DIRECTIONAL] actions resolve to distinct keys, every
    layout [optimizeSA] returns is injective. *)
Lemma optimizeSA_injective_when_movement_keys_differ
    (Math_exp : float -> float) (now : float) (fuel : nat)
    (actions : list (Action.t (N := float_number)))
    (scoredKeys : list (ScoredKey.t (N := float_number)))
    (fingerConfig : FingerConfigMap (N := float_number))
    (movementConfig : MovementConfig.t)
    (penalties : PenaltyConfig.t (N := float_number))
    (options : SAOptions.t (N := float_number)) (layout : Layout) :
  NoDup (JsMap.values (buildMovementActionMap actions movementConfig)) ->
  optimizeSA Math_exp now fuel actions scoredKeys fingerConfig movementConfig
    penalties options = Some layout ->
  NoDup (JsMap.values layout).
Proof.
  intros Hnd Hr. apply (optimizeSA_injective _ _ _ _ _ _ _ _ _ Hr).
  now apply generateInitialLayout_injective.
Qed.

(* ================================================================= *)
(** * Further properties of the code *)

(** ** Maps built entry by entry *)

Section JsMapBuildFacts.
Context {K V A : Type} `{KeyEq K}.
Variable f : A -> K.
Variable g : A -> V.

Lemma find_app_last (p : A -> bool) (l : list A) (x : A) :
  find p (l ++ [x])
  = match find p l with
    | Some y => Some y
    | None => if p x then Some x else None
    end.
Proof.
  induction l as [|y l IH]; simpl; [reflexivity|].
  destruct (p y); [reflexivity | exact IH].
Qed.

(** A lookup in a map filled in a loop finds the last element of the
    loop that wrote the key. *)
Lemma JsMap_fold_set_last (l : list A) (m : JsMap.t K V) (k : K) :
  JsMap.get (fold_left (fun m x => JsMap.set m (f x) (g x)) l m) k
  = match find (fun x => keqb (f x) k) (rev l) with
    | Some x => Some (g x)
    | None => JsMap.get m k
    end.
Proof.
  revert m. induction l as [|x l IH]; intros m; simpl; [reflexivity|].
  rewrite IH, find_app_last, JsMap_get_set.
  destruct (find _ (rev l)); [reflexivity|].
  destruct (keqb (f x) k); reflexivity.
Qed.

Lemma JsMap_of_entries_map (l : list A) (m : JsMap.t K V) :
  fold_left (fun m (e : K * V) => JsMap.set m (fst e) (snd e))
    (map (fun x => (f x, g x)) l) m
  = fold_left (fun m x => JsMap.set m (f x) (g x)) l m.
Proof.
  revert m. induction l as [|x l IH]; intros m; simpl; [reflexivity|]. apply IH.
Qed.
End JsMapBuildFacts.

(** ** [geometry.ts] *)

(** [buildKeyMap] maps a code to the last key definition of the list
    that has this code, and to [undefined] when there is none. *)
Theorem buildKeyMap_last_definition {N : JsNumber} (keys : list KeyDef.t)
    (c : string) :
  JsMap.get (buildKeyMap keys) c
  = find (fun k => String.eqb (KeyDef.code k) c) (rev keys).
Proof.
  unfold buildKeyMap, JsMap.of_entries.
  rewrite (JsMap_of_entries_map (fun k => KeyDef.code k) (fun k => k)).
  rewrite JsMap_fold_set_last. simpl.
  destruct (find _ (rev keys)); reflexivity.
Qed.

(** With exact arithmetic the distance lookup does not depend on the
    order of its two keys. *)
Theorem getDistance_symmetric {N : JsNumber} {E : ExactArithmetic N}
    (this : Optimizer.t) (key1Id key2Id : string) :
  toR (getDistance this key1Id key2Id) = toR (getDistance this key2Id key1Id).
Proof.
  unfold getDistance.
  destruct (JsMap.get (Optimizer.keyMap this) key1Id) as [key1|];
    destruct (JsMap.get (Optimizer.keyMap this) key2Id) as [key2|];
    try reflexivity.
  unfold keyDistance. rewrite (String.eqb_sym (KeyDef.code key2)).
  destruct (String.eqb _ _); [reflexivity|].
  unfold euclidean. rewrite !toR_sqrt, !toR_add, !toR_mul, !toR_sub.
  f_equal. ring.
Qed.

(** ** [Array.prototype.sort] on a numeric key, under exact arithmetic *)

Section ArraySortExact.
Context {N : JsNumber} {E : ExactArithmetic N} {A : Type}.
Variable cmp : A -> A -> num.

(** The comparator is the difference of a rank. *)
Variable rank : A -> R.
Hypothesis cmp_rank : forall a b, toR (cmp a b) = (rank a - rank b)%R.

Definition byRank (a b : A) : Prop := (rank a <= rank b)%R.

Lemma sort_insert_sorted (x : A) (l : list A) :
  StronglySorted byRank l -> StronglySorted byRank (sort_insert cmp x l).
Proof.
  induction l as [|y l IH]; simpl; intros Hs.
  - constructor; constructor.
  - inversion Hs as [|? ? Hl Hy]; subst.
    destruct (cmp x y >? lit 0)%num eqn:Hc.
    + apply toR_ltb in Hc. rewrite toR_zero, cmp_rank in Hc.
      constructor; [now apply IH|].
      apply Forall_forall. intros z Hz.
      apply (Permutation_in _ (sort_insert_perm cmp x l)) in Hz.
      destruct Hz as [<-|Hz].
      * unfold byRank. lra.
      * rewrite Forall_forall in Hy. now apply Hy.
    + apply toR_ltb_false in Hc. rewrite toR_zero, cmp_rank in Hc.
      constructor; [assumption|].
      constructor; [unfold byRank; lra|].
      apply Forall_forall. intros z Hz. rewrite Forall_forall in Hy.
      specialize (Hy z Hz). unfold byRank in *. lra.
Qed.

Lemma Array_sort_sorted (l : list A) : StronglySorted byRank (Array_sort cmp l).
Proof.
  unfold Array_sort. induction l as [|x l IH]; simpl.
  - constructor.
  - now apply sort_insert_sorted.
Qed.

(** The sort is stable: elements of one rank keep their order. *)
Lemma sort_insert_stable (p : A -> bool) (x : A) (l : list A) :
  (forall a b, p a = true -> p b = true -> rank a = rank b) ->
  filter p (sort_insert cmp x l) = filter p (x :: l).
Proof.
  intros Hp. induction l as [|y l IH]; [reflexivity|].
  cbn [sort_insert]. destruct (cmp x y >? lit 0)%num eqn:Hc; [|reflexivity].
  apply toR_ltb in Hc. rewrite toR_zero, cmp_rank in Hc.
  cbn [filter] in *. rewrite IH.
  destruct (p x) eqn:Hx; [|reflexivity].
  destruct (p y) eqn:Hy; [|reflexivity].
  pose proof (Hp x y Hx Hy). lra.
Qed.

Lemma Array_sort_stable (p : A -> bool) (l : list A) :
  (forall a b, p a = true -> p b = true -> rank a = rank b) ->
  filter p (Array_sort cmp l) = filter p l.
Proof.
  intros Hp. unfold Array_sort. induction l as [|x l IH]; [reflexivity|].
  cbn [fold_right]. rewrite (sort_insert_stable p x _ Hp).
  cbn [filter]. now rewrite IH.
Qed.

(** The first element of the sorted array has the least rank. *)
Lemma Array_sort_head (l : list A) (x : A) :
  hd_error (Array_sort cmp l) = Some x ->
  In x l /\ forall y, In y l -> (rank x <= rank y)%R.
Proof.
  intros Hh. pose proof (Array_sort_sorted l) as Hs.
  destruct (Array_sort cmp l) as [|x' s] eqn:Es; [discriminate|].
  injection Hh as ->.
  split.
  - apply (Array_sort_In cmp). rewrite Es. now left.
  - intros y Hy. apply (Array_sort_In cmp) in Hy. rewrite Es in Hy.
    inversion Hs as [|? ? _ Hall]; subst.
    destruct Hy as [<-|Hy]; [lra|].
    rewrite Forall_forall in Hall. now apply Hall.
Qed.
End ArraySortExact.

(** ** The key scorer *)

(** [getPrioritizedKeyList] rearranges the scored keys in ascending
    order of their score; keys of one score keep their order. *)
Theorem getPrioritizedKeyList_ascending {N : JsNumber} {E : ExactArithmetic N}
    (scoredKeys : list ScoredKey.t) :
  Permutation (getPrioritizedKeyList scoredKeys) scoredKeys
  /\ StronglySorted
       (fun a b => (toR (ScoredKey.totalScore a) <= toR (ScoredKey.totalScore b))%R)
       (getPrioritizedKeyList scoredKeys)
  /\ forall score,
       filter (fun k => (ScoredKey.totalScore k =? score)%num)
         (getPrioritizedKeyList scoredKeys)
       = filter (fun k => (ScoredKey.totalScore k =? score)%num) scoredKeys.
Proof.
  unfold getPrioritizedKeyList.
  assert (Hc : forall a b : ScoredKey.t,
             toR (ScoredKey.totalScore a - ScoredKey.totalScore b)%num
             = (toR (ScoredKey.totalScore a) - toR (ScoredKey.totalScore b))%R)
    by (intros; apply toR_sub).
  split; [apply Array_sort_perm|]. split.
  - exact (Array_sort_sorted _ (fun k => toR (ScoredKey.totalScore k)) Hc scoredKeys).
  - intros score.
    apply (Array_sort_stable _ (fun k => toR (ScoredKey.totalScore k)) Hc).
    intros a b Ha Hb. apply toR_eqb in Ha, Hb. congruence.
Qed.

(** [sortActionsByFrequency] rearranges the actions in descending order
    of their frequency; actions of one frequency keep their order. *)
Theorem sortActionsByFrequency_descending {N : JsNumber}
    {E : ExactArithmetic N} (actions : list Action.t) :
  Permutation (sortActionsByFrequency actions) actions
  /\ StronglySorted
       (fun a b => (toR (Action.useFrequency b) <= toR (Action.useFrequency a))%R)
       (sortActionsByFrequency actions)
  /\ forall frequency,
       filter (fun a => (Action.useFrequency a =? frequency)%num)
         (sortActionsByFrequency actions)
       = filter (fun a => (Action.useFrequency a =? frequency)%num) actions.
Proof.
  unfold sortActionsByFrequency.
  assert (Hc : forall a b : Action.t,
             toR (Action.useFrequency b - Action.useFrequency a)%num
             = (- toR (Action.useFrequency a) - - toR (Action.useFrequency b))%R)
    by (intros; rewrite toR_sub; lra).
  split; [apply Array_sort_perm|]. split.
  - pose proof (Array_sort_sorted _ (fun a => (- toR (Action.useFrequency a))%R)
                  Hc actions) as Hs.
    eapply StronglySorted_ind with (P := fun l => StronglySorted _ l);
      [constructor | | exact Hs].
    intros a l _ IH Hall. constructor; [exact IH|].
    eapply Forall_impl; [|exact Hall]. intros b Hb. unfold byRank in Hb. lra.
  - intros frequency.
    apply (Array_sort_stable _ (fun a => (- toR (Action.useFrequency a))%R) Hc).
    intros a b Ha Hb. apply toR_eqb in Ha, Hb. congruence.
Qed.

Section ScorerDiscipline.
Context {N : JsNumber}.
Variable this : Optimizer.t.
Variable keyCode : string.

(** How a finger comes to be returned for a key: the key is one of its
    exclusive keys, or the finger has no exclusive keys at all. *)
Definition mayUse (config : FingerConfig.t) : Prop :=
  isExclusiveTo config keyCode = true \/ hasExclusiveKeys config = false.

Lemma exclusiveSearch_owner (entries : FingerConfigMap) (r : Closest.t) :
  exclusiveSearch this keyCode entries = Some r ->
  exists config,
    In (Closest.finger r, config) entries
    /\ Closest.originKey r = FingerConfig.restingKey config
    /\ isExclusiveTo config keyCode = true.
Proof.
  induction entries as [|[finger config] rest IH]; simpl; [discriminate|].
  destruct (isExclusiveTo config keyCode) eqn:Hx; simpl.
  - destruct (String.eqb keyCode (FingerConfig.restingKey config)).
    + intros [= <-]. exists config. simpl. auto.
    + destruct (_ =? NOT_FOUND)%num.
      * intros Hr. destruct (IH Hr) as [c [Hin Hc]]. exists c. split; [now right | exact Hc].
      * intros [= <-]. exists config. simpl. auto.
  - intros Hr. destruct (IH Hr) as [c [Hin Hc]]. exists c. split; [now right | exact Hc].
Qed.

Lemma normalSearch_free (entries : FingerConfigMap) (best : option Closest.t)
    (r : Closest.t) :
  normalSearch this keyCode entries best = Some r ->
  best = Some r
  \/ exists config,
       In (Closest.finger r, config) entries
       /\ Closest.originKey r = FingerConfig.restingKey config
       /\ hasExclusiveKeys config = false.
Proof.
  revert best. induction entries as [|[finger config] rest IH]; intros best; simpl.
  - intros ->. now left.
  - assert (Hrest : forall b, normalSearch this keyCode rest b = Some r ->
              b = Some r
              \/ exists c, In (Closest.finger r, c) ((finger, config) :: rest)
                           /\ Closest.originKey r = FingerConfig.restingKey c
                           /\ hasExclusiveKeys c = false).
    { intros b Hb. destruct (IH b Hb) as [->|[c [Hin Hc]]]; [now left|].
      right. exists c. split; [now right | exact Hc]. }
    destruct (hasExclusiveKeys config) eqn:Hx; [apply Hrest|].
    destruct (String.eqb keyCode (FingerConfig.restingKey config)).
    + intros [= <-]. right. exists config. simpl. auto.
    + destruct (_ =? NOT_FOUND)%num; [apply Hrest|].
      match goal with |- context [if ?c then _ else _] => destruct c end;
        [|apply Hrest].
      intros Hb. destruct (Hrest _ Hb) as [[= <-]|Hc]; [|now right].
      right. exists config. simpl. auto.
Qed.

Lemma findClosestRestingFinger_mayUse (fingerConfig : FingerConfigMap)
    (r : Closest.t) :
  findClosestRestingFinger this keyCode fingerConfig = Some r ->
  exists config,
    In (Closest.finger r, config) fingerConfig
    /\ Closest.originKey r = FingerConfig.restingKey config
    /\ mayUse config.
Proof.
  unfold findClosestRestingFinger, mayUse.
  destruct (exclusiveSearch this keyCode fingerConfig) as [e|] eqn:He.
  - intros [= <-]. apply exclusiveSearch_owner in He.
    destruct He as [c [Hin [Ho Hx]]]. exists c. auto.
  - intros Hn. apply normalSearch_free in Hn.
    destruct Hn as [Hn|[c [Hin [Ho Hx]]]]; [discriminate|]. exists c. auto.
Qed.

(** The resting key of a finger without exclusive keys ends the normal
    search at once. *)
Lemma normalSearch_resting (entries : FingerConfigMap) (best : option Closest.t)
    (finger : Finger) (config : FingerConfig.t) :
  find (fun entry : Finger * FingerConfig.t =>
          negb (hasExclusiveKeys (snd entry))
          && String.eqb keyCode (FingerConfig.restingKey (snd entry)))
       entries
  = Some (finger, config) ->
  normalSearch this keyCode entries best
  = Some (Closest.mk finger (FingerConfig.restingKey config)
            (keyPenalty config keyCode)).
Proof.
  revert best. induction entries as [|[f c] rest IH]; intros best; simpl;
    [discriminate|].
  destruct (hasExclusiveKeys c); simpl; [apply IH|].
  destruct (String.eqb keyCode (FingerConfig.restingKey c)).
  - now intros [= <- <-].
  - intros Hf. destruct (_ =? NOT_FOUND)%num; [now apply IH|].
    match goal with |- context [if ?c then _ else _] => destruct c end;
      now apply IH.
Qed.
End ScorerDiscipline.

(** A finger that has exclusive keys is returned for its exclusive keys
    only: the finger [findClosestRestingFinger] returns for a key is
    configured, the origin is its resting key, and either the key is in
    its list of exclusive keys or that list is absent or empty. *)
Theorem findClosestRestingFinger_exclusive_fingers {N : JsNumber}
    (this : Optimizer.t) (keyCode : string) (fingerConfig : FingerConfigMap)
    (r : Closest.t) :
  findClosestRestingFinger this keyCode fingerConfig = Some r ->
  exists config,
    In (Closest.finger r, config) fingerConfig
    /\ Closest.originKey r = FingerConfig.restingKey config
    /\ (isExclusiveTo config keyCode = true \/ hasExclusiveKeys config = false).
Proof. apply findClosestRestingFinger_mayUse. Qed.

Lemma findClosestRestingFinger_exclusive_fingers_witness :
  exists config,
    In (LeftIndex, config) strayRestingKey
    /\ "MouseLeft"%string = FingerConfig.restingKey config
    /\ (isExclusiveTo config "Mouse5" = true \/ hasExclusiveKeys config = false).
Proof.
  apply (@findClosestRestingFinger_exclusive_fingers float_number Optimizer_new
           "Mouse5" strayRestingKey
           (@Closest.mk float_number LeftIndex "MouseLeft" (PrimFloat.sqrt 80))).
  vm_compute. reflexivity.
Defined.

(** A key that is the resting key of a finger without exclusive keys,
    and that no finger owns exclusively, is scored for the first such
    finger at the penalty of the key (0 by default), whatever its
    distances to the other fingers are. *)
Theorem findClosestRestingFinger_resting_key {N : JsNumber}
    (this : Optimizer.t) (keyCode : string) (fingerConfig : FingerConfigMap)
    (finger : Finger) (config : FingerConfig.t) :
  exclusiveSearch this keyCode fingerConfig = None ->
  find (fun entry : Finger * FingerConfig.t =>
          negb (hasExclusiveKeys (snd entry))
          && String.eqb keyCode (FingerConfig.restingKey (snd entry)))
       fingerConfig
  = Some (finger, config) ->
  findClosestRestingFinger this keyCode fingerConfig
  = Some (Closest.mk finger (FingerConfig.restingKey config)
            (keyPenalty config keyCode)).
Proof.
  intros He Hf. unfold findClosestRestingFinger. rewrite He.
  now apply normalSearch_resting.
Qed.

Lemma findClosestRestingFinger_resting_key_witness :
  findClosestRestingFinger Optimizer_new "KeyD" WASD_FINGER_CONFIG
  = Some (Closest.mk LeftIndex "KeyD" 0%float).
Proof.
  apply (@findClosestRestingFinger_resting_key float_number Optimizer_new "KeyD"
           WASD_FINGER_CONFIG LeftIndex (TestData.finger "KeyD" 12)).
  - vm_compute. reflexivity.
  - vm_compute. reflexivity.
Defined.

(** [scoreKeys] keeps the order of the key codes and drops exactly the
    codes no finger can be measured for; a scored key is flagged as a
    movement key when the set has it and as a resting key when its
    score is 0, and it names a configured finger, that finger's resting
    key as origin, and never a finger whose exclusive keys leave it out. *)
Theorem scoreKeys_entries {N : JsNumber} (this : Optimizer.t)
    (fingerConfig : FingerConfigMap) (movementKeys : JsSet.t string)
    (allKeyCodes : list string) :
  map ScoredKey.code (scoreKeys this fingerConfig movementKeys allKeyCodes)
  = filter
      (fun c =>
         match findClosestRestingFinger this c fingerConfig with
         | Some _ => true
         | None => false
         end)
      allKeyCodes
  /\ forall sk,
       In sk (scoreKeys this fingerConfig movementKeys allKeyCodes) ->
       ScoredKey.isMovement sk = JsSet.has movementKeys (ScoredKey.code sk)
       /\ ScoredKey.isRestingKey sk = (ScoredKey.totalScore sk =? lit 0)%num
       /\ exists config,
            In (ScoredKey.bestFinger sk, config) fingerConfig
            /\ ScoredKey.originKey sk = FingerConfig.restingKey config
            /\ (isExclusiveTo config (ScoredKey.code sk) = true
                \/ hasExclusiveKeys config = false).
Proof.
  unfold scoreKeys, scoreKey. split.
  - induction allKeyCodes as [|c codes IH]; [reflexivity|].
    cbn [flat_map filter].
    destruct (findClosestRestingFinger this c fingerConfig); simpl; now rewrite IH.
  - intros sk Hsk. apply in_flat_map in Hsk. destruct Hsk as [c [_ Hsk]].
    destruct (findClosestRestingFinger this c fingerConfig) as [r|] eqn:Hr;
      [|contradiction].
    destruct Hsk as [<-|[]]. simpl.
    split; [reflexivity|]. split; [reflexivity|].
    eapply findClosestRestingFinger_mayUse, Hr.
Qed.

(** ** The normal search, under exact arithmetic *)

Section NormalSearchExact.
Context {N : JsNumber} {E : ExactArithmetic N}.
Variable this : Optimizer.t.
Variable keyCode : string.

(** The key is the resting key of no finger without exclusive keys. *)
Definition restsNowhere (entries : FingerConfigMap) : Prop :=
  forall f c, In (f, c) entries -> hasExclusiveKeys c = false ->
              keyCode <> FingerConfig.restingKey c.

Lemma restsNowhere_tail (e : Finger * FingerConfig.t) (entries : FingerConfigMap) :
  restsNowhere (e :: entries) -> restsNowhere entries.
Proof. unfold restsNowhere. intros Hr f c Hin. apply (Hr f c). now right. Qed.

Lemma normalSearch_improves (entries : FingerConfigMap) (b : Closest.t) :
  restsNowhere entries ->
  exists r,
    normalSearch this keyCode entries (Some b) = Some r
    /\ (toR (Closest.distance r) <= toR (Closest.distance b))%R.
Proof.
  revert b. induction entries as [|[f c] rest IH]; intros b Hr; simpl.
  - exists b. split; [reflexivity | lra].
  - pose proof (restsNowhere_tail Hr) as Hr'.
    destruct (hasExclusiveKeys c) eqn:Hx; [now apply IH|].
    destruct (String.eqb keyCode (FingerConfig.restingKey c)) eqn:Ek.
    { apply String.eqb_eq in Ek. exfalso. apply (Hr f c); auto. now left. }
    destruct (_ =? NOT_FOUND)%num; [now apply IH|].
    destruct (_ <? Closest.distance b)%num eqn:Hlt; [|now apply IH].
    apply toR_ltb in Hlt.
    destruct (IH (Closest.mk f (FingerConfig.restingKey c)
                    (getDistance this keyCode (FingerConfig.restingKey c)
                     + keyPenalty c keyCode)%num) Hr') as [r [Hn Hle]].
    exists r. split; [exact Hn|]. simpl in Hle. lra.
Qed.

Lemma normalSearch_least (entries : FingerConfigMap) (best : option Closest.t)
    (finger : Finger) (config : FingerConfig.t) :
  restsNowhere entries ->
  In (finger, config) entries ->
  hasExclusiveKeys config = false ->
  (getDistance this keyCode (FingerConfig.restingKey config) =? NOT_FOUND)%num
  = false ->
  exists r,
    normalSearch this keyCode entries best = Some r
    /\ (toR (Closest.distance r)
        <= toR (getDistance this keyCode (FingerConfig.restingKey config)
                + keyPenalty config keyCode)%num)%R.
Proof.
  revert best. induction entries as [|[f c] rest IH]; intros best Hr Hin Hx Hd;
    [contradiction|].
  pose proof (restsNowhere_tail Hr) as Hr'.
  destruct Hin as [[= -> ->]|Hin].
  - simpl. rewrite Hx.
    destruct (String.eqb keyCode (FingerConfig.restingKey config)) eqn:Ek.
    { apply String.eqb_eq in Ek. exfalso. apply (Hr finger config); auto. now left. }
    rewrite Hd.
    set (mine := Closest.mk finger (FingerConfig.restingKey config)
                   (getDistance this keyCode (FingerConfig.restingKey config)
                    + keyPenalty config keyCode)%num).
    destruct best as [b|].
    + destruct (_ <? Closest.distance b)%num eqn:Hlt.
      * destruct (normalSearch_improves mine Hr') as [r [Hn Hle]].
        exists r. split; [exact Hn | exact Hle].
      * apply toR_ltb_false in Hlt.
        destruct (normalSearch_improves b Hr') as [r [Hn Hle]].
        exists r. split; [exact Hn | lra].
    + destruct (normalSearch_improves mine Hr') as [r [Hn Hle]].
      exists r. split; [exact Hn | exact Hle].
  - simpl.
    destruct (hasExclusiveKeys c) eqn:Hxc; [now apply IH|].
    destruct (String.eqb keyCode (FingerConfig.restingKey c)) eqn:Ek.
    { apply String.eqb_eq in Ek. exfalso. apply (Hr f c); auto. now left. }
    destruct (getDistance this keyCode (FingerConfig.restingKey c) =? NOT_FOUND)%num;
      [now apply IH|].
    match goal with |- context [if ?c then _ else _] => destruct c end;
      now apply IH.
Qed.
End NormalSearchExact.

(** With exact arithmetic, a key that no finger owns exclusively and
    that is no resting key is scored at the least cost (distance to the
    resting key plus penalty) over the fingers without exclusive keys
    that can measure it. *)
Theorem findClosestRestingFinger_least_cost {N : JsNumber}
    {E : ExactArithmetic N} (this : Optimizer.t) (keyCode : string)
    (fingerConfig : FingerConfigMap) (finger : Finger)
    (config : FingerConfig.t) :
  exclusiveSearch this keyCode fingerConfig = None ->
  (forall f c, In (f, c) fingerConfig -> hasExclusiveKeys c = false ->
               keyCode <> FingerConfig.restingKey c) ->
  In (finger, config) fingerConfig ->
  hasExclusiveKeys config = false ->
  (getDistance this keyCode (FingerConfig.restingKey config) =? NOT_FOUND)%num
  = false ->
  exists r,
    findClosestRestingFinger this keyCode fingerConfig = Some r
    /\ (toR (Closest.distance r)
        <= toR (getDistance this keyCode (FingerConfig.restingKey config)
                + keyPenalty config keyCode)%num)%R.
Proof.
  intros He Hr Hin Hx Hd. unfold findClosestRestingFinger. rewrite He.
  exact (@normalSearch_least N E this keyCode fingerConfig None finger config
           Hr Hin Hx Hd).
Qed.

(** Two keys and two fingers, in exact arithmetic. *)
Module ExactScorer.
Local Open Scope string_scope.

Definition this : Optimizer.t (N := R_number) :=
  Optimizer_of (N := R_number)
    [key (N := R_number) "KeyF" 19 8 4; key (N := R_number) "KeyG" 23 8 4;
     key (N := R_number) "KeyH" 27 8 4].

Definition index : FingerConfig.t (N := R_number) :=
  FingerConfig.mk (N := R_number) "KeyF" 12%R None None.

Definition ring : FingerConfig.t (N := R_number) :=
  FingerConfig.mk (N := R_number) "KeyH" 12%R None None.

Definition fingerConfig : FingerConfigMap (N := R_number) :=
  [(RightIndex, index); (RightRing, ring)].
End ExactScorer.

Lemma findClosestRestingFinger_least_cost_witness :
  exists r,
    findClosestRestingFinger (N := R_number) ExactScorer.this "KeyG"
      ExactScorer.fingerConfig = Some r
    /\ (toR (ExactArithmetic := R_exact) (Closest.distance r)
        <= toR (ExactArithmetic := R_exact)
             (getDistance (N := R_number) ExactScorer.this "KeyG" "KeyH"
              + keyPenalty ExactScorer.ring "KeyG")%num)%R.
Proof.
  apply (@findClosestRestingFinger_least_cost R_number R_exact ExactScorer.this
           "KeyG" ExactScorer.fingerConfig RightRing ExactScorer.ring).
  - reflexivity.
  - intros f c [[= <- <-]|[[= <- <-]|[]]] _; discriminate.
  - right. now left.
  - reflexivity.
  - apply not_true_is_false. intros Heq. apply R_exact_laws_eqb in Heq.
    revert Heq.
    cbv -[Rplus Rmult Rminus Rdiv Rlt Rle IZR Rinv Q2R R_sqrt.sqrt].
    unfold Q2R. simpl. intros Heq.
    match type of Heq with R_sqrt.sqrt ?x = _ => pose proof (sqrt_pos x) end.
    lra.
Defined.

(** ** The radius sweep, in every number system *)

Lemma sweep_sound {N : JsNumber} (center : Point.t) (maxDistance : num)
    (excludeCode : option string) (keys : list KeyDef.t) (n : Neighbor.t) :
  In n (sweep center maxDistance excludeCode keys) ->
  exists k,
    In k keys
    /\ n = Neighbor.mk (KeyDef.code k) (euclidean center (getKeyCenter k))
    /\ isExcluded excludeCode (KeyDef.code k) = false
    /\ (euclidean center (getKeyCenter k) >? maxDistance)%num = false
    /\ (Point.x (getKeyCenter k) <? Point.x center - maxDistance)%num = false
    /\ (Point.x (getKeyCenter k) >? Point.x center + maxDistance)%num = false
    /\ (nabs (Point.y (getKeyCenter k) - Point.y center) >? maxDistance)%num = false.
Proof.
  induction keys as [|k keys IH]; cbn [sweep]; [contradiction|].
  assert (Hrest : In n (sweep center maxDistance excludeCode keys) ->
                  exists k', In k' (k :: keys)
                    /\ n = Neighbor.mk (KeyDef.code k') (euclidean center (getKeyCenter k'))
                    /\ isExcluded excludeCode (KeyDef.code k') = false
                    /\ (euclidean center (getKeyCenter k') >? maxDistance)%num = false
                    /\ (Point.x (getKeyCenter k') <? Point.x center - maxDistance)%num = false
                    /\ (Point.x (getKeyCenter k') >? Point.x center + maxDistance)%num = false
                    /\ (nabs (Point.y (getKeyCenter k') - Point.y center) >? maxDistance)%num = false).
  { intros Hn. destruct (IH Hn) as [k' [Hin Hk']]. exists k'. split; [now right | exact Hk']. }
  destruct (Point.x (getKeyCenter k) <? Point.x center - maxDistance)%num eqn:Hleft;
    [exact Hrest|].
  destruct (Point.x (getKeyCenter k) >? Point.x center + maxDistance)%num eqn:Hright;
    [contradiction|].
  destruct (nabs (Point.y (getKeyCenter k) - Point.y center) >? maxDistance)%num eqn:Hrow;
    [exact Hrest|].
  destruct (isExcluded excludeCode (KeyDef.code k)) eqn:Hex; [exact Hrest|].
  destruct (euclidean center (getKeyCenter k) >? maxDistance)%num eqn:Hd;
    [exact Hrest|].
  intros [<-|Hn]; [|now apply Hrest].
  exists k. split; [now left|]. repeat split; assumption.
Qed.

(** [getNearbyKeys] returns nothing for an unknown key; every neighbour
    it returns for a known key is another key of the optimizer, with the
    distance between the two centres, which is not above the radius. *)
Theorem getNearbyKeys_sound {N : JsNumber} (this : Optimizer.t)
    (targetKeyId : string) (maxDistance : num) :
  (JsMap.get (Optimizer.keyMap this) targetKeyId = None ->
   getNearbyKeys this targetKeyId maxDistance = [])
  /\ forall n,
       In n (getNearbyKeys this targetKeyId maxDistance) ->
       Neighbor.key n <> targetKeyId
       /\ (Neighbor.distance n >? maxDistance)%num = false
       /\ exists targetKey k,
            JsMap.get (Optimizer.keyMap this) targetKeyId = Some targetKey
            /\ In k (Optimizer.sortedKeysX this)
            /\ Neighbor.key n = KeyDef.code k
            /\ Neighbor.distance n
               = euclidean (getKeyCenter targetKey) (getKeyCenter k).
Proof.
  unfold getNearbyKeys, findKeysWithinRadius.
  destruct (JsMap.get (Optimizer.keyMap this) targetKeyId) as [targetKey|].
  - split; [discriminate|]. intros n Hn. apply sweep_sound in Hn.
    destruct Hn as [k [Hin [-> [Hex [Hd _]]]]]. simpl in *.
    split; [now apply String.eqb_neq|]. split; [exact Hd|].
    exists targetKey, k. auto.
  - split; [reflexivity | intros n []].
Qed.

(** ** The greedy allocator: order of the bindings *)

(** [l] is [l'] with some elements left out. *)
Inductive Subsequence {A : Type} : list A -> list A -> Prop :=
| Subsequence_nil : Subsequence [] []
| Subsequence_skip x l l' : Subsequence l l' -> Subsequence l (x :: l')
| Subsequence_keep x l l' : Subsequence l l' -> Subsequence (x :: l) (x :: l').

Lemma Subsequence_In {A : Type} (l l' : list A) (x : A) :
  Subsequence l l' -> In x l -> In x l'.
Proof.
  induction 1 as [|y l l' _ IH|y l l' _ IH]; simpl; [tauto | auto |].
  intros [->|Hx]; auto.
Qed.

Lemma Subsequence_length {A : Type} (l l' : list A) :
  Subsequence l l' -> (List.length l <= List.length l')%nat.
Proof. induction 1; simpl; lia. Qed.

Lemma Subsequence_NoDup {A : Type} (l l' : list A) :
  Subsequence l l' -> NoDup l' -> NoDup l.
Proof.
  induction 1 as [|y l l' _ IH|y l l' Hs IH]; intros Hnd.
  - constructor.
  - inversion Hnd; subst. now apply IH.
  - inversion Hnd as [|? ? Hy Hnd']; subst. constructor; [|now apply IH].
    intros Hin. apply Hy. eapply Subsequence_In; eassumption.
Qed.

Lemma NoDup_map_injective {A B : Type} (f : A -> B) (l : list A) (a b : A) :
  NoDup (map f l) -> In a l -> In b l -> f a = f b -> a = b.
Proof.
  induction l as [|x l IH]; simpl; [contradiction|].
  intros Hnd Ha Hb Hf. inversion Hnd as [|? ? Hx Hnd']; subst.
  destruct Ha as [->|Ha]; destruct Hb as [->|Hb]; try reflexivity.
  - exfalso. apply Hx. rewrite Hf. now apply in_map.
  - exfalso. apply Hx. rewrite <- Hf. now apply in_map.
  - now apply IH.
Qed.

Section PassOrder.
Context {N : JsNumber} {NI : JsInfinity N}.
Variable actions : list Action.t.
Variable scoredKeys : list ScoredKey.t.
Variable fingerConfig : FingerConfigMap.
Variable movementConfig : MovementConfig.t.
Variable availableFingers : JsSet.t Finger.
Variable lockedBinds : LockedBinds.

(** The bindings a run of the loop adds follow the actions it visits. *)
Lemma passLoop_subsequence (todo : list Action.t) (st : PassState.t) :
  exists added,
    PassState.bindings
      (passLoop actions scoredKeys fingerConfig movementConfig availableFingers
         lockedBinds todo st)
    = PassState.bindings st ++ added
    /\ Subsequence (map Binding.action added) (map Action.name todo).
Proof.
  revert st. induction todo as [|a todo IH]; intros st; simpl.
  - exists []. split; [now rewrite app_nil_r | constructor].
  - destruct (IH (passStep actions scoredKeys fingerConfig movementConfig
                    availableFingers lockedBinds st a)) as [added [Hb Hs]].
    destruct (passStep_cases actions scoredKeys fingerConfig movementConfig
                availableFingers lockedBinds st a) as [[E _]|[b [E [_ [Hn _]]]]].
    + exists added. split; [now rewrite Hb, E | now constructor].
    + exists (b :: added). split.
      * rewrite Hb, E, <- app_assoc. reflexivity.
      * simpl. rewrite Hn. now constructor.
Qed.
End PassOrder.

(** The bindings of a pass come in the order of [sortActionsByFrequency]:
    their actions are the sorted action names with some left out. So a
    pass binds no more actions than it is given, and binds no name
    twice when the names of the actions are distinct. *)
Theorem allocatePass_bindings_in_frequency_order {N : JsNumber}
    {NI : JsInfinity N} (actions : list Action.t) (scoredKeys : list ScoredKey.t)
    (fingerConfig : FingerConfigMap) (movementConfig : MovementConfig.t)
    (availableFingers : JsSet.t Finger) (lockedBinds : LockedBinds) :
  let bindings :=
    PassResult.bindings
      (allocatePass actions scoredKeys fingerConfig movementConfig
         availableFingers lockedBinds) in
  Subsequence (map Binding.action bindings)
    (map Action.name (sortActionsByFrequency actions))
  /\ (List.length bindings <= List.length actions)%nat
  /\ (NoDup (map Action.name actions) -> NoDup (map Binding.action bindings)).
Proof.
  intros bindings.
  assert (Hs : Subsequence (map Binding.action bindings)
                 (map Action.name (sortActionsByFrequency actions))).
  { unfold bindings, allocatePass. simpl.
    destruct (passLoop_subsequence actions scoredKeys fingerConfig movementConfig
                availableFingers lockedBinds (sortActionsByFrequency actions)
                (PassState.mk [] JsSet.empty JsMap.empty JsMap.empty))
      as [added [-> Hs]].
    exact Hs. }
  assert (Hp : Permutation (map Action.name (sortActionsByFrequency actions))
                 (map Action.name actions)).
  { apply Permutation_map, Array_sort_perm. }
  split; [exact Hs|]. split.
  - apply Subsequence_length in Hs. rewrite !length_map in Hs.
    apply Permutation_length in Hp. rewrite !length_map in Hp. lia.
  - intros Hnd. eapply Subsequence_NoDup; [exact Hs|].
    eapply Permutation_NoDup; [apply Permutation_sym, Hp | exact Hnd].
Qed.

(** ** The greedy allocator: where unlocked actions are placed *)

Section BlockedFingers.
Context {N : JsNumber}.
Variable actionFingerMap : JsMap.t string (list Finger).

Lemma addFingersOf_In (blocked : JsSet.t Finger) (name : string) (f : Finger) :
  In f (addFingersOf actionFingerMap blocked name)
  <-> In f blocked
      \/ exists fingers,
           JsMap.get actionFingerMap name = Some fingers /\ In f fingers.
Proof.
  unfold addFingersOf. destruct (JsMap.get actionFingerMap name) as [fingers|].
  - rewrite JsSet_fold_add_In. split.
    + intros [Hf|Hf]; [right; exists fingers; auto | now left].
    + intros [Hf|[fs [[= <-] Hf]]]; auto.
  - split; [now left|]. intros [Hf|[fs [Hfs _]]]; [assumption | discriminate].
Qed.

Lemma fold_addFingersOf_In (names : list string) (blocked : JsSet.t Finger)
    (f : Finger) :
  In f (fold_left (addFingersOf actionFingerMap) names blocked)
  <-> In f blocked
      \/ exists name fingers,
           In name names
           /\ JsMap.get actionFingerMap name = Some fingers /\ In f fingers.
Proof.
  revert blocked. induction names as [|n names IH]; intros blocked; simpl.
  - split; [now left|]. intros [Hf|[n [fs [[] _]]]]. assumption.
  - rewrite IH, addFingersOf_In. split.
    + intros [[Hf|[fs Hfs]]|[n' [fs [Hn' Hfs]]]].
      * now left.
      * right. exists n, fs. split; [now left | exact Hfs].
      * right. exists n', fs. split; [now right | exact Hfs].
    + intros [Hf|[n' [fs [[<-|Hn'] Hfs]]]].
      * left. now left.
      * left. right. now exists fs.
      * right. now exists n', fs.
Qed.

Lemma fold_listing_In (name : string) (others : list Action.t)
    (blocked : JsSet.t Finger) (f : Finger) :
  In f (fold_left
          (fun blocked otherAction =>
             if namesConcurrent otherAction name
             then addFingersOf actionFingerMap blocked (Action.name otherAction)
             else blocked)
          others blocked)
  <-> In f blocked
      \/ exists other fingers,
           In other others
           /\ namesConcurrent other name = true
           /\ JsMap.get actionFingerMap (Action.name other) = Some fingers
           /\ In f fingers.
Proof.
  revert blocked. induction others as [|o others IH]; intros blocked; simpl.
  - split; [now left|]. intros [Hf|[o [fs [[] _]]]]. assumption.
  - rewrite IH. destruct (namesConcurrent o name) eqn:Ho.
    + rewrite addFingersOf_In. split.
      * intros [[Hf|[fs Hfs]]|[o' [fs [Ho' Hfs]]]].
        -- now left.
        -- right. exists o, fs. split; [now left|]. split; [exact Ho | exact Hfs].
        -- right. exists o', fs. split; [now right | exact Hfs].
      * intros [Hf|[o' [fs [[<-|Ho'] [Hc Hfs]]]]].
        -- left. now left.
        -- left. right. now exists fs.
        -- right. now exists o', fs.
    + split.
      * intros [Hf|[o' [fs [Ho' Hfs]]]]; [now left|].
        right. exists o', fs. split; [now right | exact Hfs].
      * intros [Hf|[o' [fs [[<-|Ho'] [Hc Hfs]]]]].
        -- now left.
        -- congruence.
        -- right. now exists o', fs.
Qed.

Lemma getBlockedFingersForConcurrency_In (action : Action.t)
    (allActions : list Action.t) (f : Finger) :
  In f (getBlockedFingersForConcurrency action actionFingerMap allActions)
  <-> (exists otherName fingers,
         namesConcurrent action otherName = true
         /\ JsMap.get actionFingerMap otherName = Some fingers
         /\ In f fingers)
      \/ (exists other fingers,
            In other allActions
            /\ namesConcurrent other (Action.name action) = true
            /\ JsMap.get actionFingerMap (Action.name other) = Some fingers
            /\ In f fingers).
Proof.
  unfold getBlockedFingersForConcurrency. rewrite fold_listing_In.
  assert (Hnames : forall n, namesConcurrent action n = true
                             <-> match Action.concurrentWith action with
                                 | Some names => In n names
                                 | None => False
                                 end).
  { intros n. unfold namesConcurrent.
    destruct (Action.concurrentWith action); [apply Array_includes_In|].
    split; [discriminate | contradiction]. }
  destruct (Action.concurrentWith action) as [names|].
  - rewrite fold_addFingersOf_In. split.
    + intros [[[]|[n [fs [Hn Hfs]]]]|Ho]; [|now right].
      left. exists n, fs. split; [now apply Hnames | exact Hfs].
    + intros [[n [fs [Hn Hfs]]]|Ho]; [|now right].
      left. right. exists n, fs. split; [now apply Hnames | exact Hfs].
  - split.
    + intros [[]|Ho]. now right.
    + intros [[n [fs [Hn _]]]|Ho]; [now apply Hnames in Hn | now right].
Qed.
End BlockedFingers.

(** A finger is blocked for an action exactly when it is one of the
    fingers recorded for an action that this action names in its
    [concurrentWith], or for an action of the list that names this
    action in its own. *)
Theorem getBlockedFingersForConcurrency_blocks {N : JsNumber}
    (action : Action.t) (actionFingerMap : JsMap.t string (list Finger))
    (allActions : list Action.t) (f : Finger) :
  JsSet.has (getBlockedFingersForConcurrency action actionFingerMap allActions) f
  = true
  <-> (exists otherName fingers,
         namesConcurrent action otherName = true
         /\ JsMap.get actionFingerMap otherName = Some fingers
         /\ In f fingers)
      \/ (exists other fingers,
            In other allActions
            /\ namesConcurrent other (Action.name action) = true
            /\ JsMap.get actionFingerMap (Action.name other) = Some fingers
            /\ In f fingers).
Proof. rewrite JsSet_has_In. apply getBlockedFingersForConcurrency_In. Qed.

Section PassPlacement.
Context {N : JsNumber} {NI : JsInfinity N}.
Variable actions : list Action.t.
Variable scoredKeys : list ScoredKey.t.
Variable fingerConfig : FingerConfigMap.
Variable movementConfig : MovementConfig.t.
Variable availableFingers : JsSet.t Finger.
Variable lockedBinds : LockedBinds.

(** The key the loop of [allocateNonMovementAction] ends with passed
    every test of the loop. *)
Lemma bestKeyLoop_chosen (action : Action.t) (keys : list ScoredKey.t)
    (boundKeys lockedKeySet : JsSet.t string) (fingerLoad : FingerLoad)
    (movementKeys : JsSet.t string)
    (movementFingers blocked : JsSet.t Finger)
    (best : option ScoredKey.t) (minimumScore : num) (k : ScoredKey.t) :
  bestKeyLoop action keys boundKeys lockedKeySet fingerLoad fingerConfig
    movementKeys movementFingers availableFingers blocked best minimumScore
  = Some k ->
  best = Some k
  \/ (In k keys
      /\ isCandidate k boundKeys lockedKeySet movementKeys movementFingers
           availableFingers blocked = true
      /\ exists config,
           JsMap.get fingerConfig (ScoredKey.bestFinger k) = Some config
           /\ (ScoredKey.totalScore k >? maxDistanceFor action config)%num = false).
Proof.
  revert best minimumScore.
  induction keys as [|sk keys IH]; intros best minimumScore; simpl.
  - intros ->. now left.
  - assert (Hrest : forall b m,
              bestKeyLoop action keys boundKeys lockedKeySet fingerLoad fingerConfig
                movementKeys movementFingers availableFingers blocked b m = Some k ->
              b = Some k
              \/ (In k (sk :: keys)
                  /\ isCandidate k boundKeys lockedKeySet movementKeys movementFingers
                       availableFingers blocked = true
                  /\ exists config,
                       JsMap.get fingerConfig (ScoredKey.bestFinger k) = Some config
                       /\ (ScoredKey.totalScore k >? maxDistanceFor action config)%num
                          = false)).
    { intros b m Hb. destruct (IH b m Hb) as [->|[Hin Hk]]; [now left|].
      right. split; [now right | exact Hk]. }
    destruct (isCandidate sk boundKeys lockedKeySet movementKeys movementFingers
                availableFingers blocked) eqn:Hc; simpl; [|apply Hrest].
    destruct (JsMap.get fingerConfig (ScoredKey.bestFinger sk)) as [config|] eqn:Hg;
      [|apply Hrest].
    destruct (ScoredKey.totalScore sk >? maxDistanceFor action config)%num eqn:Hd;
      [apply Hrest|].
    destruct (_ >=? _)%num; [apply Hrest|].
    intros Hr. destruct (Hrest _ _ Hr) as [[= <-]|Hk]; [|now right].
    right. split; [now left|]. split; [exact Hc|]. now exists config.
Qed.

(** What an unlocked action that is not [DIRECTIONAL] is given: a scored
    key that is no movement key and no locked key, on a finger that is
    available, configured, not reserved for movement and not blocked,
    within the reach cap of the action. *)
Definition placedFreely (a : Action.t) (boundKeys : JsSet.t string)
    (blocked : JsSet.t Finger) (r : Allocation.t) : Prop :=
  exists sk config,
    In sk scoredKeys
    /\ Allocation.binding r = Binding.mk (Action.name a) (ScoredKey.code sk)
    /\ Allocation.fingers r = [ScoredKey.bestFinger sk]
    /\ ~ In (ScoredKey.code sk) boundKeys
    /\ ~ In (ScoredKey.code sk) (JsMap.values lockedBinds)
    /\ ~ In (ScoredKey.code sk) (buildMovementKeySet movementConfig)
    /\ ~ In (ScoredKey.bestFinger sk) (buildExclusiveMovementFingers movementConfig)
    /\ In (ScoredKey.bestFinger sk) availableFingers
    /\ ~ In (ScoredKey.bestFinger sk) blocked
    /\ JsMap.get fingerConfig (ScoredKey.bestFinger sk) = Some config
    /\ (ScoredKey.totalScore sk >? maxDistanceFor a config)%num = false.

Lemma allocateNonMovementAction_placedFreely (a : Action.t)
    (boundKeys : JsSet.t string) (fingerLoad fingerLoad' : FingerLoad)
    (afm : JsMap.t string (list Finger)) (r : Allocation.t) :
  allocateNonMovementAction a scoredKeys boundKeys
    (JsSet.of_list (JsMap.values lockedBinds)) fingerLoad fingerConfig
    (buildMovementKeySet movementConfig)
    (buildExclusiveMovementFingers movementConfig) availableFingers afm actions
  = (Some r, fingerLoad') ->
  placedFreely a boundKeys (getBlockedFingersForConcurrency a afm actions) r.
Proof.
  unfold allocateNonMovementAction.
  destruct (bestKeyLoop _ _ _ _ _ _ _ _ _ _ _ _) as [bestKey|] eqn:Hl; [|discriminate].
  intros [= <- _].
  apply bestKeyLoop_chosen in Hl.
  destruct Hl as [Hl|[Hin [Hc [config [Hg Hd]]]]]; [discriminate|].
  unfold isCandidate in Hc. rewrite !andb_true_iff, !negb_true_iff in Hc.
  destruct Hc as [[[[[Hb Hlk] Hm] Hmf] Hav] Hbl].
  exists bestKey, config. simpl.
  split; [exact Hin|]. split; [reflexivity|]. split; [reflexivity|].
  split; [now apply JsSet_has_false|].
  split.
  { intros Hv. apply JsSet_has_false in Hlk. apply Hlk. now apply JsSet_of_list_In. }
  split; [now apply JsSet_has_false|].
  split; [now apply JsSet_has_false|].
  split; [now apply JsSet_has_In|].
  split; [now apply JsSet_has_false|].
  split; assumption.
Qed.

(** The action is not locked and is not [DIRECTIONAL]. *)
Definition placedByScore (a : Action.t) : Prop :=
  lockedKeyOf lockedBinds (Action.name a) = None
  /\ Action.type a <> DIRECTIONAL.

Lemma passStep_placedFreely (st : PassState.t) (a : Action.t) :
  placedByScore a ->
  passStep actions scoredKeys fingerConfig movementConfig availableFingers
    lockedBinds st a
  = PassState.mk (PassState.bindings st) (PassState.boundKeys st)
      (PassState.fingerLoad st) (PassState.actionFingerMap st)
  \/ exists r fingerLoad',
       placedFreely a (PassState.boundKeys st)
         (getBlockedFingersForConcurrency a (PassState.actionFingerMap st) actions) r
       /\ passStep actions scoredKeys fingerConfig movementConfig availableFingers
            lockedBinds st a
          = PassState.mk (PassState.bindings st ++ [Allocation.binding r])
              (JsSet.add (PassState.boundKeys st) (Binding.key (Allocation.binding r)))
              fingerLoad'
              (JsMap.set (PassState.actionFingerMap st) (Action.name a)
                 (Allocation.fingers r)).
Proof.
  intros [Hlock Htype]. unfold passStep, allocateActionWithLoad. rewrite Hlock.
  destruct (ActionType_eqb (Action.type a) DIRECTIONAL) eqn:Ht.
  { apply ActionType_eqb_eq in Ht. contradiction. }
  destruct (allocateNonMovementAction _ _ _ _ _ _ _ _ _ _ _) as [[r|] fl] eqn:Hr.
  - right. exists r, fl. split; [|reflexivity].
    now apply allocateNonMovementAction_placedFreely in Hr.
  - left. unfold allocateNonMovementAction in Hr.
    destruct (bestKeyLoop _ _ _ _ _ _ _ _ _ _ _ _); [discriminate|].
    now injection Hr as <-.
Qed.

(** A turn of the loop records fingers for its own action only. *)
Lemma passStep_actionFingerMap (st : PassState.t) (a : Action.t) (name : string) :
  name <> Action.name a ->
  JsMap.get
    (PassState.actionFingerMap
       (passStep actions scoredKeys fingerConfig movementConfig availableFingers
          lockedBinds st a))
    name
  = JsMap.get (PassState.actionFingerMap st) name.
Proof.
  intros Hne. unfold passStep.
  destruct (allocateActionWithLoad _ _ _ _ _ _ _ _ _ _ _ _ _) as [[r|] fl]; simpl;
    [|reflexivity].
  rewrite JsMap_get_set. destruct (keqb (Action.name a) name) eqn:Ek; [|reflexivity].
  apply keqb_eq in Ek. congruence.
Qed.

(** A binding of the loop was made in one of its turns. *)
Lemma passLoop_placed (todo : list Action.t) (st : PassState.t) (b : Binding.t) :
  In b (PassState.bindings
          (passLoop actions scoredKeys fingerConfig movementConfig
             availableFingers lockedBinds todo st)) ->
  In b (PassState.bindings st)
  \/ exists a st',
       In a todo
       /\ PassState.bindings
            (passStep actions scoredKeys fingerConfig movementConfig
               availableFingers lockedBinds st' a)
          = PassState.bindings st' ++ [b].
Proof.
  revert st. induction todo as [|a todo IH]; intros st; simpl.
  - now left.
  - intros Hb. apply IH in Hb. destruct Hb as [Hb|[a' [st' [Ha' Hs]]]].
    + destruct (passStep_cases actions scoredKeys fingerConfig movementConfig
                  availableFingers lockedBinds st a) as [[E _]|[b' [E _]]].
      * left. now rewrite E in Hb.
      * rewrite E in Hb. apply in_app_or in Hb.
        destruct Hb as [Hb|[<-|[]]]; [now left|].
        right. exists a, st. split; [now left | exact E].
    + right. exists a', st'. split; [now right | exact Hs].
Qed.

(** Two actions that must be pressed together, both placed by score. *)
Definition pressedTogether (a b : Action.t) : Prop :=
  In a actions /\ In b actions
  /\ Action.name a <> Action.name b
  /\ placedByScore a /\ placedByScore b
  /\ (namesConcurrent a (Action.name b) || namesConcurrent b (Action.name a))%bool
     = true.

Lemma pressedTogether_sym (a b : Action.t) :
  pressedTogether a b -> pressedTogether b a.
Proof.
  intros [Ha [Hb [Hne [Hpa [Hpb Hc]]]]]. unfold pressedTogether.
  rewrite orb_comm. auto 10.
Qed.

(** The recorded fingers of two such actions have no finger in common. *)
Definition fingersApart (afm : JsMap.t string (list Finger)) : Prop :=
  forall a b fa fb f,
    pressedTogether a b ->
    JsMap.get afm (Action.name a) = Some fa ->
    JsMap.get afm (Action.name b) = Some fb ->
    In f fa -> ~ In f fb.

Hypothesis distinctNames : NoDup (map Action.name actions).

Lemma placedFreely_avoids (x other : Action.t) (st : PassState.t)
    (r : Allocation.t) (fs : list Finger) (f : Finger) :
  pressedTogether x other ->
  placedFreely x (PassState.boundKeys st)
    (getBlockedFingersForConcurrency x (PassState.actionFingerMap st) actions) r ->
  JsMap.get (PassState.actionFingerMap st) (Action.name other) = Some fs ->
  In f (Allocation.fingers r) -> ~ In f fs.
Proof.
  intros [Hx [Ho [Hne [_ [_ Hc]]]]] [sk [config Hp]] Hfs Hf Hin.
  destruct Hp as [_ [_ [Hfingers [_ [_ [_ [_ [_ [Hbl _]]]]]]]]].
  rewrite Hfingers in Hf. destruct Hf as [<-|[]].
  apply Hbl. apply getBlockedFingersForConcurrency_In.
  apply orb_true_iff in Hc. destruct Hc as [Hc|Hc].
  - left. exists (Action.name other), fs. auto.
  - right. exists other, fs. auto.
Qed.

Lemma passStep_fingersApart (st : PassState.t) (x : Action.t) :
  In x actions ->
  fingersApart (PassState.actionFingerMap st) ->
  fingersApart
    (PassState.actionFingerMap
       (passStep actions scoredKeys fingerConfig movementConfig availableFingers
          lockedBinds st x)).
Proof.
  intros Hx Hap a b fa fb f Hab Hfa Hfb Hf Hin.
  pose proof Hab as [Ha [Hb [Hne [Hpa [Hpb Hc]]]]].
  destruct (string_dec (Action.name a) (Action.name x)) as [Eax|Nax].
  - assert (a = x) by (eapply NoDup_map_injective; eassumption). subst a.
    rewrite passStep_actionFingerMap in Hfb by congruence.
    destruct (passStep_placedFreely st Hpa) as [E|[r [fl [Hr E]]]];
      rewrite E in Hfa; simpl in Hfa.
    + exact (Hap x b fa fb f Hab Hfa Hfb Hf Hin).
    + rewrite JsMap_get_set, keqb_refl in Hfa. injection Hfa as <-.
      exact (@placedFreely_avoids x b st r fb f Hab Hr Hfb Hf Hin).
  - rewrite passStep_actionFingerMap in Hfa by congruence.
    destruct (string_dec (Action.name b) (Action.name x)) as [Ebx|Nbx].
    + assert (b = x) by (eapply NoDup_map_injective; eassumption). subst b.
      destruct (passStep_placedFreely st Hpb) as [E|[r [fl [Hr E]]]];
        rewrite E in Hfb; simpl in Hfb.
      * exact (Hap a x fa fb f Hab Hfa Hfb Hf Hin).
      * rewrite JsMap_get_set, keqb_refl in Hfb. injection Hfb as <-.
        exact (@placedFreely_avoids x a st r fa f (pressedTogether_sym Hab) Hr Hfa
                 Hin Hf).
    + rewrite passStep_actionFingerMap in Hfb by congruence.
      exact (Hap a b fa fb f Hab Hfa Hfb Hf Hin).
Qed.

Lemma passLoop_fingersApart (todo : list Action.t) (st : PassState.t) :
  (forall x, In x todo -> In x actions) ->
  fingersApart (PassState.actionFingerMap st) ->
  fingersApart
    (PassState.actionFingerMap
       (passLoop actions scoredKeys fingerConfig movementConfig availableFingers
          lockedBinds todo st)).
Proof.
  revert st. induction todo as [|x todo IH]; intros st Hin Hap; simpl.
  - exact Hap.
  - apply IH; [intros y Hy; apply Hin; now right|].
    apply passStep_fingersApart; [apply Hin; now left | exact Hap].
Qed.
End PassPlacement.

(** In a pass over actions with distinct names, two unlocked actions
    that are not [DIRECTIONAL], one of which names the other in its
    [concurrentWith], are never recorded on a common finger. *)
Theorem allocatePass_concurrent_fingers_apart {N : JsNumber} {NI : JsInfinity N}
    (actions : list Action.t) (scoredKeys : list ScoredKey.t)
    (fingerConfig : FingerConfigMap) (movementConfig : MovementConfig.t)
    (availableFingers : JsSet.t Finger) (lockedBinds : LockedBinds)
    (a b : Action.t) (fa fb : list Finger) :
  NoDup (map Action.name actions) ->
  In a actions -> In b actions ->
  Action.name a <> Action.name b ->
  lockedKeyOf lockedBinds (Action.name a) = None ->
  Action.type a <> DIRECTIONAL ->
  lockedKeyOf lockedBinds (Action.name b) = None ->
  Action.type b <> DIRECTIONAL ->
  (namesConcurrent a (Action.name b) || namesConcurrent b (Action.name a))%bool
  = true ->
  JsMap.get
    (PassResult.actionFingerMap
       (allocatePass actions scoredKeys fingerConfig movementConfig
          availableFingers lockedBinds))
    (Action.name a) = Some fa ->
  JsMap.get
    (PassResult.actionFingerMap
       (allocatePass actions scoredKeys fingerConfig movementConfig
          availableFingers lockedBinds))
    (Action.name b) = Some fb ->
  forall f, In f fa -> ~ In f fb.
Proof.
  intros Hnd Ha Hb Hne Hla Hta Hlb Htb Hc Hfa Hfb f.
  unfold allocatePass in Hfa, Hfb. simpl in Hfa, Hfb.
  assert (Hap : fingersApart actions lockedBinds
                  (PassState.actionFingerMap
                     (passLoop actions scoredKeys fingerConfig movementConfig
                        availableFingers lockedBinds (sortActionsByFrequency actions)
                        (PassState.mk [] JsSet.empty JsMap.empty JsMap.empty)))).
  { apply passLoop_fingersApart; [exact Hnd | |].
    - intros x Hx. now apply Array_sort_In in Hx.
    - intros a' b' fa' fb' f' _ Hfa'. discriminate Hfa'. }
  apply (Hap a b fa fb f); try assumption.
  unfold pressedTogether, placedByScore. auto 10.
Qed.

(** [VoiceChat] must be pressed together with [Fire]. *)
Module ConcurrencyExample.
Local Existing Instance float_number.
Local Open Scope string_scope.

Definition fire : Action.t := TestData.action "Fire" 0 COMBAT 100.

Definition voiceChat : Action.t :=
  Action.mk "VoiceChat" (lit 20) UTILITY (lit 30) (Some ["Fire"]).

Definition actions : list Action.t := [voiceChat; fire].

Definition pass : PassResult.t :=
  allocatePass actions TestData.keysFG TestData.DEFAULT_FINGER_CONFIG
    TestData.DEFAULT_MOVEMENT_CONFIG TestData.DEFAULT_AVAILABLE_FINGERS [].
End ConcurrencyExample.

Lemma allocatePass_concurrent_fingers_apart_witness :
  PassResult.bindings ConcurrencyExample.pass
  = [Binding.mk "Fire" "KeyF"; Binding.mk "VoiceChat" "KeyG"]
  /\ forall f, In f [RightMiddle] -> ~ In f [RightIndex].
Proof.
  split; [vm_compute; reflexivity|].
  apply (@allocatePass_concurrent_fingers_apart float_number float_infinity
           ConcurrencyExample.actions TestData.keysFG
           TestData.DEFAULT_FINGER_CONFIG TestData.DEFAULT_MOVEMENT_CONFIG
           TestData.DEFAULT_AVAILABLE_FINGERS []
           ConcurrencyExample.voiceChat ConcurrencyExample.fire
           [RightMiddle] [RightIndex]).
  - vm_compute. repeat constructor; simpl; intuition discriminate.
  - now left.
  - right. now left.
  - discriminate.
  - reflexivity.
  - discriminate.
  - reflexivity.
  - discriminate.
  - reflexivity.
  - vm_compute. reflexivity.
  - vm_compute. reflexivity.
Defined.

(** A binding that a pass makes for an unlocked action that is not
    [DIRECTIONAL] is on a scored key that is neither a movement key nor
    a locked key, whose best finger is available, configured and not
    reserved for movement, and whose score is not above the reach cap
    of the action on that finger. *)
Theorem allocatePass_scored_placement {N : JsNumber} {NI : JsInfinity N}
    (actions : list Action.t) (scoredKeys : list ScoredKey.t)
    (fingerConfig : FingerConfigMap) (movementConfig : MovementConfig.t)
    (availableFingers : JsSet.t Finger) (lockedBinds : LockedBinds)
    (b : Binding.t) :
  In b (PassResult.bindings
          (allocatePass actions scoredKeys fingerConfig movementConfig
             availableFingers lockedBinds)) ->
  lockedKeyOf lockedBinds (Binding.action b) = None ->
  (forall a, In a actions -> Action.name a = Binding.action b ->
             Action.type a <> DIRECTIONAL) ->
  exists a sk config,
    In a actions /\ Action.name a = Binding.action b
    /\ In sk scoredKeys /\ Binding.key b = ScoredKey.code sk
    /\ ~ In (ScoredKey.code sk) (buildMovementKeySet movementConfig)
    /\ ~ In (ScoredKey.code sk) (JsMap.values lockedBinds)
    /\ In (ScoredKey.bestFinger sk) availableFingers
    /\ ~ In (ScoredKey.bestFinger sk) (buildExclusiveMovementFingers movementConfig)
    /\ JsMap.get fingerConfig (ScoredKey.bestFinger sk) = Some config
    /\ (ScoredKey.totalScore sk >? maxDistanceFor a config)%num = false.
Proof.
  intros Hb Hlock Htype. unfold allocatePass in Hb. simpl in Hb.
  apply passLoop_placed in Hb. destruct Hb as [[]|[a [st [Ha Hs]]]].
  apply Array_sort_In in Ha.
  assert (Hname : Action.name a = Binding.action b).
  { destruct (passStep_cases actions scoredKeys fingerConfig movementConfig
                availableFingers lockedBinds st a) as [[E _]|[b' [E [_ [Hn _]]]]];
      rewrite E in Hs.
    - apply (f_equal (@List.length _)) in Hs. rewrite length_app in Hs.
      simpl in Hs. lia.
    - apply app_inv_head in Hs. injection Hs as <-. now symmetry. }
  assert (Hp : placedByScore lockedBinds a).
  { split; [now rewrite Hname | now apply Htype]. }
  destruct (passStep_placedFreely actions scoredKeys fingerConfig movementConfig
              availableFingers st Hp) as [E|[r [fl [Hr E]]]]; rewrite E in Hs;
    simpl in Hs.
  - apply (f_equal (@List.length _)) in Hs. rewrite length_app in Hs.
    simpl in Hs. lia.
  - apply app_inv_head in Hs. injection Hs as Hs.
    destruct Hr as [sk [config [Hsk [Hbind [_ [_ [Hl [Hm [Hmf [Hav [_ [Hg Hd]]]]]]]]]]]].
    exists a, sk, config. rewrite <- Hs, Hbind. simpl.
    rewrite <- Hs, Hbind in Hname. simpl in Hname.
    repeat (split; [assumption || reflexivity|]). assumption.
Qed.

Lemma allocatePass_scored_placement_witness :
  exists a sk config,
    In a ConcurrencyExample.actions
    /\ Action.name a = "VoiceChat"%string
    /\ In sk TestData.keysFG /\ "KeyG"%string = ScoredKey.code sk
    /\ JsMap.get TestData.DEFAULT_FINGER_CONFIG (ScoredKey.bestFinger sk)
       = Some config
    /\ (ScoredKey.totalScore sk >? maxDistanceFor a config)%num = false.
Proof.
  destruct (@allocatePass_scored_placement float_number float_infinity
              ConcurrencyExample.actions TestData.keysFG
              TestData.DEFAULT_FINGER_CONFIG TestData.DEFAULT_MOVEMENT_CONFIG
              TestData.DEFAULT_AVAILABLE_FINGERS []
              (Binding.mk "VoiceChat" "KeyG"))
    as [a [sk [config [Ha [Hn [Hsk [Hk [_ [_ [_ [_ [Hg Hd]]]]]]]]]]]].
  - vm_compute. right. now left.
  - reflexivity.
  - intros a [<-|[<-|[]]] _; discriminate.
  - exists a, sk, config. auto 10.
Defined.

(** ** The reach cap, under exact arithmetic *)

Lemma toR_lit_pos {N : JsNumber} {E : ExactArithmetic N} (p : positive) :
  toR (lit (Zpos p # 1)) = IZR (Zpos p).
Proof. rewrite toR_lit. unfold Q2R. simpl. lra. Qed.

(** For a priority from 1 to 100 and a reach of 4 at least, the reach
    cap of an action on a finger lies between 4 and the reach of the
    finger: it is the reach at priority 1 and 4 at priority 100. *)
Theorem maxDistanceFor_within_reach {N : JsNumber} {NI : JsInfinity N}
    {E : ExactArithmetic N} (action : Action.t) (config : FingerConfig.t) :
  (1 <= toR (Action.priority action) <= 100)%R ->
  (4 <= toR (FingerConfig.reach config))%R ->
  (4 <= toR (maxDistanceFor action config) <= toR (FingerConfig.reach config))%R
  /\ (toR (Action.priority action) = 1%R ->
      toR (maxDistanceFor action config) = toR (FingerConfig.reach config))
  /\ (toR (Action.priority action) = 100%R ->
      toR (maxDistanceFor action config) = 4%R).
Proof.
  intros Hp Hr. unfold maxDistanceFor.
  destruct (Action.priority action =? lit 0)%num eqn:Hz.
  { apply toR_eqb in Hz. rewrite toR_zero in Hz. lra. }
  assert (H99 : toR (lit 99) = 99%R) by apply (toR_lit_pos 99).
  rewrite toR_add, toR_mul, toR_sub, toR_div, toR_sub by (rewrite H99; lra).
  change (lit 4) with (lit (4 # 1)). change (lit 100) with (lit (100 # 1)).
  rewrite (toR_lit_pos 4), (toR_lit_pos 100), H99.
  set (p := toR (Action.priority action)) in *.
  set (r := toR (FingerConfig.reach config)) in *.
  assert (Hf : (0 <= (100 - p) / 99 <= 1)%R).
  { split.
    - apply Rmult_le_pos; lra.
    - apply Rmult_le_reg_r with 99%R; [lra|]. field_simplify; lra. }
  repeat split.
  - nra.
  - nra.
  - intros ->. field.
  - intros ->. field.
Qed.

Lemma maxDistanceFor_within_reach_witness :
  let action := Action.mk (N := R_number) "Reload" 80%R UTILITY 50%R None in
  let config := FingerConfig.mk (N := R_number) "KeyF" 12%R None None in
  (4 <= maxDistanceFor (N := R_number) (NI := Build_JsInfinity R_number 0%R)
          action config <= 12)%R.
Proof.
  intros action config.
  apply (@maxDistanceFor_within_reach R_number (Build_JsInfinity R_number 0%R)
           R_exact action config); simpl; lra.
Defined.

(** ** Displacement *)

Section Displacement.
Context {N : JsNumber} {E : ExactArithmetic N}.
Variable concurrentAction : Action.t.
Variable bindings : list Binding.t.
Variable actionFingerMap : JsMap.t string (list Finger).
Variable allActions : list Action.t.

(** A binding can be evicted for [concurrentAction]: its action has a
    recorded finger that is not blocked, and [concurrentAction] does
    not name it in its [concurrentWith]. *)
Definition evictable (b : Binding.t) : Prop :=
  In b bindings
  /\ (exists fingers f,
        JsMap.get actionFingerMap (Binding.action b) = Some fingers
        /\ In f fingers
        /\ ~ In f (getBlockedFingersForConcurrency concurrentAction
                     actionFingerMap allActions))
  /\ namesConcurrent concurrentAction (Binding.action b) = false.

(** The frequency the victims are compared by. *)
Definition victimFrequency (b : Binding.t) : num :=
  frequencyOf (buildActionMap allActions) (Binding.action b).

Lemma evictable_filter (b : Binding.t) :
  In b
    (filter
       (fun b =>
          negb
            (JsSet.has
               (JsSet.of_list
                  match Action.concurrentWith concurrentAction with
                  | Some l => l
                  | None => []
                  end)
               (Binding.action b)))
       (filter
          (fun b =>
             match JsMap.get actionFingerMap (Binding.action b) with
             | None => false
             | Some fingers =>
                 existsb
                   (fun f =>
                      negb
                        (JsSet.has
                           (getBlockedFingersForConcurrency concurrentAction
                              actionFingerMap allActions) f))
                   fingers
             end)
          bindings))
  <-> evictable b.
Proof.
  unfold evictable. rewrite !filter_In.
  assert (Hnames : negb (JsSet.has
                           (JsSet.of_list
                              match Action.concurrentWith concurrentAction with
                              | Some l => l
                              | None => []
                              end)
                           (Binding.action b)) = true
                   <-> namesConcurrent concurrentAction (Binding.action b) = false).
  { rewrite negb_true_iff. unfold namesConcurrent.
    destruct (Action.concurrentWith concurrentAction) as [l|].
    - rewrite JsSet_has_false, JsSet_of_list_In.
      destruct (Array_includes l (Binding.action b)) eqn:Hi.
      + apply Array_includes_In in Hi. split; [contradiction | discriminate].
      + split; [reflexivity|]. intros _ Hin. apply Array_includes_In in Hin. congruence.
    - split; reflexivity. }
  rewrite Hnames.
  assert (Hfingers :
            match JsMap.get actionFingerMap (Binding.action b) with
            | None => false
            | Some fingers =>
                existsb
                  (fun f =>
                     negb
                       (JsSet.has
                          (getBlockedFingersForConcurrency concurrentAction
                             actionFingerMap allActions) f))
                  fingers
            end = true
            <-> exists fingers f,
                  JsMap.get actionFingerMap (Binding.action b) = Some fingers
                  /\ In f fingers
                  /\ ~ In f (getBlockedFingersForConcurrency concurrentAction
                               actionFingerMap allActions)).
  { destruct (JsMap.get actionFingerMap (Binding.action b)) as [fingers|].
    - rewrite existsb_exists. split.
      + intros [f [Hf Hb]]. apply negb_true_iff, JsSet_has_false in Hb.
        exists fingers, f. auto.
      + intros [fs [f [[= <-] [Hf Hb]]]]. exists f. split; [exact Hf|].
        now apply negb_true_iff, JsSet_has_false.
    - split; [discriminate|]. intros [fs [f [Hg _]]]. discriminate. }
  rewrite Hfingers. tauto.
Qed.

Lemma findDisplacementVictim_spec :
  match findDisplacementVictim concurrentAction bindings actionFingerMap allActions with
  | Some victim =>
      evictable victim
      /\ forall b, evictable b ->
           (toR (victimFrequency victim) <= toR (victimFrequency b))%R
  | None => forall b, ~ evictable b
  end.
Proof.
  unfold findDisplacementVictim.
  set (evictables := filter _ (filter _ bindings)).
  assert (Hev : forall b, In b evictables <-> evictable b)
    by (intros b; apply evictable_filter).
  destruct evictables as [|e es] eqn:Ee.
  - intros b Hb. now apply Hev in Hb.
  - rewrite <- Ee in *.
    set (cmp := fun a b : Binding.t => _).
    assert (Hc : forall a b, toR (cmp a b)
                             = (toR (victimFrequency a) - toR (victimFrequency b))%R)
      by (intros; apply toR_sub).
    destruct (hd_error (Array_sort cmp evictables)) as [victim|] eqn:Hh.
    + apply (Array_sort_head cmp (fun b => toR (victimFrequency b)) Hc) in Hh.
      destruct Hh as [Hin Hmin]. split; [now apply Hev|].
      intros b Hb. apply Hmin. now apply Hev.
    + exfalso. pose proof (Array_sort_perm cmp evictables) as Hp.
      destruct (Array_sort cmp evictables); [|discriminate].
      apply Permutation_nil in Hp. rewrite Ee in Hp. discriminate.
Qed.
End Displacement.

(** With exact arithmetic, [findDisplacementVictim] returns a binding
    of the list whose action has a recorded finger that is not blocked
    for the concurrent action and is not named in its [concurrentWith],
    of the least frequency among such bindings; it returns [null]
    exactly when there is no such binding. *)
Theorem findDisplacementVictim_least_frequent {N : JsNumber}
    {E : ExactArithmetic N} (concurrentAction : Action.t)
    (bindings : list Binding.t) (actionFingerMap : JsMap.t string (list Finger))
    (allActions : list Action.t) :
  match findDisplacementVictim concurrentAction bindings actionFingerMap allActions with
  | Some victim =>
      evictable concurrentAction bindings actionFingerMap allActions victim
      /\ forall b,
           evictable concurrentAction bindings actionFingerMap allActions b ->
           (toR (frequencyOf (buildActionMap allActions) (Binding.action victim))
            <= toR (frequencyOf (buildActionMap allActions) (Binding.action b)))%R
  | None =>
      forall b, ~ evictable concurrentAction bindings actionFingerMap allActions b
  end.
Proof. apply findDisplacementVictim_spec. Qed.

(** ** [allocate]: the displacement *)

Section Displaced.
Context {N : JsNumber} {NI : JsInfinity N}.
Variable actions : list Action.t.
Variable first : PassResult.t.

(** The victim [findDisplacementVictim] returns is one of the bindings. *)
Lemma findDisplacementVictim_In (concurrentAction : Action.t)
    (bindings : list Binding.t) (actionFingerMap : JsMap.t string (list Finger))
    (victim : Binding.t) :
  findDisplacementVictim concurrentAction bindings actionFingerMap actions
  = Some victim ->
  In victim bindings.
Proof.
  unfold findDisplacementVictim. cbv zeta.
  set (evictable := filter _ (filter _ bindings)).
  assert (Hsub : forall b, In b evictable -> In b bindings).
  { intros b Hb. unfold evictable in Hb.
    apply filter_In in Hb. destruct Hb as [Hb _].
    apply filter_In in Hb. tauto. }
  destruct evictable as [|e es] eqn:He; [discriminate|].
  intros Hh. apply Hsub.
  match type of Hh with
  | hd_error (Array_sort ?cmp ?l) = _ =>
      apply (Array_sort_In cmp l); destruct (Array_sort cmp l); [discriminate|]
  end.
  injection Hh as <-. now left.
Qed.

(** The second pass pins an action that only occurs once by name among
    the unassigned ones on the key of its victim. *)
Lemma newLocks_get_displaced (unassigned : list Action.t) (lockedBinds : LockedBinds)
    (action : Action.t) (victim : Binding.t) :
  In action unassigned ->
  (forall a, In a unassigned -> Action.name a = Action.name action -> a = action) ->
  findDisplacementVictim action (PassResult.bindings first)
    (PassResult.actionFingerMap first) actions = Some victim ->
  JsMap.get
    (fold_left
       (fun newLocks action =>
          match
            findDisplacementVictim action (PassResult.bindings first)
              (PassResult.actionFingerMap first) actions
          with
          | Some victim => JsMap.set newLocks (Action.name action) (Binding.key victim)
          | None => newLocks
          end)
       unassigned lockedBinds)
    (Action.name action)
  = Some (Binding.key victim).
Proof.
  revert lockedBinds. induction unassigned as [|a l IH]; intros lockedBinds Hin Huniq Hv;
    [destruct Hin|].
  cbn [fold_left].
  assert (Huniq' : forall a', In a' l -> Action.name a' = Action.name action ->
                              a' = action)
    by (intros a' Ha'; apply Huniq; now right).
  destruct (existsb (fun a' => String.eqb (Action.name a') (Action.name action)) l)
    eqn:Hlater.
  - apply existsb_exists in Hlater. destruct Hlater as [a' [Ha' Hname]].
    apply String.eqb_eq in Hname. rewrite (Huniq' a' Ha' Hname) in Ha'.
    now apply IH.
  - destruct Hin as [->|Hin].
    + rewrite Hv, newLocks_get.
      * rewrite JsMap_get_set. simpl. now rewrite String.eqb_refl.
      * intros a' Ha' Hname.
        assert (Hf : existsb
                       (fun a' => String.eqb (Action.name a') (Action.name action)) l
                     = true).
        { apply existsb_exists. exists a'. split; [exact Ha'|].
          now apply String.eqb_eq. }
        congruence.
    + exfalso.
      assert (Hf : existsb
                     (fun a' => String.eqb (Action.name a') (Action.name action)) l
                   = true).
      { apply existsb_exists. exists action. split; [exact Hin|].
        apply String.eqb_refl. }
      congruence.
Qed.
End Displaced.

(** When the first pass leaves an action with a non-empty
    [concurrentWith] without a binding and [findDisplacementVictim] picks
    a victim for it among the bindings of that pass, [allocate] runs a
    second pass and binds the action to the key of the victim (for an
    action whose name no other listed action has, and a victim key that
    is not empty). *)
Theorem allocate_displaces {N : JsNumber} {NI : JsInfinity N}
    (actions : list Action.t) (scoredKeys : list ScoredKey.t)
    (fingerConfig : FingerConfigMap) (movementConfig : MovementConfig.t)
    (availableFingers : JsSet.t Finger) (lockedBinds : LockedBinds)
    (action : Action.t) (victim : Binding.t) :
  let first :=
    allocatePass actions scoredKeys fingerConfig movementConfig availableFingers
      lockedBinds in
  In action actions ->
  (forall a, In a actions -> Action.name a = Action.name action -> a = action) ->
  hasConcurrentWith action = true ->
  ~ In (Action.name action) (map Binding.action (PassResult.bindings first)) ->
  findDisplacementVictim action (PassResult.bindings first)
    (PassResult.actionFingerMap first) actions = Some victim ->
  Binding.key victim <> EmptyString ->
  In victim (PassResult.bindings first)
  /\ In (Binding.mk (Action.name action) (Binding.key victim))
        (allocate actions scoredKeys fingerConfig movementConfig availableFingers
           lockedBinds).
Proof.
  intros first Hin Huniq Hconc Hfree Hv Hne.
  split; [eapply findDisplacementVictim_In, Hv|].
  unfold allocate. fold first. cbv zeta.
  set (unassigned := filter _ actions).
  assert (Hun : In action unassigned).
  { unfold unassigned. apply filter_In. split; [exact Hin|].
    rewrite Hconc, andb_true_r. apply negb_true_iff, JsSet_has_false.
    now rewrite JsSet_of_list_In. }
  destruct unassigned as [|u us] eqn:Hu; [destruct Hun|].
  apply allocatePass_locked_binding; [exact Hin|].
  apply lockedKeyOf_get. split; [|exact Hne].
  apply newLocks_get_displaced; [exact Hun | | exact Hv].
  intros a Ha. apply Huniq.
  assert (Ha' : In a (filter
                        (fun a => negb (JsSet.has
                                          (JsSet.of_list
                                             (map Binding.action
                                                (PassResult.bindings first)))
                                          (Action.name a))
                                  && hasConcurrentWith a) actions))
    by (fold unassigned; rewrite Hu; exact Ha).
  apply filter_In in Ha'. tauto.
Qed.

(** Two keys, two frequent actions and a rare one that is pressed
    together with another: the first pass leaves the rare one out. *)
Module DisplacementExample.
Local Existing Instance float_number.
Local Open Scope string_scope.

Definition ping : Action.t :=
Action.mk "Ping" (lit 20) UTILITY (lit 10) (Some ["Talk"]).

Definition actions : list Action.t :=
[ TestData.action "Fire" 0 COMBAT 100; TestData.action "Reload" 0 COMBAT 90; ping ].
End DisplacementExample.

Lemma allocate_displaces_witness :
  PassResult.bindings
    (allocatePass DisplacementExample.actions TestData.keysFG
       TestData.DEFAULT_FINGER_CONFIG TestData.DEFAULT_MOVEMENT_CONFIG
       TestData.DEFAULT_AVAILABLE_FINGERS [])
  = [Binding.mk "Fire" "KeyF"; Binding.mk "Reload" "KeyG"]
  /\ In (Binding.mk "Ping" "KeyG")
        (TestData.allocateTest DisplacementExample.actions TestData.keysFG []).
Proof.
  split; [vm_compute; reflexivity|].
  refine (proj2 (@allocate_displaces float_number float_infinity
                   DisplacementExample.actions TestData.keysFG
                   TestData.DEFAULT_FINGER_CONFIG TestData.DEFAULT_MOVEMENT_CONFIG
                   TestData.DEFAULT_AVAILABLE_FINGERS [] DisplacementExample.ping
                   (Binding.mk "Reload" "KeyG") _ _ _ _ _ _)).
  - right. right. now left.
  - intros a [<-|[<-|[<-|[]]]] Hname; try reflexivity; vm_compute in Hname;
      discriminate.
  - reflexivity.
  - vm_compute. intuition discriminate.
  - vm_compute. reflexivity.
  - discriminate.
Defined.

(** ** [CostFunction.ts] *)

(** The lookups of the friction context describe, for a key code, the
    last scored key of the list with that code; when the codes of the
    scored keys are distinct this is the scored key that
    [scoredKeys.find] returns. *)
Lemma find_rev_unique {A : Type} (p : A -> bool) (l : list A) :
  (forall x y, In x l -> In y l -> p x = true -> p y = true -> x = y) ->
  find p (rev l) = find p l.
Proof.
  induction l as [|x l IH]; intros Hu; [reflexivity|].
  cbn [rev]. rewrite find_app_last, IH.
  2:{ intros a b Ha Hb. apply Hu; now right. }
  simpl. destruct (find p l) as [y|] eqn:Hf.
  - apply find_some in Hf. destruct Hf as [Hy Hpy].
    destruct (p x) eqn:Hpx; [|reflexivity].
    f_equal. symmetry. apply Hu; auto; [now left | now right].
  - reflexivity.
Qed.

Theorem buildFrictionContext_lookups {N : JsNumber} (actions : list Action.t)
    (scoredKeys : list ScoredKey.t) (fingerConfig : FingerConfigMap)
    (movementConfig : MovementConfig.t) (code : string) :
  let ctx := buildFrictionContext actions scoredKeys fingerConfig movementConfig in
  let last := find (fun sk => String.eqb (ScoredKey.code sk) code) (rev scoredKeys) in
  JsMap.get (FrictionContext.keyToFinger ctx) code
  = option_map ScoredKey.bestFinger last
  /\ JsMap.get (FrictionContext.keyToDistance ctx) code
     = option_map ScoredKey.totalScore last
  /\ (NoDup (map ScoredKey.code scoredKeys) ->
      last = find (fun sk => String.eqb (ScoredKey.code sk) code) scoredKeys).
Proof.
  intros ctx last. unfold ctx, last. simpl.
  rewrite !JsMap_fold_set_last. simpl.
  split; [|split].
  - destruct (find _ (rev scoredKeys)); reflexivity.
  - destruct (find _ (rev scoredKeys)); reflexivity.
  - intros Hnd. apply find_rev_unique.
    intros x y Hx Hy Hpx Hpy. apply String.eqb_eq in Hpx, Hpy.
    eapply NoDup_map_injective; eauto. congruence.
Qed.

(** The key that names designate for a movement action. *)
Definition movementKeyOfName (config : MovementConfig.t) (name : string)
    : option string :=
  let lower := toLowerCase name in
  if includes lower "forward"
  then Some (AxisConfig.positiveKey (MovementConfig.verticalAxis config))
  else if includes lower "backward"
  then Some (AxisConfig.negativeKey (MovementConfig.verticalAxis config))
  else if includes lower "left"
  then Some (AxisConfig.negativeKey (MovementConfig.horizontalAxis config))
  else if includes lower "right"
  then Some (AxisConfig.positiveKey (MovementConfig.horizontalAxis config))
  else None.

Section MovementMap.
Context {N : JsNumber}.
Variable config : MovementConfig.t.

Lemma movementActionEntry_get (m : JsMap.t string string) (action : Action.t)
    (name : string) :
  JsMap.get (movementActionEntry config m action) name
  = if (isDirectional action && String.eqb (Action.name action) name)%bool
    then match movementKeyOfName config name with
         | Some k => Some k
         | None => JsMap.get m name
         end
    else JsMap.get m name.
Proof.
  unfold movementActionEntry, isDirectional, movementKeyOfName.
  destruct (ActionType_eqb (Action.type action) DIRECTIONAL); simpl; [|reflexivity].
  destruct (String.eqb (Action.name action) name) eqn:En.
  - apply String.eqb_eq in En. subst name.
    repeat (match goal with
            | |- context [if includes ?s ?w then _ else _] => destruct (includes s w)
            end;
            [rewrite JsMap_get_set; simpl; now rewrite String.eqb_refl|]).
    reflexivity.
  - repeat (match goal with
            | |- context [if includes ?s ?w then _ else _] => destruct (includes s w)
            end;
            [rewrite JsMap_get_set; simpl; now rewrite En|]).
    reflexivity.
Qed.

(** The map of the movement actions depends on the names only. *)
Lemma fold_movementActionEntry_get (actions : list Action.t)
    (m : JsMap.t string string) (name : string) :
  JsMap.get (fold_left (movementActionEntry config) actions m) name
  = if existsb (fun a => isDirectional a && String.eqb (Action.name a) name)
         actions
    then match movementKeyOfName config name with
         | Some k => Some k
         | None => JsMap.get m name
         end
    else JsMap.get m name.
Proof.
  revert m. induction actions as [|a actions IH]; intros m; simpl; [reflexivity|].
  rewrite IH, movementActionEntry_get.
  destruct (isDirectional a && String.eqb (Action.name a) name)%bool; simpl.
  - destruct (existsb _ actions); destruct (movementKeyOfName config name); reflexivity.
  - reflexivity.
Qed.

Lemma buildMovementActionMap_get (actions : list Action.t) (name : string) :
  JsMap.get (buildMovementActionMap actions config) name
  = if existsb (fun a => isDirectional a && String.eqb (Action.name a) name)
         actions
    then movementKeyOfName config name
    else None.
Proof.
  unfold buildMovementActionMap. rewrite fold_movementActionEntry_get.
  destruct (existsb _ actions); [|reflexivity].
  destruct (movementKeyOfName config name); reflexivity.
Qed.

Lemma movementKeyOfName_axis (name k : string) :
  movementKeyOfName config name = Some k ->
  exists axis,
    findAxisForName name config = Some axis /\ In k (axisKeys axis).
Proof.
  unfold movementKeyOfName, findAxisForName, axisKeys.
  destruct (includes (toLowerCase name) "forward").
  { intros [= <-]. eexists. split; [reflexivity | now left]. }
  destruct (includes (toLowerCase name) "backward").
  { intros [= <-]. eexists. split; [reflexivity | right; now left]. }
  destruct (includes (toLowerCase name) "left").
  { intros [= <-]. eexists. split; [reflexivity | right; now left]. }
  destruct (includes (toLowerCase name) "right"); [|discriminate].
  intros [= <-]. eexists. split; [reflexivity | now left].
Qed.

Lemma findAxisForName_movementKey (name : string) (axis : AxisConfig.t) :
  findAxisForName name config = Some axis ->
  exists k, movementKeyOfName config name = Some k /\ In k (axisKeys axis).
Proof.
  unfold movementKeyOfName, findAxisForName, axisKeys.
  destruct (includes (toLowerCase name) "forward").
  { intros [= <-]. eexists. split; [reflexivity | now left]. }
  destruct (includes (toLowerCase name) "backward").
  { intros [= <-]. eexists. split; [reflexivity | right; now left]. }
  destruct (includes (toLowerCase name) "left").
  { intros [= <-]. eexists. split; [reflexivity | right; now left]. }
  destruct (includes (toLowerCase name) "right"); [|discriminate].
  intros [= <-]. eexists. split; [reflexivity | now left].
Qed.
End MovementMap.

(** The cost function, the warm start and the greedy allocator agree on
    the movement actions: a name has a designated key exactly when a
    [DIRECTIONAL] action of that name has an axis for the allocator, and
    the designated key is one of the two keys of that axis. *)
Theorem buildMovementActionMap_agrees_with_axis {N : JsNumber}
    (actions : list Action.t) (config : MovementConfig.t) (name : string) :
  (forall k,
     JsMap.get (buildMovementActionMap actions config) name = Some k ->
     exists a axis,
       In a actions /\ Action.name a = name /\ Action.type a = DIRECTIONAL
       /\ findAxisForAction a config = Some axis /\ In k (axisKeys axis))
  /\ (forall a axis,
        In a actions -> Action.name a = name -> Action.type a = DIRECTIONAL ->
        findAxisForAction a config = Some axis ->
        exists k,
          JsMap.get (buildMovementActionMap actions config) name = Some k
          /\ In k (axisKeys axis)).
Proof.
  rewrite buildMovementActionMap_get. split.
  - intros k Hk.
    destruct (existsb _ actions) eqn:Hex; [|discriminate].
    apply existsb_exists in Hex. destruct Hex as [a [Ha Hd]].
    apply andb_true_iff in Hd. destruct Hd as [Hd Hn].
    apply ActionType_eqb_eq in Hd. apply String.eqb_eq in Hn.
    destruct (movementKeyOfName_axis config name Hk) as [axis [Hax Hin]].
    exists a, axis. unfold findAxisForAction. rewrite Hn. auto.
  - intros a axis Ha Hn Ht Hax.
    assert (Hex : existsb (fun a => isDirectional a && String.eqb (Action.name a) name)
                    actions = true).
    { apply existsb_exists. exists a. split; [exact Ha|].
      unfold isDirectional. rewrite Ht, Hn, String.eqb_refl. reflexivity. }
    rewrite Hex. unfold findAxisForAction in Hax. rewrite Hn in Hax.
    now apply findAxisForName_movementKey.
Qed.

(** With exact arithmetic and weights, scores and frequencies that are
    not negative, the friction of a layout is not negative; the empty
    layout has friction 0. *)
Theorem calculateFriction_not_negative {N : JsNumber} {E : ExactArithmetic N}
    (layout : Layout) (ctx : FrictionContext.t) (penalties : PenaltyConfig.t) :
  nonNegativePenalties penalties ->
  nonNegativeContext ctx ->
  (0 <= toR (calculateFriction layout ctx penalties))%R
  /\ toR (calculateFriction [] ctx penalties) = 0%R.
Proof.
  intros Hp Hc. split.
  - unfold calculateFriction. rewrite toR_add.
    pose proof (toR_calculateLoadImbalance ctx layout
                  (buildActionMap (FrictionContext.actions ctx))) as Hi.
    pose proof (toR_friction_fold Hp Hc layout
                  (buildExclusiveFingerSet (FrictionContext.movementConfig ctx))
                  layout (lit 0)) as Hf.
    rewrite toR_zero in Hf. lra.
  - unfold calculateFriction, calculateLoadImbalance. simpl.
    rewrite toR_add, toR_zero. lra.
Qed.

Lemma calculateFriction_not_negative_witness :
  (0 <= calculateFriction (N := R_number) [("MoveForward", "KeyQ")]%string
          ExactExample.ctx DEFAULT_PENALTIES)%R.
Proof.
  apply (@calculateFriction_not_negative R_number R_exact
           [("MoveForward", "KeyQ")]%string ExactExample.ctx DEFAULT_PENALTIES).
  - unfold nonNegativePenalties. simpl. unfold Q2R. simpl. repeat split; lra.
  - apply buildFrictionContext_nonNegative.
    + intros sk [<-|[<-|[]]]; simpl; lra.
    + intros a [<-|[]]; simpl; lra.
Defined.

(** ** Finger loads, under exact arithmetic *)

Section FingerLoadsExact.
Context {N : JsNumber} {E : ExactArithmetic N}.
Variable ctx : FrictionContext.t.
Variable actionMap : JsMap.t string Action.t.

(** What an entry of the layout adds to the load of [finger]: the
    frequency of its action when the action is known and the key is on
    that finger. *)
Definition loadOfEntry (finger : Finger) (entry : string * string) : R :=
  match JsMap.get actionMap (fst entry),
        JsMap.get (FrictionContext.keyToFinger ctx) (snd entry) with
  | Some action, Some f =>
      if Finger_eqb f finger then toR (Action.useFrequency action) else 0%R
  | _, _ => 0%R
  end.

(** The entry is counted for [finger]. *)
Definition countsFor (finger : Finger) (entry : string * string) : bool :=
  match JsMap.get actionMap (fst entry),
        JsMap.get (FrictionContext.keyToFinger ctx) (snd entry) with
  | Some _, Some f => Finger_eqb f finger
  | _, _ => false
  end.

Fixpoint loadOn (finger : Finger) (layout : list (string * string)) : R :=
  match layout with
  | [] => 0%R
  | entry :: rest => (loadOfEntry finger entry + loadOn finger rest)%R
  end.

Definition loadIn (loads : JsMap.t Finger num) (finger : Finger) : R :=
  match JsMap.get loads finger with
  | Some v => toR v
  | None => 0%R
  end.

Lemma fingerLoads_fold (layout : list (string * string))
    (loads : JsMap.t Finger num) (finger : Finger) :
  let result :=
    fold_left
      (fun (loads : JsMap.t Finger num) (entry : string * string) =>
         match JsMap.get actionMap (fst entry),
               JsMap.get (FrictionContext.keyToFinger ctx) (snd entry) with
         | Some action, Some finger =>
             let current :=
               match JsMap.get loads finger with
               | Some c => c
               | None => lit 0
               end in
             JsMap.set loads finger (current + Action.useFrequency action)%num
         | _, _ => loads
         end)
      layout loads in
  loadIn result finger = (loadIn loads finger + loadOn finger layout)%R
  /\ (JsMap.has result finger
      = (JsMap.has loads finger || existsb (countsFor finger) layout)%bool).
Proof.
  revert loads. induction layout as [|entry rest IH]; intros loads; cbn zeta.
  - simpl. split; [lra | now rewrite orb_false_r].
  - cbn [fold_left loadOn existsb].
    match goal with
    | |- context [fold_left ?f rest ?m] => destruct (IH m) as [IH1 IH2]
    end.
    cbn zeta in IH1, IH2. rewrite IH1, IH2. clear IH IH1 IH2.
    unfold loadOfEntry, countsFor.
    destruct (JsMap.get actionMap (fst entry)) as [action|];
      [|split; [lra | now rewrite orb_false_l]].
    destruct (JsMap.get (FrictionContext.keyToFinger ctx) (snd entry)) as [f|];
      [|split; [lra | now rewrite orb_false_l]].
    unfold loadIn, JsMap.has. rewrite JsMap_get_set. simpl.
    destruct (Finger_eqb f finger) eqn:Ef.
    + apply Finger_eqb_eq in Ef. subst f. rewrite toR_add.
      destruct (JsMap.get loads finger); [|rewrite toR_zero]; split;
        try lra; reflexivity.
    + split; [lra | now rewrite orb_false_l].
Qed.
End FingerLoadsExact.

(** With exact arithmetic, the load [calculateFingerLoads] records for a
    finger is the sum of the frequencies of the actions of the layout
    that are known and sit on a key of that finger, and a finger has an
    entry exactly when the layout has such an action. *)
Theorem calculateFingerLoads_sums {N : JsNumber} {E : ExactArithmetic N}
    (layout : Layout) (ctx : FrictionContext.t) (finger : Finger) :
  let actionMap := buildActionMap (FrictionContext.actions ctx) in
  match JsMap.get (calculateFingerLoads layout ctx) finger with
  | Some load =>
      toR load = loadOn ctx actionMap finger layout
      /\ existsb (countsFor ctx actionMap finger) layout = true
  | None => existsb (countsFor ctx actionMap finger) layout = false
  end.
Proof.
  intros actionMap. unfold calculateFingerLoads, fingerLoadsOf.
  destruct (fingerLoads_fold ctx actionMap layout JsMap.empty finger) as [H1 H2].
  cbn zeta in H1, H2. fold actionMap.
  unfold loadIn, JsMap.has in H1, H2. simpl in H1, H2.
  match goal with
  | |- match ?g with _ => _ end => destruct g as [load|]
  end.
  - split; [lra | now symmetry].
  - now symmetry.
Qed.

(** ** The warm start and the movement keys *)

Section JsMapKeyFacts.
Context {K V : Type} `{KeyEq K}.

Lemma JsMap_set_keys_In (m : JsMap.t K V) (k k' : K) (v : V) :
  In k' (JsMap.keys (JsMap.set m k v)) <-> k' = k \/ In k' (JsMap.keys m).
Proof.
  induction m as [|[k0 v0] m IH]; simpl.
  - split; [intros [<-|[]]; now left | intros [->|[]]; now left].
  - destruct (keqb k0 k) eqn:Ek; simpl.
    + apply keqb_eq in Ek. subst k0. split; [tauto|].
      intros [->|Hk]; [now left | assumption].
    + rewrite IH. tauto.
Qed.

Lemma JsMap_set_keys_NoDup (m : JsMap.t K V) (k : K) (v : V) :
  NoDup (JsMap.keys m) -> NoDup (JsMap.keys (JsMap.set m k v)).
Proof.
  induction m as [|[k0 v0] m IH]; simpl; intros Hnd.
  - repeat constructor. intros [].
  - inversion Hnd as [|? ? Hk0 Hm]; subst.
    destruct (keqb k0 k) eqn:Ek; simpl; [now constructor|].
    constructor; [|now apply IH].
    intros Hin. apply JsMap_set_keys_In in Hin. destruct Hin as [->|Hin].
    + now rewrite keqb_refl in Ek.
    + contradiction.
Qed.

Lemma JsMap_In_get (m : JsMap.t K V) (k : K) (v : V) :
  NoDup (JsMap.keys m) -> In (k, v) m -> JsMap.get m k = Some v.
Proof.
  induction m as [|[k0 v0] m IH]; simpl; intros Hnd Hin; [contradiction|].
  inversion Hnd as [|? ? Hk0 Hm]; subst.
  destruct Hin as [[= -> ->]|Hin].
  - now rewrite keqb_refl.
  - destruct (keqb k0 k) eqn:Ek; [|now apply IH].
    apply keqb_eq in Ek. subst k0. exfalso. apply Hk0.
    change k with (fst (k, v)). now apply in_map.
Qed.
End JsMapKeyFacts.

Lemma buildMovementActionMap_keys_NoDup {N : JsNumber} (actions : list Action.t)
    (config : MovementConfig.t) :
  NoDup (JsMap.keys (buildMovementActionMap actions config)).
Proof.
  unfold buildMovementActionMap.
  assert (Hgen : forall m, NoDup (JsMap.keys m) ->
                           NoDup (JsMap.keys
                                    (fold_left (movementActionEntry config) actions m))).
  { induction actions as [|a actions IH]; intros m Hm; simpl; [exact Hm|].
    apply IH. unfold movementActionEntry.
    repeat match goal with
           | |- context [if ?c then _ else _] => destruct c
           end;
      try exact Hm; now apply JsMap_set_keys_NoDup. }
  apply Hgen. constructor.
Qed.

Section WarmStartMovement.
Local Existing Instance float_number.
Variable movementMap : JsMap.t string string.

(** The movement actions are in the layout on their keys and marked
    used, and the layout has one entry per action. *)
Definition movementLocked (ws : WarmStart) : Prop :=
  (forall name k, In (name, k) movementMap ->
                  JsMap.get (ws_layout ws) name = Some k)
  /\ (forall name, In name (JsMap.keys movementMap) ->
                   In name (ws_usedActions ws))
  /\ NoDup (JsMap.keys (ws_layout ws)).

Lemma movementLocked_set (ws : WarmStart) (actionName keyCode : string)
    (usedKeys usedActions : JsSet.t string) :
  movementLocked ws ->
  ~ In actionName (JsMap.keys movementMap) ->
  (forall name, In name (ws_usedActions ws) -> In name usedActions) ->
  movementLocked
    (mkWarmStart (JsMap.set (ws_layout ws) actionName keyCode) usedKeys usedActions).
Proof.
  intros [Hget [Hused Hnd]] Hfree Hmono. split; [|split]; simpl.
  - intros name k Hin. rewrite JsMap_get_set.
    destruct (keqb actionName name) eqn:Ek; [|now apply Hget].
    apply keqb_eq in Ek. subst name. exfalso. apply Hfree.
    change actionName with (fst (actionName, k)). now apply in_map.
  - intros name Hin. now apply Hmono, Hused.
  - now apply JsMap_set_keys_NoDup.
Qed.

Lemma movementLocked_assign (ws : WarmStart) (actionName keyCode : string) :
  movementLocked ws ->
  ~ In actionName (ws_usedActions ws) ->
  movementLocked (assign ws actionName keyCode).
Proof.
  intros Hws Hfree. unfold assign. apply movementLocked_set; [exact Hws | |].
  - intros Hin. apply Hfree. now apply Hws.
  - intros name Hin. apply JsSet_add_In. now right.
Qed.

Lemma movementLocked_assignExclusiveKeys (nonMovement : list Action.t)
    (exclusiveKeys : list string) (ws : WarmStart) :
  movementLocked ws ->
  movementLocked (assignExclusiveKeys nonMovement exclusiveKeys ws).
Proof.
  revert ws. induction exclusiveKeys as [|k rest IH]; intros ws Hws;
    cbn [assignExclusiveKeys]; [assumption|].
  destruct (JsSet.has (ws_usedKeys ws) k); [now apply IH|].
  destruct (find _ nonMovement) as [action|] eqn:Hf; [|assumption].
  apply find_some in Hf. destruct Hf as [_ Hf].
  apply negb_true_iff, JsSet_has_false in Hf.
  now apply IH, movementLocked_assign.
Qed.

Lemma movementLocked_exclusiveFingers (nonMovement : list Action.t)
    (fingerConfig : FingerConfigMap) (ws : WarmStart) :
  movementLocked ws ->
  movementLocked
    (fold_left
       (fun ws (e : Finger * FingerConfig.t) =>
          match FingerConfig.exclusiveKeys (snd e) with
          | Some (k :: ks) => assignExclusiveKeys nonMovement (k :: ks) ws
          | _ => ws
          end)
       fingerConfig ws).
Proof.
  revert ws. induction fingerConfig as [|[f c] rest IH]; intros ws Hws;
    cbn [fold_left]; [assumption|].
  apply IH. cbn [snd].
  destruct (FingerConfig.exclusiveKeys c) as [[|k ks]|]; try assumption.
  now apply movementLocked_assignExclusiveKeys.
Qed.

Lemma movementLocked_remaining (scoredKeys : list ScoredKey.t)
    (remaining : list Action.t) (ws : WarmStart) :
  movementLocked ws ->
  (forall a, In a remaining -> ~ In (Action.name a) (ws_usedActions ws)) ->
  movementLocked (fold_left (assignFirstFree scoredKeys) remaining ws).
Proof.
  revert ws. induction remaining as [|a rest IH]; intros ws Hws Hfree;
    cbn [fold_left]; [assumption|].
  assert (Hsame : ws_usedActions (assignFirstFree scoredKeys ws a) = ws_usedActions ws).
  { unfold assignFirstFree. destruct (find _ scoredKeys); reflexivity. }
  apply IH.
  - unfold assignFirstFree. destruct (find _ scoredKeys) as [sk|]; [|assumption].
    apply movementLocked_set; [exact Hws | | auto].
    intros Hin. apply (Hfree a); [now left|]. now apply Hws.
  - intros a' Ha'. rewrite Hsame. apply Hfree. now right.
Qed.

Lemma movementLocked_first (entries : list (string * string)) (ws : WarmStart) :
  NoDup (map fst entries) ->
  NoDup (JsMap.keys (ws_layout ws)) ->
  let result :=
    fold_left (fun ws (e : string * string) => assign ws (fst e) (snd e))
      entries ws in
  (forall name k, In (name, k) entries ->
                  JsMap.get (ws_layout result) name = Some k)
  /\ (forall name, In name (map fst entries) \/ In name (ws_usedActions ws) ->
                   In name (ws_usedActions result))
  /\ (forall name, ~ In name (map fst entries) ->
                   JsMap.get (ws_layout result) name = JsMap.get (ws_layout ws) name)
  /\ NoDup (JsMap.keys (ws_layout result)).
Proof.
  revert ws. induction entries as [|[n k] entries IH]; intros ws Hnd Hws; cbn zeta.
  - simpl. split; [intros name k []|].
    split; [intros name [[]|Hin]; exact Hin|].
    split; [reflexivity | exact Hws].
  - cbn [fold_left fst snd]. inversion Hnd as [|? ? Hn Hnd']; subst.
    destruct (IH (assign ws n k) Hnd') as [H1 [H2 [H3 H4]]].
    { simpl. now apply JsMap_set_keys_NoDup. }
    cbn zeta in H1, H2, H3, H4.
    split; [|split; [|split]].
    + intros name k' [[= <- <-]|Hin]; [|now apply H1].
      rewrite (H3 n Hn). simpl. rewrite JsMap_get_set. now rewrite keqb_refl.
    + intros name [[<-|Hin]|Hin]; apply H2.
      * right. simpl. apply JsSet_add_In. now left.
      * now left.
      * right. simpl. apply JsSet_add_In. now right.
    + intros name Hname. simpl in Hname.
      rewrite H3 by tauto. simpl. rewrite JsMap_get_set.
      destruct (keqb n name) eqn:Ek; [|reflexivity].
      apply keqb_eq in Ek. tauto.
    + exact H4.
Qed.
End WarmStartMovement.

Lemma generateInitialLayout_movementLocked
    (actions : list (Action.t (N := float_number)))
    (scoredKeys : list (ScoredKey.t (N := float_number)))
    (movementConfig : MovementConfig.t)
    (fingerConfig : FingerConfigMap (N := float_number)) :
  (forall name k,
     In (name, k) (buildMovementActionMap actions movementConfig) ->
     JsMap.get (generateInitialLayout actions scoredKeys movementConfig fingerConfig)
       name = Some k)
  /\ NoDup (JsMap.keys
              (generateInitialLayout actions scoredKeys movementConfig fingerConfig)).
Proof.
  unfold generateInitialLayout.
  set (movementMap := buildMovementActionMap actions movementConfig).
  set (ws1 := fold_left _ movementMap _).
  assert (H1 : movementLocked movementMap ws1).
  { destruct (movementLocked_first movementMap
                (mkWarmStart JsMap.empty JsSet.empty JsSet.empty))
      as [Ha [Hb [_ Hd]]].
    - apply buildMovementActionMap_keys_NoDup.
    - constructor.
    - cbn zeta in Ha, Hb, Hd. fold ws1 in Ha, Hb, Hd.
      split; [exact Ha|]. split; [|exact Hd].
      intros name Hin. apply Hb. now left. }
  set (nonMovement := Array_sort _ _).
  set (ws2 := fold_left _ fingerConfig ws1).
  assert (H2 : movementLocked movementMap ws2)
    by now apply movementLocked_exclusiveFingers.
  assert (H3 : movementLocked movementMap
                 (fold_left (assignFirstFree scoredKeys)
                    (filter (fun a => negb (JsSet.has (ws_usedActions ws2)
                                              (Action.name a)))
                       nonMovement)
                    ws2)).
  { apply movementLocked_remaining; [exact H2|].
    intros a Ha. apply filter_In in Ha. destruct Ha as [_ Ha].
    now apply negb_true_iff, JsSet_has_false in Ha. }
  destruct H3 as [Hget [_ Hnd]]. split; assumption.
Qed.

(** The warm start puts every [DIRECTIONAL] action that has a designated
    key on that key, gives every action one entry at most, and so has
    no [DIRECTIONAL] action off its key: rule 1 of the friction score
    adds nothing to it. *)
Theorem generateInitialLayout_locks_movement
    (actions : list (Action.t (N := float_number)))
    (scoredKeys : list (ScoredKey.t (N := float_number)))
    (movementConfig : MovementConfig.t)
    (fingerConfig : FingerConfigMap (N := float_number)) :
  let layout :=
    generateInitialLayout actions scoredKeys movementConfig fingerConfig in
  (forall name k,
     JsMap.get (buildMovementActionMap actions movementConfig) name = Some k ->
     JsMap.get layout name = Some k)
  /\ NoDup (JsMap.keys layout)
  /\ violatesDirectional
       (buildFrictionContext actions scoredKeys fingerConfig movementConfig)
       layout = false.
Proof.
  intros layout.
  destruct (generateInitialLayout_movementLocked actions scoredKeys movementConfig
              fingerConfig) as [Hget Hnd].
  fold layout in Hget, Hnd.
  split; [|split; [exact Hnd|]].
  - intros name k Hk. apply Hget. now apply JsMap_get_In.
  - unfold violatesDirectional.
    destruct (existsb _ layout) eqn:Hex; [|reflexivity].
    apply existsb_exists in Hex. destruct Hex as [[name key] [Hin Hw]].
    cbn [fst snd] in Hw.
    destruct (JsMap.get _ name) as [action|]; [|discriminate].
    unfold wrongMovementKey in Hw. apply andb_true_iff in Hw.
    destruct Hw as [_ Hw]. simpl in Hw.
    destruct (JsMap.get (fold_left (movementActionEntry movementConfig) actions
                           JsMap.empty) name) as [correct|] eqn:Hc;
      [|discriminate].
    apply andb_true_iff in Hw. destruct Hw as [_ Hw].
    apply negb_true_iff, String.eqb_neq in Hw.
    apply JsMap_get_In in Hc. apply Hget in Hc.
    apply (JsMap_In_get _ _ _ Hnd) in Hin. congruence.
Qed.

(** ** [SAOptimizer.ts]: swaps *)

Section JsMapSetFacts.
Context {K V : Type} `{KeyEq K}.

Lemma JsMap_set_set (m : JsMap.t K V) (k : K) (v1 v2 : V) :
  JsMap.set (JsMap.set m k v1) k v2 = JsMap.set m k v2.
Proof.
  induction m as [|[k0 v0] m IH]; simpl.
  - now rewrite keqb_refl.
  - destruct (keqb k0 k) eqn:Ek; simpl; rewrite Ek; [reflexivity|]. now rewrite IH.
Qed.

(** Writing two present keys and writing their values back restores
    the map. *)
Lemma JsMap_swap_back (m : JsMap.t K V) (a b : K) (va vb : V) :
  a <> b ->
  JsMap.get m a = Some va ->
  JsMap.get m b = Some vb ->
  JsMap.set (JsMap.set (JsMap.set (JsMap.set m a vb) b va) a va) b vb = m.
Proof.
  intros Hab. induction m as [|[k0 v0] m IH]; simpl; [discriminate|].
  destruct (keqb k0 a) eqn:Ea; destruct (keqb k0 b) eqn:Eb.
  - apply keqb_eq in Ea, Eb. congruence.
  - intros [= ->] Hb. simpl. rewrite Eb. simpl. rewrite Ea. simpl. rewrite Eb.
    f_equal. rewrite JsMap_set_set. now apply JsMap_set_same.
  - intros Ha [= ->]. simpl. rewrite Eb. simpl. rewrite Ea. simpl. rewrite Eb.
    f_equal. rewrite JsMap_set_set. now apply JsMap_set_same.
  - intros Ha Hb. simpl. rewrite Eb. simpl. rewrite Ea. simpl. rewrite Eb.
    f_equal. now apply IH.
Qed.
End JsMapSetFacts.

(** [swap] on two actions that both have a key exchanges the two keys
    and touches nothing else: the second action has the key of the
    first, the first the key of the second, every other action keeps
    its key and all keep their places; swapping again restores the
    layout. *)
Theorem swap_exchanges (layout : Layout) (actionA actionB keyA keyB : string) :
  JsMap.get layout actionA = Some keyA ->
  JsMap.get layout actionB = Some keyB ->
  keyA <> EmptyString -> keyB <> EmptyString ->
  let swapped := swap layout (Some actionA) (Some actionB) in
  JsMap.get swapped actionB = Some keyA
  /\ (actionA <> actionB -> JsMap.get swapped actionA = Some keyB)
  /\ (forall other, other <> actionA -> other <> actionB ->
                    JsMap.get swapped other = JsMap.get layout other)
  /\ JsMap.keys swapped = JsMap.keys layout
  /\ swap swapped (Some actionA) (Some actionB) = layout.
Proof.
  intros Ha Hb Hna Hnb swapped.
  assert (Hs : swapped = JsMap.set (JsMap.set layout actionA keyB) actionB keyA).
  { unfold swapped, swap. rewrite Ha, Hb.
    apply String.eqb_neq in Hna, Hnb. now rewrite Hna, Hnb. }
  assert (Hgb : JsMap.get swapped actionB = Some keyA).
  { rewrite Hs, JsMap_get_set. now rewrite keqb_refl. }
  assert (Hga : actionA <> actionB -> JsMap.get swapped actionA = Some keyB).
  { intros Hab. rewrite Hs, !JsMap_get_set. rewrite keqb_refl.
    destruct (keqb actionB actionA) eqn:E; [|reflexivity].
    apply keqb_eq in E. congruence. }
  split; [exact Hgb|]. split; [exact Hga|]. split; [|split].
  - intros other Hoa Hob. rewrite Hs, !JsMap_get_set.
    destruct (keqb actionB other) eqn:E1; [apply keqb_eq in E1; congruence|].
    destruct (keqb actionA other) eqn:E2; [apply keqb_eq in E2; congruence|].
    reflexivity.
  - apply (swap_Rearranged layout (Some actionA) (Some actionB)).
  - destruct (string_dec actionA actionB) as [Eab|Nab].
    + subst actionB. assert (keyA = keyB) by congruence. subst keyB.
      assert (Hsame : swapped = layout).
      { rewrite Hs. now rewrite !(JsMap_set_same layout actionA Ha). }
      rewrite Hsame. fold swapped. exact Hsame.
    + unfold swap. rewrite (Hga Nab), Hgb.
      apply String.eqb_neq in Hna, Hnb. rewrite Hna, Hnb. simpl.
      rewrite Hs. now apply JsMap_swap_back.
Qed.

Lemma swap_exchanges_witness :
  swap (swap [("Jump", "KeyF"); ("Dash", "KeyG")]%string (Some "Jump"%string)
          (Some "Dash"%string))
    (Some "Jump"%string) (Some "Dash"%string)
  = [("Jump", "KeyF"); ("Dash", "KeyG")]%string.
Proof.
  apply (@swap_exchanges [("Jump", "KeyF"); ("Dash", "KeyG")]%string
           "Jump" "Dash" "KeyF" "KeyG"); (reflexivity || discriminate).
Defined.

(** ** [SAOptimizer.ts]: the generator *)

(** [pickTwo] never returns the element of one position twice: on an
    array without repeated elements its two results, when both are
    defined, differ. *)
Theorem SeededRandom_pickTwo_distinct {A : Type} (this : SeededRandom.t)
    (arr : list A) (x y : A) :
  NoDup arr ->
  fst (SeededRandom.pickTwo this arr) = (Some x, Some y) ->
  x <> y.
Proof.
  intros Hnd. unfold SeededRandom.pickTwo.
  destruct (SeededRandom.next this) as [r1 this1].
  destruct (SeededRandom.next this1) as [r2 this2]. simpl.
  destruct (Math_floor (r1 * Array_length arr)%float) as [iz|]; [|discriminate].
  destruct (Math_floor (r2 * (Array_length arr - 1))%float) as [jz|];
    [|discriminate].
  set (j := if (jz >=? iz)%Z then Some (jz + 1)%Z else Some jz).
  assert (Hj : exists jz', j = Some jz' /\ jz' <> iz).
  { unfold j. destruct (jz >=? iz)%Z eqn:Hge; eexists; (split; [reflexivity|]); lia. }
  destruct Hj as [jz' [-> Hne]]. unfold Array_at.
  destruct (iz <? 0)%Z eqn:Hi; [discriminate|].
  destruct (jz' <? 0)%Z eqn:Hj; [discriminate|].
  intros [= Hx Hy] Hxy. subst y.
  apply Hne. symmetry.
  assert (Hlt : (Z.to_nat iz < List.length arr)%nat).
  { apply nth_error_Some. congruence. }
  pose proof (proj1 (NoDup_nth_error arr) Hnd (Z.to_nat iz) (Z.to_nat jz') Hlt) as Heq.
  rewrite Hx, Hy in Heq. specialize (Heq eq_refl). lia.
Qed.

Lemma SeededRandom_pickTwo_distinct_witness : "b"%string <> "c"%string.
Proof.
  apply (@SeededRandom_pickTwo_distinct string (SeededRandom.mk 42%float)
           ["a"; "b"; "c"]%string "b"%string "c"%string).
  - repeat constructor; simpl; intuition discriminate.
  - vm_compute. reflexivity.
Defined.

(** ** [SAOptimizer.ts]: the annealing loop *)

(** [<] on binary64 is transitive. *)
Lemma SFltb_trans (a b c : spec_float) :
  SFltb a b = true -> SFltb b c = true -> SFltb a c = true.
Proof.
  unfold SFltb, SFcompare.
  destruct a as [[|]|[|]| |[|] ma ea]; destruct b as [[|]|[|]| |[|] mb eb];
    try discriminate;
    destruct c as [[|]|[|]| |[|] mc ec]; try discriminate; try reflexivity;
    change (Pos.compare_cont Eq ma mb) with (Pos.compare ma mb);
    change (Pos.compare_cont Eq mb mc) with (Pos.compare mb mc);
    change (Pos.compare_cont Eq ma mc) with (Pos.compare ma mc);
    destruct (Z.compare_spec ea eb); destruct (Z.compare_spec eb ec);
    destruct (Z.compare_spec ea ec); try discriminate; try reflexivity;
    try lia; subst;
    destruct (Pos.compare_spec ma mb); destruct (Pos.compare_spec mb mc);
    destruct (Pos.compare_spec ma mc); simpl; try discriminate; try reflexivity;
    lia.
Qed.

Lemma float_ltb_trans (a b c : float) :
  PrimFloat.ltb a b = true -> PrimFloat.ltb b c = true -> PrimFloat.ltb a c = true.
Proof. rewrite !ltb_spec. apply SFltb_trans. Qed.

Section AnnealingScores.
Variable Math_exp : float -> float.
Variable actions : list (Action.t (N := float_number)).
Variable ctx : FrictionContext.t (N := float_number).
Variable penalties : PenaltyConfig.t (N := float_number).
Variable options : SAOptions.t (N := float_number).

(** The scores the loop keeps are the frictions of the layouts it
    keeps, and the best score is not above [start]. *)
Definition scoresInSync (start : float) (st : SAState) : Prop :=
  sa_currentScore st = calculateFriction (sa_current st) ctx penalties
  /\ sa_bestScore st = calculateFriction (sa_best st) ctx penalties
  /\ PrimFloat.ltb start (sa_bestScore st) = false.

Lemma saStep_scoresInSync (start : float) (st : SAState) :
  scoresInSync start st ->
  scoresInSync start (saStep Math_exp actions ctx penalties options st).
Proof.
  intros [Hc [Hb Hs]]. unfold saStep, scoresInSync.
  destruct (mutate _ _ _ _ _) as [neighbor rng].
  assert (Hnew : PrimFloat.ltb (calculateFriction neighbor ctx penalties)
                   (sa_bestScore st) = true ->
                 PrimFloat.ltb start (calculateFriction neighbor ctx penalties)
                 = false).
  { intros Hlt. apply not_true_is_false. intros Hgt.
    pose proof (float_ltb_trans Hgt Hlt). congruence. }
  destruct (_ <? 0)%float.
  - destruct (calculateFriction neighbor ctx penalties <? sa_bestScore st)%float
      eqn:Hlt; cbn [sa_current sa_currentScore sa_best sa_bestScore].
    + split; [reflexivity|]. split; [reflexivity | now apply Hnew].
    + split; [reflexivity|]. split; assumption.
  - destruct (SeededRandom.next rng) as [r rng'].
    destruct (r <? _)%float.
    + destruct (calculateFriction neighbor ctx penalties <? sa_bestScore st)%float
        eqn:Hlt; cbn [sa_current sa_currentScore sa_best sa_bestScore].
      * split; [reflexivity|]. split; [reflexivity | now apply Hnew].
      * split; [reflexivity|]. split; assumption.
    + cbn [sa_current sa_currentScore sa_best sa_bestScore].
      split; [assumption|]. split; assumption.
Qed.

Lemma saLoop_scoresInSync (start : float) (fuel : nat) (st st' : SAState) :
  scoresInSync start st ->
  saLoop Math_exp fuel actions ctx penalties options st = Some st' ->
  scoresInSync start st'.
Proof.
  revert st. induction fuel as [|fuel IH]; intros st Hst; cbn [saLoop].
  - destruct (nltb _ _); [discriminate|]. now intros [= <-].
  - destruct (nltb _ _); [|now intros [= <-]].
    apply IH. now apply saStep_scoresInSync.
Qed.
End AnnealingScores.

(** NaN is below nothing. *)
Lemma float_ltb_irrefl (a : float) : PrimFloat.ltb a a = false.
Proof.
  rewrite ltb_spec. unfold SFltb, SFcompare.
  destruct (Prim2SF a) as [[|]|[|]| |[|] m e]; try reflexivity;
    rewrite Z.compare_refl;
    change (Pos.compare_cont Eq m m) with (Pos.compare m m);
    now rewrite Pos.compare_refl.
Qed.

(** When the temperatures of the options end within the fuel,
    [optimizeSA] returns a layout: it binds the actions of the warm
    start, in the same order, to the keys of the warm start in some
    order (so it repeats no key when the movement actions have distinct
    keys), and its friction is not above the friction of the warm start. *)
Theorem optimizeSA_returns_rearrangement (Math_exp : float -> float) (now : float)
    (fuel : nat) (actions : list (Action.t (N := float_number)))
    (scoredKeys : list (ScoredKey.t (N := float_number)))
    (fingerConfig : FingerConfigMap (N := float_number))
    (movementConfig : MovementConfig.t)
    (penalties : PenaltyConfig.t (N := float_number))
    (options : SAOptions.t (N := float_number)) :
  cooling options fuel (SAOptions.initialTemp options) <> None ->
  let warm := generateInitialLayout actions scoredKeys movementConfig fingerConfig in
  let ctx := buildFrictionContext actions scoredKeys fingerConfig movementConfig in
  exists layout,
    optimizeSA Math_exp now fuel actions scoredKeys fingerConfig movementConfig
      penalties options = Some layout
    /\ JsMap.keys layout = JsMap.keys warm
    /\ Permutation (JsMap.values layout) (JsMap.values warm)
    /\ (NoDup (JsMap.values (buildMovementActionMap actions movementConfig)) ->
        NoDup (JsMap.values layout))
    /\ PrimFloat.ltb (calculateFriction warm ctx penalties)
         (calculateFriction layout ctx penalties) = false.
Proof.
  intros Hcool warm ctx.
  destruct (optimizeSA_run Math_exp now fuel actions scoredKeys fingerConfig
              movementConfig penalties options) as [st'|] eqn:Hrun.
  2:{ exfalso. unfold optimizeSA_run in Hrun. revert Hrun.
      apply saLoop_returns. exact Hcool. }
  assert (Hopt : optimizeSA Math_exp now fuel actions scoredKeys fingerConfig
                   movementConfig penalties options = Some (sa_best st')).
  { unfold optimizeSA. now rewrite Hrun. }
  exists (sa_best st'). split; [exact Hopt|].
  destruct (optimizeSA_Rearranged _ _ _ _ _ _ _ _ _ Hopt) as [Hk Hp].
  split; [exact Hk|]. split; [exact Hp|]. split.
  - intros Hnd. eapply Permutation_NoDup; [apply Permutation_sym, Hp|].
    now apply generateInitialLayout_injective.
  - unfold optimizeSA_run in Hrun. fold warm ctx in Hrun.
    assert (Hsync : scoresInSync ctx penalties
                      (calculateFriction warm ctx penalties) st').
    { eapply saLoop_scoresInSync; [|exact Hrun].
      unfold scoresInSync. cbn [sa_current sa_currentScore sa_best sa_bestScore].
      split; [reflexivity|]. split; [reflexivity | apply float_ltb_irrefl]. }
    destruct Hsync as [_ [Hb Hs]]. now rewrite <- Hb.
Qed.

Lemma optimizeSA_returns_rearrangement_witness :
  exists layout,
    AnnealingExample.run 0%float (AnnealingExample.seeded 42%float) = Some layout
    /\ JsMap.keys layout = ["MoveForward"; "Fire"; "Dash"; "Jump"]%string.
Proof.
  destruct (@optimizeSA_returns_rearrangement Math_exp_approx 0%float 1838
              AnnealingExample.actions AnnealingExample.scoredKeys
              TestData.DEFAULT_FINGER_CONFIG TestData.DEFAULT_MOVEMENT_CONFIG
              DEFAULT_PENALTIES (AnnealingExample.seeded 42%float))
    as [layout [Hr [Hk _]]].
  - vm_compute. discriminate.
  - exists layout. split; [exact Hr|]. rewrite Hk. vm_compute. reflexivity.
Defined.
